(** * A shallow embedding of the matching engine of [Main_File.py]

    The engine keeps one order book per symbol (two price-indexed sorted
    dictionaries of FIFO queues), an [orders] and a [trades] collection, and
    serves two requests, [submit_order] and [cancel_order].

    Modelling decisions, all local to this file:
    - prices and quantities are exact fixed-scale decimals, that is, integer
      multiples of the scale unit: they are values of [Z]. This is what
      the specification says of the quantities; the code computes on
      binary floating-point numbers, and the module [Binary64] repeats
      [submit_order] on these, for what the rounding of sums and
      differences decides;
    - strings are ASCII strings, [upper] and [lower] are the ASCII case maps;
    - a [SortedDict] is the list of its items in ascending key order;
    - a MongoDB collection is the list of its documents in insertion order,
      [find_one] and [update_one] act on the first matching document;
    - the identifiers and timestamps drawn by a request ([uuid.uuid4()],
      [datetime.utcnow()]) are inputs of the request, gathered in [Env];
    - every [await] of a request is a point where the coroutine may be
      suspended: the request records the state of the engine at that point;
    - [broadcast_trade] hands the trade to the subscribers: the state keeps
      the list of the trades handed over; the list of the subscribers and
      what [broadcast_trade] does to it are modelled apart, on connections
      named by numbers;
    - the global [order_map] is never written nor read by the two requests
      and is left out. *)

From Stdlib Require Import ZArith String Ascii List Lia Bool.
From Stdlib Require PrimFloat.
From stdpp Require Import base option list strings gmap fin_maps.

Local Open Scope string_scope.
Local Open Scope list_scope.
Local Open Scope Z_scope.

#[local] Set Warnings "-inexact-float".

(** ** Strings *)

Definition upper_ascii (c : ascii) : ascii :=
  let n := N_of_ascii c in
  if ((97 <=? n) && (n <=? 122))%N then ascii_of_N (n - 32) else c.

Definition lower_ascii (c : ascii) : ascii :=
  let n := N_of_ascii c in
  if ((65 <=? n) && (n <=? 90))%N then ascii_of_N (n + 32) else c.

Fixpoint upper (s : string) : string :=
  match s with
  | EmptyString => EmptyString
  | String c r => String (upper_ascii c) (upper r)
  end.

Fixpoint lower (s : string) : string :=
  match s with
  | EmptyString => EmptyString
  | String c r => String (lower_ascii c) (lower r)
  end.

(** ** SortedDict: items in ascending key order *)

Module SortedDict.
Section Ops.
Context {V : Type}.

Definition t := list (Z * V).

Definition empty : t := [].

(** [not d] *)
Definition is_empty (d : t) : bool :=
  match d with [] => true | _ => false end.

(** [d.items()] *)
Definition items (d : t) : list (Z * V) := d.

(** [d.peekitem(0)] *)
Definition peekitem_first (d : t) : option (Z * V) := head d.

(** [d.peekitem(-1)] *)
Definition peekitem_last (d : t) : option (Z * V) := last d.

(** [d[k]] *)
Fixpoint getitem (k : Z) (d : t) : option V :=
  match d with
  | [] => None
  | (k', v) :: r => if k =? k' then Some v else getitem k r
  end.

(** [k in d] *)
Definition contains (k : Z) (d : t) : bool :=
  match getitem k d with Some _ => true | None => false end.

(** [d[k] = v] *)
Fixpoint setitem (k : Z) (v : V) (d : t) : t :=
  match d with
  | [] => [(k, v)]
  | (k', v') :: r =>
      if k <? k' then (k, v) :: (k', v') :: r
      else if k =? k' then (k, v) :: r
      else (k', v') :: setitem k v r
  end.

(** [del d[k]] *)
Fixpoint delitem (k : Z) (d : t) : t :=
  match d with
  | [] => []
  | (k', v) :: r => if k =? k' then r else (k', v) :: delitem k r
  end.

(** In-place mutation of the object [d[k]]. *)
Fixpoint alter (f : V -> V) (k : Z) (d : t) : t :=
  match d with
  | [] => []
  | (k', v) :: r => if k =? k' then (k', f v) :: r else (k', v) :: alter f k r
  end.

Definition keys (d : t) : list Z := map fst d.

(** The representation invariant: keys strictly ascending. *)
Fixpoint sorted_from (lo : Z) (ks : list Z) : bool :=
  match ks with
  | [] => true
  | k :: r => (lo <? k) && sorted_from k r
  end.

Definition sorted (d : t) : bool :=
  match keys d with
  | [] => true
  | k :: r => sorted_from k r
  end.
End Ops.
Arguments t : clear implicits.
End SortedDict.

(** ** Data model *)

(** A resting order, the dict [{"order_id": ..., "quantity": ...}]. *)
Record RestingOrder := mkResting {
  ro_order_id : string;
  ro_quantity : Z
}.

Definition deque := list RestingOrder.

(** [{'bids': SortedDict(), 'asks': SortedDict()}] *)
Record Book := mkBook {
  bids : SortedDict.t deque;
  asks : SortedDict.t deque
}.

Record OrderIn := mkOrderIn {
  oi_symbol : string;
  oi_order_type : string;
  oi_side : string;
  oi_quantity : Z;
  oi_price : option Z
}.

Record CancelOrder := mkCancelOrder {
  co_order_id : string
}.

Record User := mkUser {
  username : string;
  hashed_password : string
}.

(** A document of the [orders] collection. *)
Record OrderDoc := mkOrderDoc {
  doc_order_id : string;
  doc_symbol : string;
  doc_user : string;
  doc_side : string;
  doc_type : string;
  doc_quantity : Z;
  doc_price : option Z;
  doc_timestamp : string;
  doc_status : string
}.

(** A trade, also a document of the [trades] collection. *)
Record Trade := mkTrade {
  trade_id : string;
  tr_symbol : string;
  tr_price : Z;
  tr_quantity : Z;
  maker_order_id : string;
  taker_order_id : string;
  aggressor_side : string;
  tr_timestamp : string
}.

(** The state of the process: the in-memory books, the two collections and
    the trade events handed to [broadcast_trade]. *)
Record State := mkState {
  order_books : gmap string Book;
  orders_collection : list OrderDoc;
  trades_collection : list Trade;
  broadcasts : list Trade
}.

Definition initial_state : State :=
  {| order_books := ∅; orders_collection := []; trades_collection := [];
     broadcasts := [] |}.

(** What a request draws from outside: identifiers and clock readings. The
    n-th trade of a submission takes [uuid_trade n] and [utcnow_trade n]. *)
Record Env := mkEnv {
  uuid_order : string;
  utcnow_order : string;
  uuid_trade : nat -> string;
  utcnow_trade : nat -> string
}.

(** Values of a response dict. *)
Inductive Value :=
| VStr (s : string)
| VBool (b : bool)
| VTrades (l : list Trade).

Definition Response := list (string * Value).

Inductive Exn :=
| HTTPException (status_code : Z) (detail : string)
| IndexError
| KeyError.

Inductive Result :=
| Returned (r : Response)
| Raised (e : Exn).

(** The [await]s of the two requests. *)
Inductive AwaitPoint :=
| AwInsertOrder
| AwFokCancel
| AwInsertTrade
| AwBroadcast
| AwUpdateMaker
| AwFinalize
| AwFindOrder
| AwCancelUpdate.

Definition Suspension := (AwaitPoint * State)%type.

Record Outcome := mkOutcome {
  out_state : State;
  out_result : Result;
  out_awaits : list Suspension
}.

(** ** State updates *)

Definition set_books (m : gmap string Book) (st : State) : State :=
  {| order_books := m; orders_collection := orders_collection st;
     trades_collection := trades_collection st; broadcasts := broadcasts st |}.

Definition set_orders (c : list OrderDoc) (st : State) : State :=
  {| order_books := order_books st; orders_collection := c;
     trades_collection := trades_collection st; broadcasts := broadcasts st |}.

Definition set_trades (c : list Trade) (st : State) : State :=
  {| order_books := order_books st; orders_collection := orders_collection st;
     trades_collection := c; broadcasts := broadcasts st |}.

Definition set_broadcasts (c : list Trade) (st : State) : State :=
  {| order_books := order_books st; orders_collection := orders_collection st;
     trades_collection := trades_collection st; broadcasts := c |}.

(** ** The collections *)

(** [collection.insert_one(doc)] *)
Definition insert_one {A : Type} (doc : A) (coll : list A) : list A :=
  coll ++ [doc].

(** [orders_collection.find_one({"order_id": oid})] *)
Fixpoint find_one (oid : string) (coll : list OrderDoc) : option OrderDoc :=
  match coll with
  | [] => None
  | d :: r => if String.eqb (doc_order_id d) oid then Some d else find_one oid r
  end.

(** [orders_collection.update_one({"order_id": oid}, {"$set": ...})] *)
Fixpoint update_one (oid : string) (f : OrderDoc -> OrderDoc)
    (coll : list OrderDoc) : list OrderDoc :=
  match coll with
  | [] => []
  | d :: r =>
      if String.eqb (doc_order_id d) oid then f d :: r
      else d :: update_one oid f r
  end.

(** [{"$set": {"status": s}}] *)
Definition set_status (s : string) (d : OrderDoc) : OrderDoc :=
  {| doc_order_id := doc_order_id d; doc_symbol := doc_symbol d;
     doc_user := doc_user d; doc_side := doc_side d; doc_type := doc_type d;
     doc_quantity := doc_quantity d; doc_price := doc_price d;
     doc_timestamp := doc_timestamp d; doc_status := s |}.

(** [{"$set": {"quantity": q, "status": s}}] *)
Definition set_quantity_status (q : Z) (s : string) (d : OrderDoc) : OrderDoc :=
  {| doc_order_id := doc_order_id d; doc_symbol := doc_symbol d;
     doc_user := doc_user d; doc_side := doc_side d; doc_type := doc_type d;
     doc_quantity := q; doc_price := doc_price d;
     doc_timestamp := doc_timestamp d; doc_status := s |}.

Definition db_update (oid : string) (f : OrderDoc -> OrderDoc) (st : State) : State :=
  set_orders (update_one oid f (orders_collection st)) st.

(** ** Authentication *)

Definition fake_users_db : gmap string User :=
  {[ "alice" := {| username := "alice"; hashed_password := "secret" |} ]}.

Definition get_current_user (token : string) : Exn + User :=
  match fake_users_db !! token with
  | Some user => inr user
  | None => inl (HTTPException 401 "Invalid authentication credentials")
  end.

Definition login (form_username form_password : string) : Exn + Response :=
  match fake_users_db !! form_username with
  | Some user =>
      if String.eqb (hashed_password user) form_password
      then inr [("access_token", VStr (username user)); ("token_type", VStr "bearer")]
      else inl (HTTPException 400 "Incorrect username or password")
  | None => inl (HTTPException 400 "Incorrect username or password")
  end.

(** ** Order books *)

Definition empty_book : Book :=
  {| bids := SortedDict.empty; asks := SortedDict.empty |}.

(** The book object stored under [key]. *)
Definition book_at (key : string) (st : State) : Book :=
  default empty_book (order_books st !! key).

(** The effect, on the state, of a mutation of the book object under [key]. *)
Definition put_book (key : string) (b : Book) (st : State) : State :=
  set_books (<[key := b]> (order_books st)) st.

Definition get_order_book (symbol : string) (st : State) : State * Book :=
  let sym := upper symbol in
  match order_books st !! sym with
  | Some b => (st, b)
  | None => (put_book sym empty_book st, empty_book)
  end.

Definition get_best_price (bids asks : SortedDict.t deque) : option Z * option Z :=
  let best_bid := fst <$> SortedDict.peekitem_last bids in
  let best_ask := fst <$> SortedDict.peekitem_first asks in
  (best_bid, best_ask).

(** [sum(o['quantity'] for o in queue)] *)
Definition sum_quantity (queue : deque) : Z :=
  fold_left (fun acc o => acc + ro_quantity o) queue 0.

(** ** submit_order *)

(** The locals of [submit_order] that stay fixed after validation. *)
Record Locals := mkLocals {
  lc_symbol : string;
  lc_side : string;
  lc_typ : string;
  lc_price : option Z;
  lc_order_id : string
}.

(** The pre-check of a FOK order: the quantity resting at marketable levels
    of the opposite side. *)
Definition fok_available (side : string) (price : option Z) (book : Book) : Z :=
  if String.eqb side "buy" then
    fold_left
      (fun available '(ask_price, queue) =>
         if match price with None => true | Some p => ask_price <=? p end
         then available + sum_quantity queue else available)
      (SortedDict.items (asks book)) 0
  else
    fold_left
      (fun available '(bid_price, queue) =>
         if match price with None => true | Some p => bid_price >=? p end
         then available + sum_quantity queue else available)
      (SortedDict.items (bids book)) 0.

(** The state of the matching loop: the engine, the locals the loop assigns
    and the suspensions so far. [lp_match_price] is [None] as long as
    ['match_price' in locals()] is false. *)
Record Loop := mkLoop {
  lp_st : State;
  lp_remaining : Z;
  lp_trades : list Trade;
  lp_match_price : option Z;
  lp_awaits : list Suspension
}.

Inductive LoopCtl :=
| LBreak (lp : Loop)
| LContinue (lp : Loop)
| LRaise (e : Exn) (lp : Loop).

(** Lines 161-171: the level to match against, [None] for [break]. The
    queue is [None] when the subscript raises. *)
Definition select_level (side : string) (price : option Z) (book : Book)
    : option (Z * option deque) :=
  let '(best_bid, best_ask) := get_best_price (bids book) (asks book) in
  if String.eqb side "buy" then
    match best_ask with
    | None => None
    | Some best_ask =>
        if match price with None => false | Some p => best_ask >? p end
        then None
        else Some (best_ask, SortedDict.getitem best_ask (asks book))
    end
  else
    match best_bid with
    | None => None
    | Some best_bid =>
        if match price with None => false | Some p => best_bid <? p end
        then None
        else Some (best_bid, SortedDict.getitem best_bid (bids book))
    end.

(** A mutation of the sorted dictionary opposite to [side]. *)
Definition on_opposite (side : string)
    (f : SortedDict.t deque -> SortedDict.t deque) (book : Book) : Book :=
  if String.eqb side "buy"
  then {| bids := bids book; asks := f (asks book) |}
  else {| bids := f (bids book); asks := asks book |}.

(** A mutation of the sorted dictionary of [side]. *)
Definition on_own (side : string)
    (f : SortedDict.t deque -> SortedDict.t deque) (book : Book) : Book :=
  if String.eqb side "buy"
  then {| bids := f (bids book); asks := asks book |}
  else {| bids := bids book; asks := f (asks book) |}.

Definition opposite (side : string) (book : Book) : SortedDict.t deque :=
  if String.eqb side "buy" then asks book else bids book.

Definition own (side : string) (book : Book) : SortedDict.t deque :=
  if String.eqb side "buy" then bids book else asks book.

(** [queue[0]['quantity'] = q] *)
Definition set_head_quantity (q : Z) (queue : deque) : deque :=
  match queue with
  | [] => []
  | o :: r => {| ro_order_id := ro_order_id o; ro_quantity := q |} :: r
  end.

(** [queue.popleft()] *)
Definition popleft (queue : deque) : deque := tl queue.

Definition suspend (p : AwaitPoint) (st : State) (l : list Suspension)
    : list Suspension :=
  l ++ [(p, st)].

(** One turn of the matching loop, lines 161-211. *)
Definition loop_body (env : Env) (lc : Locals) (lp : Loop) : LoopCtl :=
  let key := upper (lc_symbol lc) in
  let side := lc_side lc in
  let st := lp_st lp in
  match select_level side (lc_price lc) (book_at key st) with
  | None => LBreak lp
  | Some (match_price, None) =>
      LRaise KeyError
        (mkLoop st (lp_remaining lp) (lp_trades lp) (Some match_price) (lp_awaits lp))
  | Some (match_price, Some []) =>
      LRaise IndexError
        (mkLoop st (lp_remaining lp) (lp_trades lp) (Some match_price) (lp_awaits lp))
  | Some (match_price, Some (maker_order :: _)) =>
      let trade_qty := Z.min (lp_remaining lp) (ro_quantity maker_order) in
      let maker_quantity := ro_quantity maker_order - trade_qty in
      let st :=
        put_book key
          (on_opposite side
             (SortedDict.alter (set_head_quantity maker_quantity) match_price)
             (book_at key st)) st in
      let remaining := lp_remaining lp - trade_qty in
      let n := length (lp_trades lp) in
      let trade :=
        {| trade_id := "TRADE-" +:+ uuid_trade env n;
           tr_symbol := lc_symbol lc;
           tr_price := match_price;
           tr_quantity := trade_qty;
           maker_order_id := ro_order_id maker_order;
           taker_order_id := lc_order_id lc;
           aggressor_side := side;
           tr_timestamp := utcnow_trade env n |} in
      let trades_executed := lp_trades lp ++ [trade] in
      let aw := suspend AwInsertTrade st (lp_awaits lp) in
      let st := set_trades (insert_one trade (trades_collection st)) st in
      let aw := suspend AwBroadcast st aw in
      let st := set_broadcasts (broadcasts st ++ [trade]) st in
      let st :=
        if maker_quantity =? 0
        then put_book key
               (on_opposite side (SortedDict.alter popleft match_price)
                  (book_at key st)) st
        else st in
      let aw := suspend AwUpdateMaker st aw in
      let st :=
        if maker_quantity =? 0
        then db_update (ro_order_id maker_order) (set_status "filled") st
        else db_update (ro_order_id maker_order)
               (set_quantity_status maker_quantity "partial") st in
      let st :=
        match SortedDict.getitem match_price (opposite side (book_at key st)) with
        | Some [] =>
            put_book key
              (on_opposite side (SortedDict.delitem match_price) (book_at key st)) st
        | _ => st
        end in
      let lp' := mkLoop st remaining trades_executed (Some match_price) aw in
      if String.eqb (lc_typ lc) "ioc" then LBreak lp' else LContinue lp'
  end.

(** [while remaining > 0: ...]; [fuel] bounds the number of turns, [None]
    when it does not suffice. The second component is the exception that
    ended the loop, if any. *)
Fixpoint match_loop (fuel : nat) (env : Env) (lc : Locals) (lp : Loop)
    : option (Loop * option Exn) :=
  if lp_remaining lp >? 0 then
    match fuel with
    | O => None
    | S fuel =>
        match loop_body env lc lp with
        | LBreak lp' => Some (lp', None)
        | LRaise e lp' => Some (lp', Some e)
        | LContinue lp' => match_loop fuel env lc lp'
        end
    end
  else Some (lp, None).

(** The number of orders resting in a sorted dictionary. *)
Definition resting_count (d : SortedDict.t deque) : nat :=
  length (concat (map snd d)).

(** The loop run to its end: every turn that continues with [remaining > 0]
    has removed a maker, so one turn more than the opposite side has makers
    suffices (lemma [match_loop_fuel]). *)
Definition run_match_loop (env : Env) (lc : Locals) (lp : Loop)
    : Loop * option Exn :=
  let fuel := S (resting_count
                   (opposite (lc_side lc) (book_at (upper (lc_symbol lc)) (lp_st lp)))) in
  match match_loop fuel env lc lp with
  | Some r => r
  | None => (lp, None)
  end.

(** Lines 213-234: what happens to the unfilled part. *)
Definition handle_remaining (lc : Locals) (lp : Loop) : State * list Suspension :=
  let key := upper (lc_symbol lc) in
  let st := lp_st lp in
  let order_id := lc_order_id lc in
  if lp_remaining lp >? 0 then
    if String.eqb (lc_typ lc) "limit" then
      let resting_price :=
        match lc_price lc with
        | Some p => Some p
        | None => lp_match_price lp
        end in
      match resting_price with
      | None =>
          (db_update order_id (set_status "cancelled") st,
           suspend AwFinalize st (lp_awaits lp))
      | Some resting_price =>
          let add (side_book : SortedDict.t deque) :=
            let side_book :=
              if SortedDict.contains resting_price side_book then side_book
              else SortedDict.setitem resting_price [] side_book in
            SortedDict.alter
              (fun q => q ++ [{| ro_order_id := order_id;
                                 ro_quantity := lp_remaining lp |}])
              resting_price side_book in
          let st := put_book key (on_own (lc_side lc) add (book_at key st)) st in
          (db_update order_id (set_quantity_status (lp_remaining lp) "open") st,
           suspend AwFinalize st (lp_awaits lp))
      end
    else
      (db_update order_id (set_status "cancelled") st,
       suspend AwFinalize st (lp_awaits lp))
  else
    (db_update order_id (set_status "filled") st,
     suspend AwFinalize st (lp_awaits lp)).

Definition priced_type (typ : string) : bool :=
  existsb (String.eqb typ) ["limit"; "ioc"; "fok"].

(** [price is None] *)
Definition price_is_none (price : option Z) : bool :=
  match price with None => true | Some _ => false end.

Definition submit_order (env : Env) (order : OrderIn) (user : User) (st : State)
    : Outcome :=
  let symbol := upper (oi_symbol order) in
  let side := lower (oi_side order) in
  let typ := lower (oi_order_type order) in
  let qty := oi_quantity order in
  if qty <=? 0 then
    mkOutcome st (Raised (HTTPException 400 "Quantity must be positive")) []
  else if priced_type typ && price_is_none (oi_price order) then
    mkOutcome st (Raised (HTTPException 400 "Limit orders require a price")) []
  else
    let price := if priced_type typ then oi_price order else None in
    let order_id := "ORDER-" +:+ uuid_order env in
    let timestamp := utcnow_order env in
    let aw := suspend AwInsertOrder st [] in
    let st :=
      set_orders
        (insert_one
           {| doc_order_id := order_id; doc_symbol := symbol;
              doc_user := username user; doc_side := side; doc_type := typ;
              doc_quantity := qty; doc_price := price;
              doc_timestamp := timestamp; doc_status := "open" |}
           (orders_collection st)) st in
    let '(st, book) := get_order_book symbol st in
    let lc := mkLocals symbol side typ price order_id in
    if String.eqb typ "fok" && (fok_available side price book <? qty) then
      mkOutcome (db_update order_id (set_status "cancelled") st)
        (Returned [("order_id", VStr order_id); ("status", VStr "cancelled");
                   ("filled", VBool false)])
        (suspend AwFokCancel st aw)
    else
      let '(lp, exn) := run_match_loop env lc (mkLoop st qty [] None aw) in
      match exn with
      | Some e => mkOutcome (lp_st lp) (Raised e) (lp_awaits lp)
      | None =>
          let '(st, aw) := handle_remaining lc lp in
          mkOutcome st
            (Returned [("order_id", VStr order_id);
                       ("trades", VTrades (lp_trades lp))])
            aw
      end.

(** ** cancel_order *)

Definition resting_eqb (a b : RestingOrder) : bool :=
  String.eqb (ro_order_id a) (ro_order_id b) && (ro_quantity a =? ro_quantity b).

(** [queue.remove(o)]: the first element equal to [o] goes. *)
Fixpoint deque_remove (o : RestingOrder) (queue : deque) : deque :=
  match queue with
  | [] => []
  | x :: r => if resting_eqb x o then r else x :: deque_remove o r
  end.

(** Lines 256-259: the first order of the queue with this identifier goes. *)
Definition remove_order (order_id : string) (queue : deque) : deque :=
  match List.find (fun o => String.eqb (ro_order_id o) order_id) queue with
  | Some o => deque_remove o queue
  | None => queue
  end.

Definition cancel_order (cancel : CancelOrder) (user : User) (st : State)
    : Outcome :=
  let order_id := co_order_id cancel in
  let aw := suspend AwFindOrder st [] in
  match find_one order_id (orders_collection st) with
  | None => mkOutcome st (Raised (HTTPException 404 "Order not found")) aw
  | Some db_order =>
      if existsb (String.eqb (doc_status db_order)) ["filled"; "cancelled"] then
        mkOutcome st (Raised (HTTPException 400 "Order already finalized")) aw
      else
        let symbol := doc_symbol db_order in
        let side := doc_side db_order in
        let price := doc_price db_order in
        let '(st, book) := get_order_book symbol st in
        let key := upper symbol in
        let st :=
          match price with
          | None => st
          | Some price =>
              if SortedDict.contains price (own side book) then
                let st :=
                  put_book key
                    (on_own side (SortedDict.alter (remove_order order_id) price)
                       (book_at key st)) st in
                match SortedDict.getitem price (own side (book_at key st)) with
                | Some [] =>
                    put_book key
                      (on_own side (SortedDict.delitem price) (book_at key st)) st
                | _ => st
                end
              else st
          end in
        mkOutcome (db_update order_id (set_status "cancelled") st)
          (Returned [("order_id", VStr order_id); ("status", VStr "cancelled")])
          (suspend AwCancelUpdate st aw)
  end.

(** The two routes, with their [Depends(get_current_user)]. *)
Definition post_submit_order (token : string) (env : Env) (order : OrderIn)
    (st : State) : Outcome :=
  match get_current_user token with
  | inl e => mkOutcome st (Raised e) []
  | inr user => submit_order env order user st
  end.

Definition post_cancel_order (token : string) (cancel : CancelOrder)
    (st : State) : Outcome :=
  match get_current_user token with
  | inl e => mkOutcome st (Raised e) []
  | inr user => cancel_order cancel user st
  end.

(** ** Notions used to state the properties *)

(** The levels of the side opposite to [side], best price first. *)
Definition priority (side : string) (book : Book) : list (Z * deque) :=
  if String.eqb side "buy" then asks book else rev (bids book).

(** A level at price [p] can be matched by an order of [side] limited to
    [price]. *)
Definition marketable (side : string) (price : option Z) (p : Z) : bool :=
  match price with
  | None => true
  | Some l => if String.eqb side "buy" then p <=? l else p >=? l
  end.

(** A sum over the levels of a sorted dictionary. *)
Definition total (g : Z -> deque -> Z) (d : SortedDict.t deque) : Z :=
  fold_right (fun '(k, q) acc => g k q + acc) 0 d.

(** The queue a turn of the loop leaves at the matched level: the head
    loses [trade_qty] and goes when nothing is left of it. *)
Definition queue_after (remaining : Z) (queue : deque) : deque :=
  match queue with
  | [] => []
  | m :: r =>
      let q := ro_quantity m - Z.min remaining (ro_quantity m) in
      if q =? 0 then r else {| ro_order_id := ro_order_id m; ro_quantity := q |} :: r
  end.

(** The dictionary after the level at [k] became [queue]: an empty level is
    deleted. *)
Definition level_becomes (k : Z) (queue : deque) (d : SortedDict.t deque)
    : SortedDict.t deque :=
  match queue with
  | [] => SortedDict.delitem k d
  | _ => SortedDict.alter (fun _ => queue) k d
  end.

(** The trade recorded by a turn of the loop, lines 179-189. *)
Definition trade_of (env : Env) (lc : Locals) (n : nat) (match_price trade_qty : Z)
    (maker_order : RestingOrder) : Trade :=
  {| trade_id := "TRADE-" +:+ uuid_trade env n;
     tr_symbol := lc_symbol lc;
     tr_price := match_price;
     tr_quantity := trade_qty;
     maker_order_id := ro_order_id maker_order;
     taker_order_id := lc_order_id lc;
     aggressor_side := lc_side lc;
     tr_timestamp := utcnow_trade env n |}.

(** The update of the maker's document by a turn that leaves it [q]. *)
Definition maker_update (q : Z) : OrderDoc -> OrderDoc :=
  if q =? 0 then set_status "filled" else set_quantity_status q "partial".

(** The state a turn of the loop leads to when it matches the maker [m] at
    the head of the queue [m :: r] of the level at [p]. *)
Definition state_after_match (env : Env) (lc : Locals) (lp : Loop) (p : Z)
    (m : RestingOrder) (r : deque) : State :=
  let st := lp_st lp in
  let key := upper (lc_symbol lc) in
  let tq := Z.min (lp_remaining lp) (ro_quantity m) in
  let trade := trade_of env lc (length (lp_trades lp)) p tq m in
  {| order_books :=
       <[key := on_opposite (lc_side lc)
                  (level_becomes p (queue_after (lp_remaining lp) (m :: r)))
                  (book_at key st)]> (order_books st);
     orders_collection :=
       update_one (ro_order_id m) (maker_update (ro_quantity m - tq))
         (orders_collection st);
     trades_collection := trades_collection st ++ [trade];
     broadcasts := broadcasts st ++ [trade] |}.


(** ** Well-formed books and reachable states *)

(** A level holds at least one order and every resting quantity is positive. *)
Definition level_ok (lv : Z * deque) : Prop :=
  snd lv <> [] /\ Forall (fun o => 0 < ro_quantity o) (snd lv).

Definition dict_ok (d : SortedDict.t deque) : Prop :=
  SortedDict.sorted d = true /\ Forall level_ok d.

Definition book_ok (b : Book) : Prop := dict_ok (bids b) /\ dict_ok (asks b).

(** Every bid price is below every ask price. *)
Definition all_below (b : Book) : Prop :=
  forall pb pa,
    In pb (SortedDict.keys (bids b)) -> In pa (SortedDict.keys (asks b)) -> pb < pa.

(** The best bid is below the best ask when both sides hold orders. *)
Definition uncrossed (b : Book) : Prop :=
  forall best_bid best_ask,
    get_best_price (bids b) (asks b) = (Some best_bid, Some best_ask) ->
    best_bid < best_ask.

Definition state_ok (st : State) : Prop :=
  forall key, book_ok (book_at key st) /\ all_below (book_at key st).

(** The states the engine goes through, one request after the other. *)
Inductive reachable : State -> Prop :=
| reach_init : reachable initial_state
| reach_submit st env order user :
    reachable st -> reachable (out_state (submit_order env order user st))
| reach_cancel st cancel user :
    reachable st -> reachable (out_state (cancel_order cancel user st)).

(** ** Concrete scenarios

    Quantities are in tenths: 10 stands for 1.0. *)

Definition alice : User := {| username := "alice"; hashed_password := "secret" |}.

Definition bob : User := {| username := "bob"; hashed_password := "hunter2" |}.

(** The draws of the request named [n]. *)
Definition env_of (n : string) : Env :=
  {| uuid_order := n; utcnow_order := "2024-01-01T00:00:00";
     uuid_trade := fun k => String.append n (String.append "-" (String (ascii_of_nat (48 + k)) EmptyString));
     utcnow_trade := fun _ => "2024-01-01T00:00:01" |}.

Definition order_of (typ side : string) (quantity : Z) (price : option Z) : OrderIn :=
  {| oi_symbol := "btc-usd"; oi_order_type := typ; oi_side := side;
     oi_quantity := quantity; oi_price := price |}.

Definition submit (n typ side : string) (quantity : Z) (price : option Z)
    (st : State) : Outcome :=
  submit_order (env_of n) (order_of typ side quantity price) alice st.

(** A resting ask of 1.0 at 100 and a resting bid of 1.0 at 99. *)
Definition two_sided : State :=
  out_state (submit "X" "limit" "buy" 10 (Some 99)
    (out_state (submit "A" "limit" "sell" 10 (Some 100) initial_state))).

(** Two resting asks of 1.0 at 100, A before B. *)
Definition two_asks : State :=
  out_state (submit "B" "limit" "sell" 10 (Some 100)
    (out_state (submit "A" "limit" "sell" 10 (Some 100) initial_state))).

(** ** The accepted submission, step by step *)

(** The order passes validation, lines 116-123. *)
Definition accepted (order : OrderIn) : Prop :=
  0 < oi_quantity order /\
  (priced_type (lower (oi_order_type order)) = true -> oi_price order <> None).

(** The price the engine works with, line 121 or 123. *)
Definition working_price (order : OrderIn) : option Z :=
  if priced_type (lower (oi_order_type order)) then oi_price order else None.

Definition submit_locals (env : Env) (order : OrderIn) : Locals :=
  {| lc_symbol := upper (oi_symbol order);
     lc_side := lower (oi_side order);
     lc_typ := lower (oi_order_type order);
     lc_price := working_price order;
     lc_order_id := "ORDER-" +:+ uuid_order env |}.

(** The document inserted at line 128. *)
Definition new_order_doc (env : Env) (order : OrderIn) (user : User) : OrderDoc :=
  {| doc_order_id := "ORDER-" +:+ uuid_order env;
     doc_symbol := upper (oi_symbol order);
     doc_user := username user;
     doc_side := lower (oi_side order);
     doc_type := lower (oi_order_type order);
     doc_quantity := oi_quantity order;
     doc_price := working_price order;
     doc_timestamp := utcnow_order env;
     doc_status := "open" |}.

(** The state when matching starts, after lines 128-133. *)
Definition submit_start (env : Env) (order : OrderIn) (user : User) (st : State)
    : State :=
  fst (get_order_book (upper (oi_symbol order))
         (set_orders
            (insert_one (new_order_doc env order user) (orders_collection st)) st)).

Definition submit_loop (env : Env) (order : OrderIn) (user : User) (st : State)
    : Loop :=
  {| lp_st := submit_start env order user st;
     lp_remaining := oi_quantity order;
     lp_trades := [];
     lp_match_price := None;
     lp_awaits := suspend AwInsertOrder st [] |}.

(** The book a submission of [order] works on. *)
Definition book_for (order : OrderIn) (st : State) : Book :=
  book_at (upper (oi_symbol order)) st.

(** ** Price-time priority *)

(** The resting orders of some levels, each with the price of its level, in
    the order of the levels and, within a level, of its queue. *)
Definition makers (levels : list (Z * deque)) : list (Z * RestingOrder) :=
  flat_map (fun '(p, q) => map (pair p) q) levels.

(** The price of a trade and the maker it takes, with the quantity taken. *)
Definition trade_maker (t : Trade) : Z * RestingOrder :=
  (tr_price t, {| ro_order_id := maker_order_id t; ro_quantity := tr_quantity t |}).

(** The trades [ts] take the makers [F] one after the other from the
    front, each of them whole, except that the last trade may take a part
    of its maker only. *)
Definition follows (F : list (Z * RestingOrder)) (ts : list Trade) : Prop :=
  (exists sfx, F = map trade_maker ts ++ sfx) \/
  (exists ts' t m sfx,
     ts = ts' ++ [t] /\
     F = map trade_maker ts' ++ (tr_price t, m) :: sfx /\
     maker_order_id t = ro_order_id m /\
     tr_quantity t < ro_quantity m).

(** A resting ask of 1.0 at 100. *)
Definition one_ask : State :=
  out_state (submit "A" "limit" "sell" 10 (Some 100) initial_state).

Definition trade_T (k : nat) (price quantity : Z) (maker : string) : Trade :=
  {| trade_id := uuid_trade (env_of "TRADE-T") k; tr_symbol := "BTC-USD";
     tr_price := price; tr_quantity := quantity;
     maker_order_id := maker; taker_order_id := "ORDER-T";
     aggressor_side := "buy"; tr_timestamp := "2024-01-01T00:00:01" |}.

(** ** Quantities *)

(** The quantity resting at the levels of the opposite side that an order
    of [side] limited to [price] can be matched with. *)
Definition marketable_quantity (side : string) (price : option Z) (book : Book) : Z :=
  total (fun p q => if marketable side price p then sum_quantity q else 0)
    (opposite side book).

(** The quantity of some trades. *)
Definition traded_quantity (ts : list Trade) : Z :=
  fold_right (fun t acc => tr_quantity t + acc) 0 ts.

(** The status the [orders] collection holds for an identifier. *)
Definition order_status (oid : string) (st : State) : option string :=
  doc_status <$> find_one oid (orders_collection st).

Definition no_empty_level (d : SortedDict.t deque) : Prop :=
  Forall (fun lv => snd lv <> []) d.

(** A resting bid of 1.0 at 99, the order X of alice. *)
Definition one_bid : State :=
  out_state (submit "X" "limit" "buy" 10 (Some 99) initial_state).

(** ** The fields of a response *)

(** [resp.get(key)] *)
Fixpoint field (key : string) (resp : Response) : option Value :=
  match resp with
  | [] => None
  | (k, v) :: r => if String.eqb k key then Some v else field key r
  end.

(** A response with the three fields of the submit contract: the order
    identifier, the list of trades and a final status among filled,
    partial, open and cancelled. *)
Definition submission_result (resp : Response) : Prop :=
  (exists oid, field "order_id" resp = Some (VStr oid)) /\
  (exists trades, field "trades" resp = Some (VTrades trades)) /\
  (exists s, field "status" resp = Some (VStr s) /\
             In s ["filled"; "partial"; "open"; "cancelled"]).

(** ** Suspensions *)



(** ** Requests and the quantities of an order *)

Inductive Request :=
| Submit (env : Env) (order : OrderIn) (user : User)
| Cancel (cancel : CancelOrder) (user : User).

Definition serve (r : Request) (st : State) : State :=
  match r with
  | Submit env order user => out_state (submit_order env order user st)
  | Cancel cancel user => out_state (cancel_order cancel user st)
  end.

(** The requests served one after the other. *)
Definition run (reqs : list Request) (st : State) : State :=
  fold_left (fun st r => serve r st) reqs st.

(** Validation, lines 116-120, as a test. *)
Definition acceptedb (order : OrderIn) : bool :=
  (0 <? oi_quantity order) &&
  negb (priced_type (lower (oi_order_type order)) && price_is_none (oi_price order)).






(** The quantity traded with the order [x] as the maker, as the taker. *)
Definition maker_quantity (x : string) (ts : list Trade) : Z :=
  fold_right
    (fun t acc => (if String.eqb (maker_order_id t) x then tr_quantity t else 0) + acc)
    0 ts.








(** Scenario 1: A and B rest at 100, then a market buy of 1.5. *)
Definition scenario_1 : list Request :=
  [Submit (env_of "A") (order_of "limit" "sell" 10 (Some 100)) alice;
   Submit (env_of "B") (order_of "limit" "sell" 10 (Some 100)) alice;
   Submit (env_of "T") (order_of "market" "buy" 15 None) bob].

(** ** The orders collection as the index of the books *)

Definition ids (q : deque) : list string := map ro_order_id q.

Definition side_dict (bid_side : bool) (b : Book) : SortedDict.t deque :=
  if bid_side then bids b else asks b.

(** The queue at price [p] on the bid or the ask side of the book under
    [key], empty when there is no such level. *)
Definition queue_at (key : string) (bid_side : bool) (p : Z) (st : State) : deque :=
  default [] (SortedDict.getitem p (side_dict bid_side (book_at key st))).

(** A status that [cancel_order] accepts. *)
Definition live (status : string) : Prop :=
  status <> "filled" /\ status <> "cancelled".

(** Where [cancel_order] looks for the order of a document. *)
Definition doc_locates (d : OrderDoc) (key : string) (bid_side : bool) (p : Z) : Prop :=
  upper (doc_symbol d) = key /\
  String.eqb (doc_side d) "buy" = bid_side /\
  doc_price d = Some p.

(** Every resting order rests where its document says, its document is
    live, and no queue holds an identifier twice. *)
Definition indexed (st : State) : Prop :=
  (forall x key bs p,
     In x (ids (queue_at key bs p st)) ->
     exists d,
       find_one x (orders_collection st) = Some d /\
       live (doc_status d) /\ doc_locates d key bs p) /\
  (forall key bs p, List.NoDup (ids (queue_at key bs p st))).

(** The states reached when every submission draws an identifier that the
    orders collection does not hold yet. *)
Inductive reachable_fresh : State -> Prop :=
| fresh_init : reachable_fresh initial_state
| fresh_submit st env order user :
    reachable_fresh st ->
    find_one ("ORDER-" +:+ uuid_order env) (orders_collection st) = None ->
    reachable_fresh (out_state (submit_order env order user st))
| fresh_cancel st cancel user :
    reachable_fresh st ->
    reachable_fresh (out_state (cancel_order cancel user st)).

(** The invariant of the loop for the index: the books are indexed, the
    taker has its document and does not rest. *)
Definition indexed_loop (lc : Locals) (lp : Loop) : Prop :=
  indexed (lp_st lp) /\
  (exists d0,
     find_one (lc_order_id lc) (orders_collection (lp_st lp)) = Some d0 /\
     doc_symbol d0 = lc_symbol lc /\ doc_side d0 = lc_side lc /\
     doc_price d0 = lc_price lc) /\
  (forall key bs p, ~ In (lc_order_id lc) (ids (queue_at key bs p (lp_st lp)))).

(** The level [(key, bs, p)] is the level [(key', bs', p')]. *)
Definition at_loc (key : string) (bs : bool) (p : Z) (key' : string) (bs' : bool)
    (p' : Z) : bool :=
  bool_decide (key = key') && Bool.eqb bs bs' && (p =? p').

(** Every order whose document is live rests at the level its document
    says, but for the order being submitted, if any. *)
Definition live_rest (except : option string) (st : State) : Prop :=
  forall x d,
    find_one x (orders_collection st) = Some d ->
    live (doc_status d) ->
    Some x <> except ->
    exists p,
      doc_price d = Some p /\
      In x (ids (queue_at (upper (doc_symbol d)) (String.eqb (doc_side d) "buy") p st)).

(** ** The subscribers of the trade events

    [trade_subscribers] is the list of the open WebSocket connections, a
    connection being named by a number. [broadcast_trade] is run here
    without another coroutine changing the list while a send is awaited. *)

Definition WebSocket := nat.

(** [trade_subscribers.remove(ws)]: the first occurrence goes, [None] for
    the [ValueError] raised when there is none. *)
Fixpoint subscribers_remove (ws : WebSocket) (subs : list WebSocket)
    : option (list WebSocket) :=
  match subs with
  | [] => None
  | x :: r =>
      if Nat.eqb x ws then Some r else cons x <$> subscribers_remove ws r
  end.

(** Lines 88-92, the loop over the copy [list(trade_subscribers)]:
    [send_ok ws] tells whether [ws.send_json] returns, a connection whose
    send raises is removed. The result is the list of subscribers and the
    events sent, [None] when [remove] raises. *)
Fixpoint broadcast_loop (send_ok : WebSocket -> bool) (trade_event : Trade)
    (copy subs : list WebSocket) (sent : list (WebSocket * Trade))
    : option (list WebSocket * list (WebSocket * Trade)) :=
  match copy with
  | [] => Some (subs, sent)
  | ws :: rest =>
      if send_ok ws
      then broadcast_loop send_ok trade_event rest subs (sent ++ [(ws, trade_event)])
      else
        match subscribers_remove ws subs with
        | Some subs' => broadcast_loop send_ok trade_event rest subs' sent
        | None => None
        end
  end.

Definition broadcast_trade (send_ok : WebSocket -> bool) (trade_event : Trade)
    (trade_subscribers : list WebSocket)
    : option (list WebSocket * list (WebSocket * Trade)) :=
  broadcast_loop send_ok trade_event trade_subscribers trade_subscribers [].

(** Lines 99-100 of [trades_ws]: the connection is accepted and subscribed. *)
Definition trades_ws_subscribe (websocket : WebSocket) (trade_subscribers : list WebSocket)
    : list WebSocket :=
  trade_subscribers ++ [websocket].

(** ** More notions used to state the properties *)

(** The trades a response lists, none when it has no such field. *)
Definition response_trades (resp : Response) : list Trade :=
  match field "trades" resp with
  | Some (VTrades l) => l
  | _ => []
  end.

(** Two documents of one order: all fields but the quantity and the status
    are the same. *)
Definition same_order (d d' : OrderDoc) : Prop :=
  doc_order_id d' = doc_order_id d /\ doc_symbol d' = doc_symbol d /\
  doc_user d' = doc_user d /\ doc_side d' = doc_side d /\
  doc_type d' = doc_type d /\ doc_price d' = doc_price d /\
  doc_timestamp d' = doc_timestamp d.

(** The entry appended to a queue at line 225 when [residual] is left of a
    submission. *)
Definition residual_order (env : Env) (residual : Z) : RestingOrder :=
  {| ro_order_id := "ORDER-" +:+ uuid_order env; ro_quantity := residual |}.

(** The submission draws an identifier that the orders collection does not
    hold yet. *)
Definition fresh_for (env : Env) (st : State) : Prop :=
  find_one ("ORDER-" +:+ uuid_order env) (orders_collection st) = None.

(** The document of every resting order records the quantity that rests. *)
Definition quantity_recorded (st : State) : Prop :=
  forall key bs p o,
    In o (queue_at key bs p st) ->
    exists d,
      find_one (ro_order_id o) (orders_collection st) = Some d /\
      doc_quantity d = ro_quantity o.

(** The update of the submitted order's document at lines 214-234. *)
Definition final_update (typ : string) (remaining : Z) : OrderDoc -> OrderDoc :=
  if remaining >? 0 then
    if String.eqb typ "limit" then set_quantity_status remaining "open"
    else set_status "cancelled"
  else set_status "filled".


(** The collection [docs'] holds every order of [docs], and as many
    documents. *)
Definition docs_kept (docs docs' : list OrderDoc) : Prop :=
  length docs' = length docs /\
  forall x d,
    find_one x docs = Some d ->
    exists d', find_one x docs' = Some d' /\ same_order d d'.

(** A document with one of the four statuses and a quantity other than
    zero. *)
Definition doc_ok (d : OrderDoc) : Prop :=
  In (doc_status d) ["open"; "partial"; "filled"; "cancelled"] /\ doc_quantity d <> 0.

(** The price of every level stands in the relation [R] to the prices of
    the levels after it. *)
Fixpoint levels_ordered (R : Z -> Z -> Prop) (levels : list (Z * deque)) : Prop :=
  match levels with
  | [] => True
  | (p, _) :: rest => (forall x, In x rest -> R p (fst x)) /\ levels_ordered R rest
  end.

(** The ask A of 1.0 at 100 and the ask B of 1.0 at 101. *)
Definition two_levels : State :=
  out_state (submit "B" "limit" "sell" 10 (Some 101) one_ask).

(** * The same code on binary floating-point numbers

    [OrderIn] declares [quantity: float] and [price: Union[float, None]]:
    the code computes on IEEE 754 binary64 numbers, whose sums and
    differences are rounded. This module repeats the data and
    [submit_order] on the binary64 numbers of the kernel, operation for
    operation; a request runs here to its end, its awaits are not
    recorded. *)

Module Binary64.
Import PrimFloat.

(** Python's [min(a, b)]: [b] when [b < a], and [a] otherwise. *)
Definition min (a b : float) : float := if (b <? a)%float then b else a.

Module SortedDict.
Section Ops.
Context {V : Type}.

Definition t := list (float * V).

Definition empty : t := [].

Definition items (d : t) : list (float * V) := d.

Definition peekitem_first (d : t) : option (float * V) := head d.

Definition peekitem_last (d : t) : option (float * V) := last d.

Fixpoint getitem (k : float) (d : t) : option V :=
  match d with
  | [] => None
  | (k', v) :: r => if (k =? k')%float then Some v else getitem k r
  end.

Definition contains (k : float) (d : t) : bool :=
  match getitem k d with Some _ => true | None => false end.

Fixpoint setitem (k : float) (v : V) (d : t) : t :=
  match d with
  | [] => [(k, v)]
  | (k', v') :: r =>
      if (k <? k')%float then (k, v) :: (k', v') :: r
      else if (k =? k')%float then (k, v) :: r
      else (k', v') :: setitem k v r
  end.

Fixpoint delitem (k : float) (d : t) : t :=
  match d with
  | [] => []
  | (k', v) :: r => if (k =? k')%float then r else (k', v) :: delitem k r
  end.

Fixpoint alter (f : V -> V) (k : float) (d : t) : t :=
  match d with
  | [] => []
  | (k', v) :: r => if (k =? k')%float then (k', f v) :: r else (k', v) :: alter f k r
  end.
End Ops.
Arguments t : clear implicits.
End SortedDict.

Record RestingOrder := mkResting {
  ro_order_id : string;
  ro_quantity : float
}.

Definition deque := list RestingOrder.

Record Book := mkBook {
  bids : SortedDict.t deque;
  asks : SortedDict.t deque
}.

Record OrderIn := mkOrderIn {
  oi_symbol : string;
  oi_order_type : string;
  oi_side : string;
  oi_quantity : float;
  oi_price : option float
}.

Record OrderDoc := mkOrderDoc {
  doc_order_id : string;
  doc_symbol : string;
  doc_user : string;
  doc_side : string;
  doc_type : string;
  doc_quantity : float;
  doc_price : option float;
  doc_timestamp : string;
  doc_status : string
}.

Record Trade := mkTrade {
  trade_id : string;
  tr_symbol : string;
  tr_price : float;
  tr_quantity : float;
  maker_order_id : string;
  taker_order_id : string;
  aggressor_side : string;
  tr_timestamp : string
}.

Record State := mkState {
  order_books : gmap string Book;
  orders_collection : list OrderDoc;
  trades_collection : list Trade;
  broadcasts : list Trade
}.

Definition initial_state : State :=
  {| order_books := ∅; orders_collection := []; trades_collection := [];
     broadcasts := [] |}.

Inductive Value :=
| VStr (s : string)
| VBool (b : bool)
| VTrades (l : list Trade).

Definition Response := list (string * Value).

Inductive Result :=
| Returned (r : Response)
| Raised (e : Exn).

Record Outcome := mkOutcome {
  out_state : State;
  out_result : Result
}.

Definition set_books (m : gmap string Book) (st : State) : State :=
  {| order_books := m; orders_collection := orders_collection st;
     trades_collection := trades_collection st; broadcasts := broadcasts st |}.

Definition set_orders (c : list OrderDoc) (st : State) : State :=
  {| order_books := order_books st; orders_collection := c;
     trades_collection := trades_collection st; broadcasts := broadcasts st |}.

Definition set_trades (c : list Trade) (st : State) : State :=
  {| order_books := order_books st; orders_collection := orders_collection st;
     trades_collection := c; broadcasts := broadcasts st |}.

Definition set_broadcasts (c : list Trade) (st : State) : State :=
  {| order_books := order_books st; orders_collection := orders_collection st;
     trades_collection := trades_collection st; broadcasts := c |}.

Fixpoint find_one (oid : string) (coll : list OrderDoc) : option OrderDoc :=
  match coll with
  | [] => None
  | d :: r => if String.eqb (doc_order_id d) oid then Some d else find_one oid r
  end.

Fixpoint update_one (oid : string) (f : OrderDoc -> OrderDoc)
    (coll : list OrderDoc) : list OrderDoc :=
  match coll with
  | [] => []
  | d :: r =>
      if String.eqb (doc_order_id d) oid then f d :: r
      else d :: update_one oid f r
  end.

Definition set_status (s : string) (d : OrderDoc) : OrderDoc :=
  {| doc_order_id := doc_order_id d; doc_symbol := doc_symbol d;
     doc_user := doc_user d; doc_side := doc_side d; doc_type := doc_type d;
     doc_quantity := doc_quantity d; doc_price := doc_price d;
     doc_timestamp := doc_timestamp d; doc_status := s |}.

Definition set_quantity_status (q : float) (s : string) (d : OrderDoc) : OrderDoc :=
  {| doc_order_id := doc_order_id d; doc_symbol := doc_symbol d;
     doc_user := doc_user d; doc_side := doc_side d; doc_type := doc_type d;
     doc_quantity := q; doc_price := doc_price d;
     doc_timestamp := doc_timestamp d; doc_status := s |}.

Definition db_update (oid : string) (f : OrderDoc -> OrderDoc) (st : State) : State :=
  set_orders (update_one oid f (orders_collection st)) st.

Definition empty_book : Book :=
  {| bids := SortedDict.empty; asks := SortedDict.empty |}.

Definition book_at (key : string) (st : State) : Book :=
  default empty_book (order_books st !! key).

Definition put_book (key : string) (b : Book) (st : State) : State :=
  set_books (<[key := b]> (order_books st)) st.

Definition get_order_book (symbol : string) (st : State) : State * Book :=
  let sym := upper symbol in
  match order_books st !! sym with
  | Some b => (st, b)
  | None => (put_book sym empty_book st, empty_book)
  end.

Definition get_best_price (bids asks : SortedDict.t deque)
    : option float * option float :=
  let best_bid := fst <$> SortedDict.peekitem_last bids in
  let best_ask := fst <$> SortedDict.peekitem_first asks in
  (best_bid, best_ask).

(** [sum(o['quantity'] for o in queue)], from the integer 0 on. *)
Definition sum_quantity (queue : deque) : float :=
  fold_left (fun acc o => (acc + ro_quantity o)%float) queue 0%float.

Record Locals := mkLocals {
  lc_symbol : string;
  lc_side : string;
  lc_typ : string;
  lc_price : option float;
  lc_order_id : string
}.

(** Lines 145-153. *)
Definition fok_available (side : string) (price : option float) (book : Book) : float :=
  if String.eqb side "buy" then
    fold_left
      (fun available '(ask_price, queue) =>
         if match price with None => true | Some p => (ask_price <=? p)%float end
         then (available + sum_quantity queue)%float else available)
      (SortedDict.items (asks book)) 0%float
  else
    fold_left
      (fun available '(bid_price, queue) =>
         if match price with None => true | Some p => (p <=? bid_price)%float end
         then (available + sum_quantity queue)%float else available)
      (SortedDict.items (bids book)) 0%float.

Record Loop := mkLoop {
  lp_st : State;
  lp_remaining : float;
  lp_trades : list Trade;
  lp_match_price : option float
}.

Inductive LoopCtl :=
| LBreak (lp : Loop)
| LContinue (lp : Loop)
| LRaise (e : Exn) (lp : Loop).

(** Lines 161-171. *)
Definition select_level (side : string) (price : option float) (book : Book)
    : option (float * option deque) :=
  let '(best_bid, best_ask) := get_best_price (bids book) (asks book) in
  if String.eqb side "buy" then
    match best_ask with
    | None => None
    | Some best_ask =>
        if match price with None => false | Some p => (p <? best_ask)%float end
        then None
        else Some (best_ask, SortedDict.getitem best_ask (asks book))
    end
  else
    match best_bid with
    | None => None
    | Some best_bid =>
        if match price with None => false | Some p => (best_bid <? p)%float end
        then None
        else Some (best_bid, SortedDict.getitem best_bid (bids book))
    end.

Definition on_opposite (side : string)
    (f : SortedDict.t deque -> SortedDict.t deque) (book : Book) : Book :=
  if String.eqb side "buy"
  then {| bids := bids book; asks := f (asks book) |}
  else {| bids := f (bids book); asks := asks book |}.

Definition on_own (side : string)
    (f : SortedDict.t deque -> SortedDict.t deque) (book : Book) : Book :=
  if String.eqb side "buy"
  then {| bids := f (bids book); asks := asks book |}
  else {| bids := bids book; asks := f (asks book) |}.

Definition opposite (side : string) (book : Book) : SortedDict.t deque :=
  if String.eqb side "buy" then asks book else bids book.

Definition set_head_quantity (q : float) (queue : deque) : deque :=
  match queue with
  | [] => []
  | o :: r => {| ro_order_id := ro_order_id o; ro_quantity := q |} :: r
  end.

Definition popleft (queue : deque) : deque := tl queue.

(** One turn of the matching loop, lines 161-211. *)
Definition loop_body (env : Env) (lc : Locals) (lp : Loop) : LoopCtl :=
  let key := upper (lc_symbol lc) in
  let side := lc_side lc in
  let st := lp_st lp in
  match select_level side (lc_price lc) (book_at key st) with
  | None => LBreak lp
  | Some (match_price, None) =>
      LRaise KeyError (mkLoop st (lp_remaining lp) (lp_trades lp) (Some match_price))
  | Some (match_price, Some []) =>
      LRaise IndexError (mkLoop st (lp_remaining lp) (lp_trades lp) (Some match_price))
  | Some (match_price, Some (maker_order :: _)) =>
      let trade_qty := min (lp_remaining lp) (ro_quantity maker_order) in
      let maker_quantity := (ro_quantity maker_order - trade_qty)%float in
      let st :=
        put_book key
          (on_opposite side
             (SortedDict.alter (set_head_quantity maker_quantity) match_price)
             (book_at key st)) st in
      let remaining := (lp_remaining lp - trade_qty)%float in
      let n := length (lp_trades lp) in
      let trade :=
        {| trade_id := "TRADE-" +:+ uuid_trade env n;
           tr_symbol := lc_symbol lc;
           tr_price := match_price;
           tr_quantity := trade_qty;
           maker_order_id := ro_order_id maker_order;
           taker_order_id := lc_order_id lc;
           aggressor_side := side;
           tr_timestamp := utcnow_trade env n |} in
      let trades_executed := lp_trades lp ++ [trade] in
      let st := set_trades (insert_one trade (trades_collection st)) st in
      let st := set_broadcasts (broadcasts st ++ [trade]) st in
      let st :=
        if (maker_quantity =? 0)%float
        then put_book key
               (on_opposite side (SortedDict.alter popleft match_price)
                  (book_at key st)) st
        else st in
      let st :=
        if (maker_quantity =? 0)%float
        then db_update (ro_order_id maker_order) (set_status "filled") st
        else db_update (ro_order_id maker_order)
               (set_quantity_status maker_quantity "partial") st in
      let st :=
        match SortedDict.getitem match_price (opposite side (book_at key st)) with
        | Some [] =>
            put_book key
              (on_opposite side (SortedDict.delitem match_price) (book_at key st)) st
        | _ => st
        end in
      let lp' := mkLoop st remaining trades_executed (Some match_price) in
      if String.eqb (lc_typ lc) "ioc" then LBreak lp' else LContinue lp'
  end.

(** [while remaining > 0: ...], with [fuel] turns at most. *)
Fixpoint match_loop (fuel : nat) (env : Env) (lc : Locals) (lp : Loop)
    : option (Loop * option Exn) :=
  if (0 <? lp_remaining lp)%float then
    match fuel with
    | O => None
    | S fuel =>
        match loop_body env lc lp with
        | LBreak lp' => Some (lp', None)
        | LRaise e lp' => Some (lp', Some e)
        | LContinue lp' => match_loop fuel env lc lp'
        end
    end
  else Some (lp, None).

Definition resting_count (d : SortedDict.t deque) : nat :=
  length (concat (map snd d)).

(** The loop with one turn more than the opposite side has makers. *)
Definition run_match_loop (env : Env) (lc : Locals) (lp : Loop)
    : option (Loop * option Exn) :=
  match_loop
    (S (resting_count (opposite (lc_side lc) (book_at (upper (lc_symbol lc)) (lp_st lp)))))
    env lc lp.

(** Lines 213-234. *)
Definition handle_remaining (lc : Locals) (lp : Loop) : State :=
  let key := upper (lc_symbol lc) in
  let st := lp_st lp in
  let order_id := lc_order_id lc in
  if (0 <? lp_remaining lp)%float then
    if String.eqb (lc_typ lc) "limit" then
      let resting_price :=
        match lc_price lc with
        | Some p => Some p
        | None => lp_match_price lp
        end in
      match resting_price with
      | None => db_update order_id (set_status "cancelled") st
      | Some resting_price =>
          let add (side_book : SortedDict.t deque) :=
            let side_book :=
              if SortedDict.contains resting_price side_book then side_book
              else SortedDict.setitem resting_price [] side_book in
            SortedDict.alter
              (fun q => q ++ [{| ro_order_id := order_id;
                                 ro_quantity := lp_remaining lp |}])
              resting_price side_book in
          let st := put_book key (on_own (lc_side lc) add (book_at key st)) st in
          db_update order_id (set_quantity_status (lp_remaining lp) "open") st
      end
    else db_update order_id (set_status "cancelled") st
  else db_update order_id (set_status "filled") st.

(** [None] when the fuel of the loop does not suffice. *)
Definition submit_order (env : Env) (order : OrderIn) (user : User) (st : State)
    : option Outcome :=
  let symbol := upper (oi_symbol order) in
  let side := lower (oi_side order) in
  let typ := lower (oi_order_type order) in
  let qty := oi_quantity order in
  if (qty <=? 0)%float then
    Some (mkOutcome st (Raised (HTTPException 400 "Quantity must be positive")))
  else if priced_type typ && match oi_price order with None => true | Some _ => false end
  then
    Some (mkOutcome st (Raised (HTTPException 400 "Limit orders require a price")))
  else
    let price := if priced_type typ then oi_price order else None in
    let order_id := "ORDER-" +:+ uuid_order env in
    let timestamp := utcnow_order env in
    let st :=
      set_orders
        (insert_one
           {| doc_order_id := order_id; doc_symbol := symbol;
              doc_user := username user; doc_side := side; doc_type := typ;
              doc_quantity := qty; doc_price := price;
              doc_timestamp := timestamp; doc_status := "open" |}
           (orders_collection st)) st in
    let '(st, book) := get_order_book symbol st in
    let lc := mkLocals symbol side typ price order_id in
    if String.eqb typ "fok" && (fok_available side price book <? qty)%float then
      Some (mkOutcome (db_update order_id (set_status "cancelled") st)
              (Returned [("order_id", VStr order_id); ("status", VStr "cancelled");
                         ("filled", VBool false)]))
    else
      match run_match_loop env lc (mkLoop st qty [] None) with
      | None => None
      | Some (lp, Some e) => Some (mkOutcome (lp_st lp) (Raised e))
      | Some (lp, None) =>
          Some (mkOutcome (handle_remaining lc lp)
                  (Returned [("order_id", VStr order_id);
                             ("trades", VTrades (lp_trades lp))]))
      end.

(** The submission of alice named [n], for the symbol btc-usd. *)
Definition submit (n typ side : string) (quantity : float) (price : option float)
    (st : State) : option Outcome :=
  submit_order (env_of n)
    {| oi_symbol := "btc-usd"; oi_order_type := typ; oi_side := side;
       oi_quantity := quantity; oi_price := price |} alice st.

(** The state after the limit sells A and B at 100, of [a] and of [b]. *)
Definition two_asks (a b : float) : option State :=
  out_state <$>
    (submit "A" "limit" "sell" a (Some 100%float) initial_state
       ≫= fun out => submit "B" "limit" "sell" b (Some 100%float) (out_state out)).

(** The trade number [k] of the request T. *)
Definition trade_T (k : nat) (quantity : float) (maker : string) : Trade :=
  {| trade_id := "TRADE-" +:+ uuid_trade (env_of "T") k; tr_symbol := "BTC-USD";
     tr_price := 100%float; tr_quantity := quantity;
     maker_order_id := maker; taker_order_id := "ORDER-T";
     aggressor_side := "buy"; tr_timestamp := utcnow_trade (env_of "T") k |}.

End Binary64.

(** * Properties *)

(** ** Strings *)

Lemma upper_ascii_idemp c : upper_ascii (upper_ascii c) = upper_ascii c.
Proof.
  destruct c as [[] [] [] [] [] [] [] []]; reflexivity.
Qed.

Lemma upper_idemp s : upper (upper s) = upper s.
Proof.
  induction s as [|c s IH]; simpl; [reflexivity|].
  rewrite upper_ascii_idemp, IH. reflexivity.
Qed.

Lemma eqb_string_true (a b : string) : String.eqb a b = true <-> a = b.
Proof. apply String.eqb_eq. Qed.

(** ** State plumbing *)

Lemma book_at_put_book key b st : book_at key (put_book key b st) = b.
Proof. unfold book_at, put_book. simpl. rewrite lookup_insert_eq. reflexivity. Qed.

Lemma book_at_put_book_ne key key' b st :
  key <> key' -> book_at key' (put_book key b st) = book_at key' st.
Proof.
  intros Hne. unfold book_at, put_book. simpl.
  rewrite lookup_insert_ne by exact Hne. reflexivity.
Qed.

Lemma put_book_put_book key b b' st :
  put_book key b' (put_book key b st) = put_book key b' st.
Proof. unfold put_book, set_books. simpl. rewrite insert_insert_eq. reflexivity. Qed.


Lemma book_at_set_orders key c st : book_at key (set_orders c st) = book_at key st.
Proof. reflexivity. Qed.


Lemma book_at_db_update key oid f st : book_at key (db_update oid f st) = book_at key st.
Proof. reflexivity. Qed.

Lemma get_order_book_book symbol st :
  snd (get_order_book symbol st) = book_at (upper symbol) st.
Proof.
  unfold get_order_book, book_at.
  destruct (order_books st !! upper symbol); reflexivity.
Qed.

Lemma get_order_book_book_at symbol st key :
  book_at key (fst (get_order_book symbol st)) = book_at key st.
Proof.
  unfold get_order_book.
  destruct (order_books st !! upper symbol) eqn:E; simpl; [reflexivity|].
  destruct (decide (upper symbol = key)) as [<-|Hne].
  - rewrite book_at_put_book. unfold book_at. rewrite E. reflexivity.
  - apply book_at_put_book_ne, Hne.
Qed.

Lemma get_order_book_collections symbol st :
  orders_collection (fst (get_order_book symbol st)) = orders_collection st /\
  trades_collection (fst (get_order_book symbol st)) = trades_collection st /\
  broadcasts (fst (get_order_book symbol st)) = broadcasts st.
Proof.
  unfold get_order_book.
  destruct (order_books st !! upper symbol); simpl; auto.
Qed.

Lemma on_opposite_opposite side f b :
  opposite side (on_opposite side f b) = f (opposite side b).
Proof. unfold opposite, on_opposite. destruct (String.eqb side "buy"); reflexivity. Qed.

Lemma on_opposite_own side f b : own side (on_opposite side f b) = own side b.
Proof. unfold own, on_opposite. destruct (String.eqb side "buy"); reflexivity. Qed.

Lemma on_own_own side f b : own side (on_own side f b) = f (own side b).
Proof. unfold own, on_own. destruct (String.eqb side "buy"); reflexivity. Qed.

Lemma on_own_opposite side f b : opposite side (on_own side f b) = opposite side b.
Proof. unfold opposite, on_own. destruct (String.eqb side "buy"); reflexivity. Qed.

Lemma on_opposite_compose side f g b :
  on_opposite side g (on_opposite side f b) = on_opposite side (fun d => g (f d)) b.
Proof. unfold on_opposite. destruct (String.eqb side "buy"); reflexivity. Qed.

Lemma on_own_compose side f g b :
  on_own side g (on_own side f b) = on_own side (fun d => g (f d)) b.
Proof. unfold on_own. destruct (String.eqb side "buy"); reflexivity. Qed.

Lemma on_opposite_ext side f g b :
  f (opposite side b) = g (opposite side b) -> on_opposite side f b = on_opposite side g b.
Proof.
  unfold on_opposite, opposite. destruct (String.eqb side "buy"); intros ->; reflexivity.
Qed.

Lemma on_own_ext side f g b :
  f (own side b) = g (own side b) -> on_own side f b = on_own side g b.
Proof.
  unfold on_own, own. destruct (String.eqb side "buy"); intros ->; reflexivity.
Qed.

(** ** Sorted dictionaries *)

Module SortedDictFacts.
Import SortedDict.
Section Facts.
Context {V : Type}.
Implicit Types (d : t V) (k : Z) (v : V).

Lemma getitem_alter f k d : getitem k (alter f k d) = f <$> getitem k d.
Proof.
  induction d as [|[k' v] r IH]; simpl; [reflexivity|].
  destruct (k =? k') eqn:E; simpl; rewrite E; [reflexivity|exact IH].
Qed.

Lemma getitem_alter_ne f k k' d : k <> k' -> getitem k' (alter f k d) = getitem k' d.
Proof.
  intros Hne. induction d as [|[k0 v] r IH]; simpl; [reflexivity|].
  destruct (k =? k0) eqn:E; simpl.
  - apply Z.eqb_eq in E. subst k0.
    destruct (k' =? k) eqn:E'; [|reflexivity].
    apply Z.eqb_eq in E'. congruence.
  - rewrite IH. reflexivity.
Qed.

Lemma alter_alter f g k d : alter g k (alter f k d) = alter (fun v => g (f v)) k d.
Proof.
  induction d as [|[k' v] r IH]; simpl; [reflexivity|].
  destruct (k =? k') eqn:E; simpl; rewrite E; [reflexivity|].
  rewrite IH. reflexivity.
Qed.

Lemma delitem_alter f k d : delitem k (alter f k d) = delitem k d.
Proof.
  induction d as [|[k' v] r IH]; simpl; [reflexivity|].
  destruct (k =? k') eqn:E; simpl; rewrite E; [reflexivity|].
  rewrite IH. reflexivity.
Qed.

Lemma alter_ext f g k d :
  (forall v, getitem k d = Some v -> f v = g v) -> alter f k d = alter g k d.
Proof.
  induction d as [|[k' v] r IH]; simpl; intros H; [reflexivity|].
  destruct (k =? k') eqn:E.
  - rewrite (H v eq_refl). reflexivity.
  - rewrite IH by exact H. reflexivity.
Qed.

Lemma alter_none f k d : getitem k d = None -> alter f k d = d.
Proof.
  induction d as [|[k' v] r IH]; simpl; intros H; [reflexivity|].
  destruct (k =? k'); [discriminate|]. rewrite IH by exact H. reflexivity.
Qed.

Lemma keys_alter f k d : keys (alter f k d) = keys d.
Proof.
  induction d as [|[k' v] r IH]; simpl; [reflexivity|].
  destruct (k =? k'); simpl; [reflexivity|]. f_equal. exact IH.
Qed.

Lemma getitem_some_key k d v : getitem k d = Some v -> In k (keys d).
Proof.
  induction d as [|[k' v'] r IH]; simpl; [discriminate|].
  destruct (k =? k') eqn:E.
  - apply Z.eqb_eq in E. auto.
  - intros H. right. apply IH, H.
Qed.

Lemma getitem_none_key k d : getitem k d = None <-> ~ In k (keys d).
Proof.
  induction d as [|[k' v'] r IH]; simpl; [tauto|].
  destruct (k =? k') eqn:E.
  - apply Z.eqb_eq in E. split; [discriminate|]. intros H. exfalso. apply H. auto.
  - apply Z.eqb_neq in E. rewrite IH. split; intros H; [intros [?|?]|]; try tauto.
    congruence.
Qed.

Lemma getitem_In k d v : getitem k d = Some v -> In (k, v) d.
Proof.
  induction d as [|[k' v'] r IH]; simpl; [discriminate|].
  destruct (k =? k') eqn:E.
  - apply Z.eqb_eq in E. intros [= ->]. subst. auto.
  - intros H. right. apply IH, H.
Qed.

Lemma In_delitem x k d : In x (delitem k d) -> In x d.
Proof.
  induction d as [|[k' v'] r IH]; simpl; [tauto|].
  destruct (k =? k'); simpl; [tauto|]. intros [?|?]; auto.
Qed.


Lemma In_setitem x k v d : In x (setitem k v d) -> x = (k, v) \/ In x d.
Proof.
  induction d as [|[k' v'] r IH]; simpl; [intuition auto|].
  destruct (k <? k'); simpl; [intuition auto|].
  destruct (k =? k'); simpl; [intuition auto|].
  intros [?|H]; [auto|]. destruct (IH H); auto.
Qed.

Lemma keys_delitem_incl k d x : In x (keys (delitem k d)) -> In x (keys d).
Proof.
  unfold keys. rewrite !in_map_iff. intros (y & <- & Hy).
  exists y. split; [reflexivity|]. eapply In_delitem, Hy.
Qed.

Lemma keys_setitem k v d x : In x (keys (setitem k v d)) -> x = k \/ In x (keys d).
Proof.
  unfold keys. rewrite !in_map_iff. intros (y & <- & Hy).
  destruct (In_setitem _ _ _ _ Hy) as [->|H]; [auto|]. right. exists y. auto.
Qed.

Lemma getitem_setitem k v d : getitem k (setitem k v d) = Some v.
Proof.
  induction d as [|[k' v'] r IH]; simpl.
  - rewrite Z.eqb_refl. reflexivity.
  - destruct (k <? k') eqn:E1; simpl.
    + rewrite Z.eqb_refl. reflexivity.
    + destruct (k =? k') eqn:E2; simpl.
      * rewrite Z.eqb_refl. reflexivity.
      * rewrite E2. exact IH.
Qed.

(** *** Sortedness *)

Lemma sorted_from_spec lo ks :
  sorted_from lo ks = true <->
  match ks with [] => true | k :: r => sorted_from k r end = true /\
  forall k', In k' ks -> lo < k'.
Proof.
  revert lo. induction ks as [|k r IH]; intros lo; simpl.
  - split; [intros _; split; [reflexivity|tauto] | reflexivity].
  - rewrite andb_true_iff, Z.ltb_lt. split.
    + intros [Hlt Hs]. split; [exact Hs|].
      intros k' [<-|Hin]; [exact Hlt|].
      apply IH in Hs as [_ Hall]. specialize (Hall k' Hin). lia.
    + intros [Hs Hall]. split; [apply Hall; auto | exact Hs].
Qed.

Lemma sorted_cons k v d :
  sorted ((k, v) :: d) = true <->
  sorted d = true /\ forall k', In k' (keys d) -> k < k'.
Proof. unfold sorted. simpl. apply sorted_from_spec. Qed.

Lemma sorted_nil : sorted (@nil (Z * V)) = true.
Proof. reflexivity. Qed.

Lemma sorted_alter f k d : sorted (alter f k d) = sorted d.
Proof. unfold sorted. rewrite keys_alter. reflexivity. Qed.

Lemma sorted_delitem k d : sorted d = true -> sorted (delitem k d) = true.
Proof.
  induction d as [|[k' v'] r IH]; simpl; [reflexivity|].
  intros H. apply sorted_cons in H as [Hs Hall].
  destruct (k =? k'); [exact Hs|].
  apply sorted_cons. split; [apply IH, Hs|].
  intros x Hx. apply Hall. eapply keys_delitem_incl, Hx.
Qed.

Lemma sorted_setitem k v d : sorted d = true -> sorted (setitem k v d) = true.
Proof.
  induction d as [|[k' v'] r IH]; simpl; [reflexivity|].
  intros H. pose proof H as H0. apply sorted_cons in H as [Hs Hall].
  destruct (k <? k') eqn:E1.
  - apply Z.ltb_lt in E1. apply sorted_cons. split; [exact H0|].
    simpl. intros x [<-|Hx]; [exact E1|]. specialize (Hall x Hx). lia.
  - destruct (k =? k') eqn:E2.
    + apply Z.eqb_eq in E2. subst k'. apply sorted_cons. split; assumption.
    + apply Z.ltb_ge in E1. apply Z.eqb_neq in E2.
      apply sorted_cons. split; [apply IH, Hs|].
      intros x Hx. apply keys_setitem in Hx as [->|Hx]; [lia|]. apply Hall, Hx.
Qed.

Lemma sorted_app_last d k v :
  sorted (d ++ [(k, v)]) = true ->
  sorted d = true /\ forall k', In k' (keys d) -> k' < k.
Proof.
  induction d as [|[k0 v0] r IH]; simpl.
  - intros _. split; [reflexivity|]. simpl. tauto.
  - intros H. apply sorted_cons in H as [Hs Hall].
    destruct (IH Hs) as [Hr Hlt]. split.
    + apply sorted_cons. split; [exact Hr|].
      intros x Hx. apply Hall. unfold keys. rewrite map_app, in_app_iff. auto.
    + simpl. intros x [<-|Hx]; [|apply Hlt, Hx].
      apply Hall. unfold keys. rewrite map_app, in_app_iff. simpl. auto.
Qed.

(** The last key of a sorted dictionary is found by [getitem] at the last
    item, and mutated or deleted there. *)
Lemma getitem_last d k v :
  sorted (d ++ [(k, v)]) = true -> getitem k (d ++ [(k, v)]) = Some v.
Proof.
  intros H. apply sorted_app_last in H as [_ Hlt].
  induction d as [|[k0 v0] r IH]; simpl.
  - rewrite Z.eqb_refl. reflexivity.
  - destruct (k =? k0) eqn:E.
    + apply Z.eqb_eq in E. subst k0. specialize (Hlt k). simpl in Hlt. lia.
    + apply IH. intros x Hx. apply Hlt. simpl. auto.
Qed.

Lemma alter_last f d k v :
  sorted (d ++ [(k, v)]) = true -> alter f k (d ++ [(k, v)]) = d ++ [(k, f v)].
Proof.
  intros H. apply sorted_app_last in H as [_ Hlt].
  induction d as [|[k0 v0] r IH]; simpl.
  - rewrite Z.eqb_refl. reflexivity.
  - destruct (k =? k0) eqn:E.
    + apply Z.eqb_eq in E. subst k0. specialize (Hlt k). simpl in Hlt. lia.
    + rewrite IH; [reflexivity|]. intros x Hx. apply Hlt. simpl. auto.
Qed.

Lemma delitem_last d k v :
  sorted (d ++ [(k, v)]) = true -> delitem k (d ++ [(k, v)]) = d.
Proof.
  intros H. apply sorted_app_last in H as [_ Hlt].
  induction d as [|[k0 v0] r IH]; simpl.
  - rewrite Z.eqb_refl. reflexivity.
  - destruct (k =? k0) eqn:E.
    + apply Z.eqb_eq in E. subst k0. specialize (Hlt k). simpl in Hlt. lia.
    + rewrite IH; [reflexivity|]. intros x Hx. apply Hlt. simpl. auto.
Qed.
End Facts.
End SortedDictFacts.

(** ** The level a turn of the loop selects *)

Module SDF := SortedDictFacts.

Lemma head_key_getitem (d : SortedDict.t deque) p q r :
  d = (p, q) :: r -> SortedDict.getitem p d = Some q.
Proof. intros ->. simpl. rewrite Z.eqb_refl. reflexivity. Qed.

Lemma last_key_in (d : SortedDict.t deque) x :
  last d = Some x -> In (fst x) (SortedDict.keys d).
Proof.
  intros H. apply last_Some in H as [l' ->].
  unfold SortedDict.keys. rewrite map_app, in_app_iff. simpl. auto.
Qed.

Lemma key_getitem_some (d : SortedDict.t deque) k :
  In k (SortedDict.keys d) -> exists q, SortedDict.getitem k d = Some q.
Proof.
  intros Hin. destruct (SortedDict.getitem k d) as [q|] eqn:E; [eauto|].
  apply SDF.getitem_none_key in E. contradiction.
Qed.

(** What [select_level] returns is the best opposite level, it is
    marketable, and the subscript finds its queue. *)
Lemma select_level_some side price book p oq :
  select_level side price book = Some (p, oq) ->
  marketable side price p = true /\
  oq = SortedDict.getitem p (opposite side book) /\
  (exists q, oq = Some q) /\
  exists q0 rest, priority side book = (p, q0) :: rest.
Proof.
  unfold select_level, get_best_price, marketable, opposite, priority.
  unfold SortedDict.peekitem_first, SortedDict.peekitem_last.
  destruct (String.eqb side "buy").
  - destruct (asks book) as [|[p0 q0] rest] eqn:Ea; simpl; [discriminate|].
    destruct price as [l|].
    + destruct (p0 >? l) eqn:E; [discriminate|]. intros [= <- <-].
      rewrite Z.eqb_refl. repeat split; eauto. lia.
    + intros [= <- <-]. rewrite Z.eqb_refl. repeat split; eauto.
  - destruct (last (bids book)) as [[p0 q0]|] eqn:El; simpl; [|discriminate].
    pose proof (last_key_in _ _ El) as Hin. simpl in Hin.
    apply key_getitem_some in Hin as [q Hq].
    apply last_Some in El as [l' El]. rewrite El, rev_unit.
    destruct price as [l|].
    + destruct (p0 <? l) eqn:E; [discriminate|]. intros [= <- <-].
      rewrite El in Hq. repeat split; eauto. lia.
    + intros [= <- <-]. rewrite El in Hq. repeat split; eauto.
Qed.

Lemma select_level_none side price book :
  select_level side price book = None ->
  match priority side book with
  | [] => True
  | (p, _) :: _ => marketable side price p = false
  end.
Proof.
  unfold select_level, get_best_price, marketable, priority.
  unfold SortedDict.peekitem_first, SortedDict.peekitem_last.
  destruct (String.eqb side "buy").
  - destruct (asks book) as [|[p0 q0] rest]; simpl; [trivial|].
    destruct price as [l|]; [|discriminate].
    destruct (p0 >? l) eqn:E; [|discriminate]. intros _. lia.
  - destruct (last (bids book)) as [[p0 q0]|] eqn:El; simpl.
    + apply last_Some in El as [l' ->]. rewrite rev_unit.
      destruct price as [l|]; [|discriminate].
      destruct (p0 <? l) eqn:E; [|discriminate]. intros _. lia.
    + apply last_None in El. rewrite El. simpl. trivial.
Qed.

Lemma select_level_break side price book :
  match priority side book with
  | [] => True
  | (p, _) :: _ => marketable side price p = false
  end ->
  select_level side price book = None.
Proof.
  unfold select_level, get_best_price, marketable, priority.
  unfold SortedDict.peekitem_first, SortedDict.peekitem_last.
  destruct (String.eqb side "buy").
  - destruct (asks book) as [|[p0 q0] rest]; simpl; [reflexivity|].
    destruct price as [l|]; [|discriminate].
    intros H. replace (p0 >? l) with true by lia. reflexivity.
  - destruct (last (bids book)) as [[p0 q0]|] eqn:El; simpl; [|reflexivity].
    apply last_Some in El as [l' ->]. rewrite rev_unit.
    destruct price as [l|]; [|discriminate].
    intros H. replace (p0 <? l) with true by lia. reflexivity.
Qed.

(** ** One turn of the loop, in closed form *)

Lemma queue_after_cons remaining m r :
  queue_after remaining (m :: r) =
  if ro_quantity m - Z.min remaining (ro_quantity m) =? 0 then r
  else {| ro_order_id := ro_order_id m;
          ro_quantity := ro_quantity m - Z.min remaining (ro_quantity m) |} :: r.
Proof. reflexivity. Qed.

Lemma loop_body_break env lc lp :
  select_level (lc_side lc) (lc_price lc) (book_at (upper (lc_symbol lc)) (lp_st lp)) = None ->
  loop_body env lc lp = LBreak lp.
Proof. intros H. unfold loop_body. rewrite H. reflexivity. Qed.

Lemma loop_body_match env lc lp p m r :
  select_level (lc_side lc) (lc_price lc) (book_at (upper (lc_symbol lc)) (lp_st lp))
    = Some (p, Some (m :: r)) ->
  exists lp',
    loop_body env lc lp
      = (if String.eqb (lc_typ lc) "ioc" then LBreak lp' else LContinue lp') /\
    lp_st lp' = state_after_match env lc lp p m r /\
    lp_remaining lp' = lp_remaining lp - Z.min (lp_remaining lp) (ro_quantity m) /\
    lp_trades lp' =
      lp_trades lp ++
        [trade_of env lc (length (lp_trades lp)) p
           (Z.min (lp_remaining lp) (ro_quantity m)) m] /\
    lp_match_price lp' = Some p.
Proof.
  intros Hsel. pose proof (select_level_some _ _ _ _ _ Hsel) as (_ & Hget & _ & _).
  symmetry in Hget.
  unfold loop_body. rewrite Hsel. cbv zeta.
  eexists. split; [reflexivity|]. cbn [lp_st lp_remaining lp_trades lp_match_price].
  split; [|auto].
  unfold state_after_match. rewrite queue_after_cons. unfold maker_update.
  destruct lp as [[ob oc tc bc] rem trs mp aw].
  cbn [lp_st lp_remaining lp_trades] in *.
  set (key := upper (lc_symbol lc)) in *.
  set (tq := Z.min rem (ro_quantity m)).
  set (mq := ro_quantity m - tq).
  unfold db_update, put_book, set_books, set_trades, set_broadcasts, set_orders, insert_one.
  cbn [order_books orders_collection trades_collection broadcasts].
  unfold book_at in *. cbn [order_books] in *.
  set (B := default empty_book (ob !! key)) in *.
  assert (Hpop : SortedDict.getitem p
            (opposite (lc_side lc)
               (on_opposite (lc_side lc)
                  (SortedDict.alter popleft p)
                  (on_opposite (lc_side lc)
                     (SortedDict.alter (set_head_quantity mq) p) B))) = Some r).
  { rewrite !on_opposite_opposite, !SDF.getitem_alter, Hget. reflexivity. }
  assert (Hset : SortedDict.getitem p
            (opposite (lc_side lc)
               (on_opposite (lc_side lc)
                  (SortedDict.alter (set_head_quantity mq) p) B))
            = Some ({| ro_order_id := ro_order_id m; ro_quantity := mq |} :: r)).
  { rewrite !on_opposite_opposite, !SDF.getitem_alter, Hget. reflexivity. }
  destruct (mq =? 0) eqn:Emq;
    cbn [order_books orders_collection trades_collection broadcasts];
    rewrite ?lookup_insert_eq; cbn [default from_option id];
    rewrite ?lookup_insert_eq; cbn [default from_option id].
  - rewrite Hpop. destruct r as [|m2 r2].
    + cbn [order_books orders_collection trades_collection broadcasts].
      rewrite ?lookup_insert_eq; cbn [default from_option id]. rewrite !insert_insert_eq.
      f_equal. f_equal. rewrite !on_opposite_compose.
      apply on_opposite_ext. unfold level_becomes.
      rewrite !SDF.delitem_alter. reflexivity.
    + rewrite !insert_insert_eq. f_equal. f_equal. rewrite !on_opposite_compose.
      apply on_opposite_ext. unfold level_becomes.
      rewrite SDF.alter_alter. apply SDF.alter_ext.
      intros v Hv. rewrite Hget in Hv. injection Hv as <-. reflexivity.
  - rewrite Hset. f_equal. f_equal.
    apply on_opposite_ext. unfold level_becomes.
    apply SDF.alter_ext.
    intros v Hv. rewrite Hget in Hv. injection Hv as <-. reflexivity.
Qed.

(** ** The loop ends *)

Lemma resting_count_alter f k (d : SortedDict.t deque) q :
  SortedDict.getitem k d = Some q ->
  (resting_count (SortedDict.alter f k d) + length q
   = resting_count d + length (f q))%nat.
Proof.
  unfold resting_count. induction d as [|[k' v] r IH]; simpl; [discriminate|].
  destruct (k =? k') eqn:E; simpl.
  - intros [= ->]. rewrite !length_app. lia.
  - intros H. specialize (IH H). rewrite !length_app. lia.
Qed.

Lemma resting_count_delitem k (d : SortedDict.t deque) q :
  SortedDict.getitem k d = Some q ->
  (resting_count (SortedDict.delitem k d) + length q = resting_count d)%nat.
Proof.
  unfold resting_count. induction d as [|[k' v] r IH]; simpl; [discriminate|].
  destruct (k =? k') eqn:E; simpl.
  - intros [= ->]. rewrite !length_app. lia.
  - intros H. specialize (IH H). rewrite !length_app. lia.
Qed.

Lemma resting_count_level_becomes k (d : SortedDict.t deque) q q' :
  SortedDict.getitem k d = Some q ->
  (resting_count (level_becomes k q' d) + length q = resting_count d + length q')%nat.
Proof.
  intros H. unfold level_becomes. destruct q' as [|o q'].
  - rewrite <- (resting_count_delitem _ _ _ H). simpl. lia.
  - apply (resting_count_alter (fun _ => o :: q') _ _ _ H).
Qed.

Lemma book_at_state_after_match env lc lp p m r :
  book_at (upper (lc_symbol lc)) (state_after_match env lc lp p m r)
  = on_opposite (lc_side lc)
      (level_becomes p (queue_after (lp_remaining lp) (m :: r)))
      (book_at (upper (lc_symbol lc)) (lp_st lp)).
Proof.
  unfold state_after_match, book_at at 1. cbn [order_books].
  rewrite lookup_insert_eq. reflexivity.
Qed.

(** The three ways a turn of the loop can go. *)
Lemma loop_body_cases env lc lp :
  let book := book_at (upper (lc_symbol lc)) (lp_st lp) in
  (select_level (lc_side lc) (lc_price lc) book = None /\
   loop_body env lc lp = LBreak lp) \/
  (exists e lp',
     loop_body env lc lp = LRaise e lp' /\
     lp_st lp' = lp_st lp /\ lp_trades lp' = lp_trades lp /\
     lp_remaining lp' = lp_remaining lp /\ lp_awaits lp' = lp_awaits lp /\
     exists p, select_level (lc_side lc) (lc_price lc) book = Some (p, Some []) /\
               e = IndexError) \/
  (exists p m r lp',
     select_level (lc_side lc) (lc_price lc) book = Some (p, Some (m :: r)) /\
     loop_body env lc lp
       = (if String.eqb (lc_typ lc) "ioc" then LBreak lp' else LContinue lp') /\
     lp_st lp' = state_after_match env lc lp p m r /\
     lp_remaining lp' = lp_remaining lp - Z.min (lp_remaining lp) (ro_quantity m) /\
     lp_trades lp' =
       lp_trades lp ++
         [trade_of env lc (length (lp_trades lp)) p
            (Z.min (lp_remaining lp) (ro_quantity m)) m] /\
     lp_match_price lp' = Some p).
Proof.
  intros book.
  destruct (select_level (lc_side lc) (lc_price lc) book) as [[p oq]|] eqn:Hsel.
  - pose proof (select_level_some _ _ _ _ _ Hsel) as (_ & _ & [q ->] & _).
    destruct q as [|m r].
    + right. left. unfold loop_body. fold book. rewrite Hsel.
      eexists _, _. split; [reflexivity|]. cbn. repeat split; eauto.
    + right. right.
      destruct (loop_body_match env lc lp p m r Hsel) as (lp' & H).
      exists p, m, r, lp'. split; [reflexivity|exact H].
  - left. split; [reflexivity|]. apply loop_body_break, Hsel.
Qed.

(** A turn that continues has removed a maker or filled the taker. *)
Lemma loop_body_continue_measure env lc lp lp' :
  loop_body env lc lp = LContinue lp' ->
  lp_remaining lp' <= 0 \/
  (resting_count (opposite (lc_side lc) (book_at (upper (lc_symbol lc)) (lp_st lp')))
   < resting_count (opposite (lc_side lc) (book_at (upper (lc_symbol lc)) (lp_st lp))))%nat.
Proof.
  intros Hb.
  destruct (loop_body_cases env lc lp) as [[_ H]|[(e & l & H & _)|H]];
    [congruence|congruence|].
  destruct H as (p & m & r & l & Hsel & Hb' & Hst & Hrem & _).
  rewrite Hb in Hb'. destruct (String.eqb (lc_typ lc) "ioc"); [discriminate|].
  injection Hb' as ->.
  pose proof (select_level_some _ _ _ _ _ Hsel) as (_ & Hget & _ & _).
  symmetry in Hget.
  rewrite Hst, book_at_state_after_match, on_opposite_opposite, Hrem.
  pose proof (resting_count_level_becomes p _ _
                (queue_after (lp_remaining lp) (m :: r)) Hget) as Hc.
  rewrite queue_after_cons in *.
  destruct (ro_quantity m - Z.min (lp_remaining lp) (ro_quantity m) =? 0) eqn:E.
  - right. simpl in Hc. lia.
  - left. apply Z.eqb_neq in E. lia.
Qed.

Lemma match_loop_more_fuel env lc fuel lp r :
  match_loop fuel env lc lp = Some r -> match_loop (S fuel) env lc lp = Some r.
Proof.
  revert lp. induction fuel as [|fuel IH]; intros lp.
  - simpl. destruct (lp_remaining lp >? 0); [discriminate|auto].
  - intros H. change (match_loop (S (S fuel)) env lc lp) with
      (if lp_remaining lp >? 0 then
         match loop_body env lc lp with
         | LBreak lp' => Some (lp', None)
         | LContinue lp' => match_loop (S fuel) env lc lp'
         | LRaise e lp' => Some (lp', Some e)
         end
       else Some (lp, None)).
    simpl in H. destruct (lp_remaining lp >? 0); [|exact H].
    destruct (loop_body env lc lp); try exact H. apply IH, H.
Qed.

Lemma match_loop_fuel_le env lc fuel fuel' lp r :
  (fuel <= fuel')%nat ->
  match_loop fuel env lc lp = Some r -> match_loop fuel' env lc lp = Some r.
Proof.
  induction 1 as [|fuel' _ IH]; [auto|].
  intros H. apply match_loop_more_fuel, IH, H.
Qed.

Lemma match_loop_enough env lc fuel lp :
  (resting_count (opposite (lc_side lc) (book_at (upper (lc_symbol lc)) (lp_st lp)))
   < fuel)%nat ->
  exists r, match_loop fuel env lc lp = Some r.
Proof.
  revert lp. induction fuel as [|fuel IH]; intros lp Hc; [lia|].
  simpl. destruct (lp_remaining lp >? 0) eqn:Hrem; [|eauto].
  destruct (loop_body env lc lp) as [lp'|lp'|e lp'] eqn:Hb; eauto.
  destruct (loop_body_continue_measure _ _ _ _ Hb) as [Hle|Hlt].
  - assert (E : (lp_remaining lp' >? 0) = false) by (rewrite Z.gtb_ltb; lia).
    destruct fuel; simpl; rewrite E; eauto.
  - apply IH. lia.
Qed.

(** [run_match_loop] is the loop: any fuel above the number of resting
    makers gives its result. *)
Lemma match_loop_fuel env lc lp fuel :
  (resting_count (opposite (lc_side lc) (book_at (upper (lc_symbol lc)) (lp_st lp)))
   < fuel)%nat ->
  match_loop fuel env lc lp = Some (run_match_loop env lc lp).
Proof.
  intros Hc. unfold run_match_loop.
  destruct (match_loop_enough env lc _ lp (Nat.lt_succ_diag_r _)) as [r Hr].
  rewrite Hr. eapply match_loop_fuel_le; [|exact Hr]. lia.
Qed.

(** The proof rule of the loop: [P] is kept by the turns that continue,
    [Q] holds however the loop ends. *)
Lemma match_loop_rule (P : Loop -> Prop) (Q : Loop -> option Exn -> Prop) env lc :
  (forall lp, P lp -> lp_remaining lp <= 0 -> Q lp None) ->
  (forall lp, P lp -> 0 < lp_remaining lp ->
     match loop_body env lc lp with
     | LBreak lp' => Q lp' None
     | LRaise e lp' => Q lp' (Some e)
     | LContinue lp' => P lp'
     end) ->
  forall fuel lp r,
    P lp -> match_loop fuel env lc lp = Some r -> Q (fst r) (snd r).
Proof.
  intros Hexit Hbody. induction fuel as [|fuel IH]; intros lp r HP; simpl.
  - destruct (lp_remaining lp >? 0) eqn:E; [discriminate|].
    rewrite Z.gtb_ltb in E.
    intros [= <-]. simpl. apply Hexit; [exact HP|lia].
  - destruct (lp_remaining lp >? 0) eqn:E; rewrite Z.gtb_ltb in E.
    + specialize (Hbody lp HP ltac:(lia)).
      destruct (loop_body env lc lp) as [lp'|lp'|e lp'].
      * intros [= <-]. exact Hbody.
      * apply IH, Hbody.
      * intros [= <-]. exact Hbody.
    + intros [= <-]. simpl. apply Hexit; [exact HP|lia].
Qed.

Lemma run_match_loop_rule (P : Loop -> Prop) (Q : Loop -> option Exn -> Prop) env lc :
  (forall lp, P lp -> lp_remaining lp <= 0 -> Q lp None) ->
  (forall lp, P lp -> 0 < lp_remaining lp ->
     match loop_body env lc lp with
     | LBreak lp' => Q lp' None
     | LRaise e lp' => Q lp' (Some e)
     | LContinue lp' => P lp'
     end) ->
  forall lp, P lp ->
    Q (fst (run_match_loop env lc lp)) (snd (run_match_loop env lc lp)).
Proof.
  intros Hexit Hbody lp HP.
  eapply match_loop_rule; [exact Hexit|exact Hbody|exact HP|].
  apply match_loop_fuel, Nat.lt_succ_diag_r.
Qed.

(** ** Well-formed books stay well-formed *)

Section ForallDict.
Context {V : Type} (P : Z * V -> Prop).

Lemma Forall_delitem k (d : SortedDict.t V) :
  Forall P d -> Forall P (SortedDict.delitem k d).
Proof.
  rewrite !List.Forall_forall. intros H x Hx. eapply H, SDF.In_delitem, Hx.
Qed.

Lemma Forall_setitem k v (d : SortedDict.t V) :
  Forall P d -> P (k, v) -> Forall P (SortedDict.setitem k v d).
Proof.
  rewrite !List.Forall_forall. intros H Hkv x Hx.
  apply SDF.In_setitem in Hx as [->|Hx]; auto.
Qed.

Lemma Forall_alter_sorted f k (d : SortedDict.t V) :
  SortedDict.sorted d = true ->
  (forall x, In x d -> fst x <> k -> P x) ->
  (forall v, SortedDict.getitem k d = Some v -> P (k, f v)) ->
  Forall P (SortedDict.alter f k d).
Proof.
  induction d as [|[k' v'] r IH]; simpl; intros Hs Hne Hk; [constructor|].
  apply SDF.sorted_cons in Hs as [Hs Hall].
  destruct (k =? k') eqn:E.
  - apply Z.eqb_eq in E. subst k'. constructor; [apply Hk; reflexivity|].
    apply List.Forall_forall. intros x Hx. apply Hne; [auto|].
    assert (k < fst x); [|lia].
    apply Hall. unfold SortedDict.keys. apply in_map, Hx.
  - apply Z.eqb_neq in E. constructor.
    + apply Hne; [auto|]. simpl. congruence.
    + apply IH; auto.
Qed.
End ForallDict.

Lemma queue_after_positive remaining m r :
  0 < remaining ->
  Forall (fun o => 0 < ro_quantity o) (m :: r) ->
  Forall (fun o => 0 < ro_quantity o) (queue_after remaining (m :: r)).
Proof.
  intros Hrem H. inversion H as [|? ? Hm Hr]; subst. rewrite queue_after_cons.
  destruct (ro_quantity m - Z.min remaining (ro_quantity m) =? 0) eqn:E; [exact Hr|].
  apply Z.eqb_neq in E. constructor; [simpl; lia|exact Hr].
Qed.

Lemma keys_level_becomes k q (d : SortedDict.t deque) x :
  In x (SortedDict.keys (level_becomes k q d)) -> In x (SortedDict.keys d).
Proof.
  unfold level_becomes. destruct q.
  - apply SDF.keys_delitem_incl.
  - rewrite SDF.keys_alter. auto.
Qed.

Lemma dict_ok_level_becomes k q (d : SortedDict.t deque) :
  dict_ok d ->
  Forall (fun o => 0 < ro_quantity o) q ->
  dict_ok (level_becomes k q d).
Proof.
  intros [Hs Hl] Hq. unfold level_becomes. destruct q as [|o q].
  - split; [apply SDF.sorted_delitem, Hs | apply Forall_delitem, Hl].
  - split; [rewrite SDF.sorted_alter; exact Hs|].
    apply Forall_alter_sorted; [exact Hs| |].
    + intros x Hx _. rewrite List.Forall_forall in Hl. apply Hl, Hx.
    + intros v _. split; [discriminate|exact Hq].
Qed.

Lemma dict_ok_getitem k (d : SortedDict.t deque) q :
  dict_ok d -> SortedDict.getitem k d = Some q -> level_ok (k, q).
Proof.
  intros [_ Hl] Hg. rewrite List.Forall_forall in Hl.
  apply Hl, SDF.getitem_In, Hg.
Qed.

Lemma book_ok_sides side b :
  book_ok b <-> dict_ok (own side b) /\ dict_ok (opposite side b).
Proof.
  unfold book_ok, own, opposite. destruct (String.eqb side "buy"); tauto.
Qed.

Lemma all_below_sides side b :
  all_below b <->
  forall po pp,
    In po (SortedDict.keys (own side b)) ->
    In pp (SortedDict.keys (opposite side b)) ->
    if String.eqb side "buy" then po < pp else pp < po.
Proof.
  unfold all_below, own, opposite. destruct (String.eqb side "buy").
  - tauto.
  - split; intros H x y Hx Hy; apply H; assumption.
Qed.

Lemma book_ok_on_opposite side f b :
  book_ok b -> dict_ok (f (opposite side b)) -> book_ok (on_opposite side f b).
Proof.
  intros Hb Hf. apply (book_ok_sides side).
  rewrite on_opposite_own, on_opposite_opposite.
  apply (book_ok_sides side) in Hb. tauto.
Qed.

Lemma book_ok_on_own side f b :
  book_ok b -> dict_ok (f (own side b)) -> book_ok (on_own side f b).
Proof.
  intros Hb Hf. apply (book_ok_sides side).
  rewrite on_own_own, on_own_opposite.
  apply (book_ok_sides side) in Hb. tauto.
Qed.

Lemma all_below_on_opposite side f b :
  all_below b ->
  (forall k, In k (SortedDict.keys (f (opposite side b))) ->
             In k (SortedDict.keys (opposite side b))) ->
  all_below (on_opposite side f b).
Proof.
  intros Hb Hf. apply (all_below_sides side).
  rewrite on_opposite_own, on_opposite_opposite.
  intros po pp Hpo Hpp. apply (all_below_sides side b); auto.
Qed.

Lemma all_below_on_own side f b :
  all_below b ->
  (forall k, In k (SortedDict.keys (f (own side b))) ->
             In k (SortedDict.keys (own side b))) ->
  all_below (on_own side f b).
Proof.
  intros Hb Hf. apply (all_below_sides side).
  rewrite on_own_own, on_own_opposite.
  intros po pp Hpo Hpp. apply (all_below_sides side b); auto.
Qed.

Lemma state_ok_books st st' :
  order_books st' = order_books st -> state_ok st -> state_ok st'.
Proof. intros H Hok key. unfold book_at. rewrite H. apply Hok. Qed.

Lemma state_ok_put_book key b st :
  state_ok st -> book_ok b -> all_below b -> state_ok (put_book key b st).
Proof.
  intros Hok Hb Ha key'. destruct (decide (key = key')) as [<-|Hne].
  - rewrite book_at_put_book. auto.
  - rewrite book_at_put_book_ne by exact Hne. apply Hok.
Qed.

Lemma state_ok_initial : state_ok initial_state.
Proof.
  intros key. unfold book_at, initial_state. cbn [order_books].
  rewrite lookup_empty. simpl. repeat split; try constructor.
  intros pb pa [].
Qed.

Lemma state_ok_get_order_book symbol st :
  state_ok st -> state_ok (fst (get_order_book symbol st)).
Proof.
  intros Hok key. rewrite get_order_book_book_at. apply Hok.
Qed.

Lemma state_after_match_put env lc lp p m r :
  order_books (state_after_match env lc lp p m r)
  = order_books
      (put_book (upper (lc_symbol lc))
         (on_opposite (lc_side lc)
            (level_becomes p (queue_after (lp_remaining lp) (m :: r)))
            (book_at (upper (lc_symbol lc)) (lp_st lp))) (lp_st lp)).
Proof. reflexivity. Qed.

(** A turn of the loop keeps the books well-formed. *)
Lemma state_ok_after_match env lc lp p m r :
  0 < lp_remaining lp ->
  select_level (lc_side lc) (lc_price lc) (book_at (upper (lc_symbol lc)) (lp_st lp))
    = Some (p, Some (m :: r)) ->
  state_ok (lp_st lp) ->
  state_ok (state_after_match env lc lp p m r).
Proof.
  intros Hrem Hsel Hok.
  pose proof (select_level_some _ _ _ _ _ Hsel) as (_ & Hget & _ & _).
  symmetry in Hget.
  eapply state_ok_books; [apply state_after_match_put|].
  destruct (Hok (upper (lc_symbol lc))) as [Hb Ha].
  apply state_ok_put_book; [exact Hok| |].
  - apply book_ok_on_opposite; [exact Hb|].
    apply (book_ok_sides (lc_side lc)) in Hb as [_ Hopp].
    apply dict_ok_level_becomes; [exact Hopp|].
    apply queue_after_positive; [exact Hrem|].
    apply (dict_ok_getitem _ _ _ Hopp Hget).
  - apply all_below_on_opposite; [exact Ha|]. apply keys_level_becomes.
Qed.

(** ** The loop, the residual and the cancellation keep the books well-formed *)

Lemma state_ok_db_update oid f st : state_ok st -> state_ok (db_update oid f st).
Proof. apply state_ok_books. reflexivity. Qed.

Lemma run_match_loop_ok env lc lp :
  state_ok (lp_st lp) ->
  state_ok (lp_st (fst (run_match_loop env lc lp))) /\
  (snd (run_match_loop env lc lp) = None ->
   0 < lp_remaining (fst (run_match_loop env lc lp)) ->
   String.eqb (lc_typ lc) "ioc" = false ->
   select_level (lc_side lc) (lc_price lc)
     (book_at (upper (lc_symbol lc)) (lp_st (fst (run_match_loop env lc lp)))) = None).
Proof.
  revert lp.
  apply (run_match_loop_rule
           (fun lp => state_ok (lp_st lp))
           (fun lp e =>
              state_ok (lp_st lp) /\
              (e = None -> 0 < lp_remaining lp ->
               String.eqb (lc_typ lc) "ioc" = false ->
               select_level (lc_side lc) (lc_price lc)
                 (book_at (upper (lc_symbol lc)) (lp_st lp)) = None))).
  - intros lp Hok Hle. split; [exact Hok|]. intros _ Hlt. lia.
  - intros lp Hok Hrem.
    destruct (loop_body_cases env lc lp)
      as [[Hsel ->]|[(e & lp' & -> & Hst & _)|(p & m & r & lp' & Hsel & -> & Hst & _)]].
    + split; [exact Hok|]. intros _ _ _. exact Hsel.
    + rewrite Hst. split; [exact Hok|discriminate].
    + assert (Hok' : state_ok (lp_st lp')).
      { rewrite Hst. apply state_ok_after_match; assumption. }
      destruct (String.eqb (lc_typ lc) "ioc"); [|exact Hok'].
      split; [exact Hok'|]. intros _ _ [=].
Qed.

(** When the best opposite level cannot be matched at [rp], no opposite
    level can. *)
Lemma unmatched_all side rp b :
  SortedDict.sorted (opposite side b) = true ->
  select_level side (Some rp) b = None ->
  forall pp, In pp (SortedDict.keys (opposite side b)) ->
    if String.eqb side "buy" then rp < pp else pp < rp.
Proof.
  intros Hs Hsel pp Hpp. apply select_level_none in Hsel.
  unfold priority, opposite, marketable in *.
  destruct (String.eqb side "buy").
  - destruct (asks b) as [|[p0 q0] rest]; [destruct Hpp|].
    apply SDF.sorted_cons in Hs as [_ Hall].
    simpl in Hpp. destruct Hpp as [<-|Hpp]; [lia|].
    specialize (Hall pp Hpp). lia.
  - destruct (rev (bids b)) as [|[p0 q0] rest] eqn:Er.
    + apply (f_equal (@rev _)) in Er. rewrite rev_involutive in Er.
      rewrite Er in Hpp. destruct Hpp.
    + apply (f_equal (@rev _)) in Er. rewrite rev_involutive in Er. simpl in Er.
      rewrite Er in Hs, Hpp. apply SDF.sorted_app_last in Hs as [_ Hall].
      unfold SortedDict.keys in Hpp. rewrite map_app, in_app_iff in Hpp.
      destruct Hpp as [Hpp|[<-|[]]]; [|simpl; lia].
      specialize (Hall pp Hpp). lia.
Qed.

(** The sorted dictionary of the taker's side after the residual rests. *)
Lemma dict_ok_rest rp o (d : SortedDict.t deque) :
  dict_ok d -> 0 < ro_quantity o ->
  dict_ok
    (SortedDict.alter (fun q => q ++ [o]) rp
       (if SortedDict.contains rp d then d else SortedDict.setitem rp [] d)).
Proof.
  intros [Hs Hl] Ho.
  set (d' := if SortedDict.contains rp d then d else SortedDict.setitem rp [] d).
  assert (Hs' : SortedDict.sorted d' = true).
  { unfold d'. destruct (SortedDict.contains rp d); [exact Hs|].
    apply SDF.sorted_setitem, Hs. }
  split; [rewrite SDF.sorted_alter; exact Hs'|].
  rewrite List.Forall_forall in Hl.
  apply Forall_alter_sorted; [exact Hs'| |].
  - intros x Hx Hne. unfold d' in Hx.
    destruct (SortedDict.contains rp d); [auto|].
    apply SDF.In_setitem in Hx as [->|Hx]; [|auto]. simpl in Hne. congruence.
  - intros v Hv. split; simpl.
    + destruct v; discriminate.
    + apply Forall_app. split; [|constructor; [exact Ho|constructor]].
      unfold d', SortedDict.contains in Hv.
      destruct (SortedDict.getitem rp d) as [q|] eqn:Hq.
      * rewrite Hq in Hv. injection Hv as <-.
        apply (Hl _ (SDF.getitem_In _ _ _ Hq)).
      * rewrite SDF.getitem_setitem in Hv. injection Hv as <-. constructor.
Qed.

Lemma keys_rest rp o (d : SortedDict.t deque) x :
  In x (SortedDict.keys
          (SortedDict.alter (fun q => q ++ [o]) rp
             (if SortedDict.contains rp d then d else SortedDict.setitem rp [] d))) ->
  x = rp \/ In x (SortedDict.keys d).
Proof.
  rewrite SDF.keys_alter. destruct (SortedDict.contains rp d); [auto|].
  apply SDF.keys_setitem.
Qed.

Lemma state_ok_handle_remaining lc lp :
  state_ok (lp_st lp) ->
  (String.eqb (lc_typ lc) "limit" = true -> lc_price lc <> None) ->
  (0 < lp_remaining lp -> String.eqb (lc_typ lc) "limit" = true ->
   select_level (lc_side lc) (lc_price lc)
     (book_at (upper (lc_symbol lc)) (lp_st lp)) = None) ->
  state_ok (fst (handle_remaining lc lp)).
Proof.
  intros Hok Hprice Hsel. unfold handle_remaining.
  destruct (lp_remaining lp >? 0) eqn:Hrem; [|apply state_ok_db_update, Hok].
  rewrite Z.gtb_ltb in Hrem. apply Z.ltb_lt in Hrem.
  destruct (String.eqb (lc_typ lc) "limit") eqn:Htyp; [|apply state_ok_db_update, Hok].
  specialize (Hprice eq_refl). specialize (Hsel Hrem eq_refl).
  destruct (lc_price lc) as [rp|]; [|congruence]. cbn [fst].
  apply state_ok_db_update.
  destruct (Hok (upper (lc_symbol lc))) as [Hb Ha].
  apply state_ok_put_book; [exact Hok| |].
  - apply book_ok_on_own; [exact Hb|].
    apply dict_ok_rest; [|exact Hrem].
    apply (book_ok_sides (lc_side lc)) in Hb. tauto.
  - apply (all_below_sides (lc_side lc)).
    rewrite on_own_own, on_own_opposite. intros po pp Hpo Hpp.
    apply keys_rest in Hpo as [->|Hpo].
    + apply (unmatched_all _ _ _ (proj1 (proj2 (proj1 (book_ok_sides (lc_side lc) _) Hb)))
               Hsel pp Hpp).
    + apply (proj1 (all_below_sides (lc_side lc) _) Ha); assumption.
Qed.

Lemma remove_order_sublist oid q x : In x (remove_order oid q) -> In x q.
Proof.
  unfold remove_order.
  destruct (List.find _ q) as [o|]; [|auto].
  induction q as [|y r IH]; simpl; [auto|].
  destruct (resting_eqb y o); simpl; [auto|]. intros [?|?]; auto.
Qed.

Lemma state_ok_cancel cancel user st :
  state_ok st -> state_ok (out_state (cancel_order cancel user st)).
Proof.
  intros Hok. unfold cancel_order.
  destruct (find_one _ _) as [db_order|]; [|exact Hok].
  destruct (existsb _ _); [exact Hok|].
  destruct (get_order_book (doc_symbol db_order) st) as [st1 book] eqn:Eg.
  assert (Hok1 : state_ok st1).
  { replace st1 with (fst (get_order_book (doc_symbol db_order) st)) by (rewrite Eg; reflexivity).
    apply state_ok_get_order_book, Hok. }
  cbn [out_state]. apply state_ok_db_update.
  destruct (doc_price db_order) as [price|]; [|exact Hok1].
  destruct (SortedDict.contains price (own (doc_side db_order) book)); [|exact Hok1].
  set (key := upper (doc_symbol db_order)).
  set (side := doc_side db_order).
  destruct (Hok1 key) as [Hb Ha].
  pose proof (proj1 (book_ok_sides side _) Hb) as [Hown _].
  rewrite book_at_put_book, on_own_own.
  set (d := own side (book_at key st1)) in *.
  assert (Hkeep : forall q, q <> [] ->
            SortedDict.getitem price (SortedDict.alter (remove_order (co_order_id cancel)) price d)
              = Some q ->
            state_ok
              (put_book key
                 (on_own side (SortedDict.alter (remove_order (co_order_id cancel)) price)
                    (book_at key st1)) st1)).
  { intros q Hq Hget. apply state_ok_put_book; [exact Hok1| |].
    - apply book_ok_on_own; [exact Hb|]. fold d. destruct Hown as [Hs Hl].
      split; [rewrite SDF.sorted_alter; exact Hs|].
      rewrite List.Forall_forall in Hl.
      apply Forall_alter_sorted; [exact Hs|auto|].
      intros v Hv. rewrite SDF.getitem_alter, Hv in Hget. injection Hget as <-.
      split; [exact Hq|]. simpl. apply List.Forall_forall. intros x Hx.
      apply remove_order_sublist in Hx.
      destruct (Hl _ (SDF.getitem_In _ _ _ Hv)) as [_ Hpos].
      rewrite List.Forall_forall in Hpos. apply Hpos, Hx.
    - apply all_below_on_own; [exact Ha|]. intros k. rewrite SDF.keys_alter. auto. }
  destruct (SortedDict.getitem price
              (SortedDict.alter (remove_order (co_order_id cancel)) price d))
    as [[|o q]|] eqn:Hget.
  - rewrite put_book_put_book, on_own_compose.
    apply state_ok_put_book; [exact Hok1| |].
    + apply book_ok_on_own; [exact Hb|]. fold d. rewrite SDF.delitem_alter.
      destruct Hown as [Hs Hl].
      split; [apply SDF.sorted_delitem, Hs|apply Forall_delitem, Hl].
    + apply all_below_on_own; [exact Ha|]. intros k. fold d.
      rewrite SDF.delitem_alter. apply SDF.keys_delitem_incl.
  - apply (Hkeep (o :: q)); [discriminate|reflexivity].
  - rewrite SDF.getitem_alter in Hget.
    destruct (SortedDict.getitem price d) eqn:Hd; [discriminate|].
    apply state_ok_put_book; [exact Hok1| |].
    + apply book_ok_on_own; [exact Hb|]. fold d.
      rewrite (SDF.alter_none _ _ _ Hd). exact Hown.
    + apply all_below_on_own; [exact Ha|]. intros k. rewrite SDF.keys_alter. auto.
Qed.

Lemma priced_type_limit typ : String.eqb typ "limit" = true -> priced_type typ = true.
Proof. intros H. unfold priced_type. simpl. rewrite H. reflexivity. Qed.

Lemma state_ok_submit env order user st :
  state_ok st -> state_ok (out_state (submit_order env order user st)).
Proof.
  intros Hok. unfold submit_order.
  destruct (oi_quantity order <=? 0); [exact Hok|].
  destruct (priced_type (lower (oi_order_type order)) && price_is_none (oi_price order))
    eqn:Hv; [exact Hok|].
  set (st0 := set_orders _ st).
  assert (Hok0 : state_ok st0) by (eapply state_ok_books; [reflexivity|exact Hok]).
  destruct (get_order_book (upper (oi_symbol order)) st0) as [st1 book] eqn:Eg.
  assert (Hok1 : state_ok st1).
  { replace st1 with (fst (get_order_book (upper (oi_symbol order)) st0))
      by (rewrite Eg; reflexivity).
    apply state_ok_get_order_book, Hok0. }
  destruct (String.eqb (lower (oi_order_type order)) "fok" && _).
  - cbn [out_state]. apply state_ok_db_update, Hok1.
  - set (lc := mkLocals _ _ _ _ _).
    set (lp0 := mkLoop st1 _ _ _ _).
    pose proof (run_match_loop_ok env lc lp0 Hok1) as [Hokl Hexit].
    destruct (run_match_loop env lc lp0) as [lp [e|]]; [exact Hokl|].
    cbn [fst snd] in *.
    destruct (handle_remaining lc lp) as [st2 aw] eqn:Eh. cbn [out_state].
    replace st2 with (fst (handle_remaining lc lp)) by (rewrite Eh; reflexivity).
    apply state_ok_handle_remaining; [exact Hokl| |].
    + subst lc. cbn [lc_typ lc_price]. intros Hl.
      rewrite (priced_type_limit _ Hl) in *. simpl in Hv.
      destruct (oi_price order); [discriminate|discriminate].
    + intros Hrem Hl. apply Hexit; [reflexivity|exact Hrem|].
      subst lc. cbn [lc_typ] in *.
      apply String.eqb_eq in Hl. rewrite Hl. reflexivity.
Qed.

Lemma reachable_state_ok st : reachable st -> state_ok st.
Proof.
  induction 1 as [|st env order user _ IH|st cancel user _ IH].
  - apply state_ok_initial.
  - apply state_ok_submit, IH.
  - apply state_ok_cancel, IH.
Qed.

Lemma all_below_uncrossed b : all_below b -> uncrossed b.
Proof.
  intros Ha bb ba. unfold get_best_price.
  unfold SortedDict.peekitem_last, SortedDict.peekitem_first.
  destruct (last (bids b)) as [[pb qb]|] eqn:El; [|discriminate].
  destruct (asks b) as [|[pa qa] rest] eqn:Ea; [discriminate|].
  simpl. intros [= <- <-]. apply Ha.
  - apply (last_key_in _ _ El).
  - rewrite Ea. simpl. auto.
Qed.

(** ** The book is never crossed *)

(** C4: in every state reachable by submissions and cancellations, in the
    book of every symbol, the best bid is strictly below the best ask
    whenever both sides hold orders. *)
Theorem no_crossed_book st symbol book best_bid best_ask :
  reachable st ->
  order_books st !! symbol = Some book ->
  get_best_price (bids book) (asks book) = (Some best_bid, Some best_ask) ->
  best_bid < best_ask.
Proof.
  intros Hr Hb Hbest.
  destruct (reachable_state_ok st Hr symbol) as [_ Ha].
  unfold book_at in Ha. rewrite Hb in Ha. simpl in Ha.
  exact (all_below_uncrossed _ Ha _ _ Hbest).
Qed.

Lemma no_crossed_book_witness :
  reachable two_sided /\
  order_books two_sided !! "BTC-USD"
    = Some {| bids := [(99, [mkResting "ORDER-X" 10])];
              asks := [(100, [mkResting "ORDER-A" 10])] |} /\
  99 < 100.
Proof.
  assert (Hr : reachable two_sided) by (apply reach_submit, reach_submit, reach_init).
  assert (Hb : order_books two_sided !! "BTC-USD"
               = Some {| bids := [(99, [mkResting "ORDER-X" 10])];
                         asks := [(100, [mkResting "ORDER-A" 10])] |})
    by (vm_compute; reflexivity).
  split; [exact Hr|]. split; [exact Hb|].
  exact (no_crossed_book two_sided "BTC-USD" _ 99 100 Hr Hb eq_refl).
Defined.

(** ** The accepted submission *)

Lemma accepted_dec order : accepted order \/ ~ accepted order.
Proof.
  unfold accepted. destruct (Z_lt_dec 0 (oi_quantity order)); [|tauto].
  destruct (priced_type (lower (oi_order_type order))); [|left; split; [lia|discriminate]].
  destruct (oi_price order); [left; split; [lia|discriminate]|].
  right. intros [_ H]. apply H; reflexivity.
Qed.

Lemma submit_order_rejected env order user st :
  ~ accepted order ->
  exists detail,
    submit_order env order user st
    = mkOutcome st (Raised (HTTPException 400 detail)) [].
Proof.
  intros Hn. unfold submit_order.
  destruct (oi_quantity order <=? 0) eqn:Eq; [eauto|].
  destruct (priced_type (lower (oi_order_type order)) && price_is_none (oi_price order))
    eqn:Ep; [eauto|].
  exfalso. apply Hn. split; [lia|]. intros Hp. rewrite Hp in Ep.
  destruct (oi_price order); [discriminate|discriminate].
Qed.

Lemma submit_order_accepted env order user st :
  accepted order ->
  submit_order env order user st =
  let lc := submit_locals env order in
  let lp0 := submit_loop env order user st in
  if String.eqb (lc_typ lc) "fok" &&
     (fok_available (lc_side lc) (lc_price lc)
        (book_at (upper (lc_symbol lc)) (lp_st lp0)) <? oi_quantity order)
  then
    mkOutcome (db_update (lc_order_id lc) (set_status "cancelled") (lp_st lp0))
      (Returned [("order_id", VStr (lc_order_id lc)); ("status", VStr "cancelled");
                 ("filled", VBool false)])
      (suspend AwFokCancel (lp_st lp0) (lp_awaits lp0))
  else
    match snd (run_match_loop env lc lp0) with
    | Some e =>
        mkOutcome (lp_st (fst (run_match_loop env lc lp0))) (Raised e)
          (lp_awaits (fst (run_match_loop env lc lp0)))
    | None =>
        mkOutcome (fst (handle_remaining lc (fst (run_match_loop env lc lp0))))
          (Returned [("order_id", VStr (lc_order_id lc));
                     ("trades", VTrades (lp_trades (fst (run_match_loop env lc lp0))))])
          (snd (handle_remaining lc (fst (run_match_loop env lc lp0))))
    end.
Proof.
  intros [Hq Hp]. unfold submit_order.
  replace (oi_quantity order <=? 0) with false by lia.
  replace (priced_type (lower (oi_order_type order)) && price_is_none (oi_price order))
    with false.
  2:{ destruct (priced_type (lower (oi_order_type order))); [|reflexivity].
      destruct (oi_price order); [reflexivity|]. exfalso. apply Hp; reflexivity. }
  cbv zeta. unfold submit_loop, submit_start, submit_locals, new_order_doc, working_price.
  cbn [lc_typ lc_side lc_price lc_symbol lc_order_id lp_st lp_awaits].
  rewrite get_order_book_book_at, <- get_order_book_book.
  destruct (get_order_book _ _) as [st1 book]. cbn [fst snd].
  destruct (_ && _); [reflexivity|].
  destruct (run_match_loop _ _ _) as [lp [e|]]; cbn [fst snd]; [reflexivity|].
  destruct (handle_remaining _ lp). reflexivity.
Qed.

Lemma submit_start_book_at env order user st key :
  book_at key (submit_start env order user st) = book_at key st.
Proof. unfold submit_start. rewrite get_order_book_book_at. reflexivity. Qed.

Lemma submit_loop_book env order user st :
  book_at (upper (lc_symbol (submit_locals env order)))
    (lp_st (submit_loop env order user st))
  = book_for order st.
Proof.
  unfold submit_loop, submit_locals, book_for. cbn [lp_st lc_symbol].
  rewrite submit_start_book_at, upper_idemp. reflexivity.
Qed.

(** ** Price-time priority *)

(** On a sorted side, the level [select_level] returns is the head of the
    priority list, and what happens to it happens at the head. *)
Lemma priority_head side b p q rest :
  SortedDict.sorted (opposite side b) = true ->
  priority side b = (p, q) :: rest ->
  SortedDict.getitem p (opposite side b) = Some q.
Proof.
  unfold priority, opposite. destruct (String.eqb side "buy").
  - intros _ ->. simpl. rewrite Z.eqb_refl. reflexivity.
  - intros Hs Hr. apply (f_equal (@rev _)) in Hr. rewrite rev_involutive in Hr.
    simpl in Hr. rewrite Hr in *. apply SDF.getitem_last, Hs.
Qed.

Lemma priority_level_becomes side b p q rest nq :
  SortedDict.sorted (opposite side b) = true ->
  priority side b = (p, q) :: rest ->
  priority side (on_opposite side (level_becomes p nq) b)
  = match nq with [] => rest | _ => (p, nq) :: rest end.
Proof.
  unfold priority, opposite, on_opposite, level_becomes.
  destruct (String.eqb side "buy"); cbn [asks bids].
  - intros _ ->. destruct nq; simpl; rewrite Z.eqb_refl; reflexivity.
  - intros Hs Hr. apply (f_equal (@rev _)) in Hr. rewrite rev_involutive in Hr.
    simpl in Hr. rewrite Hr in *. destruct nq.
    + rewrite (SDF.delitem_last _ _ _ Hs). apply rev_involutive.
    + rewrite (SDF.alter_last _ _ _ _ Hs), rev_unit, rev_involutive. reflexivity.
Qed.

Lemma makers_cons p q rest : makers ((p, q) :: rest) = map (pair p) q ++ makers rest.
Proof. reflexivity. Qed.

Lemma makers_level_becomes p nq rest :
  makers (match nq with [] => rest | _ => (p, nq) :: rest end)
  = map (pair p) nq ++ makers rest.
Proof. destruct nq; reflexivity. Qed.

Lemma sorted_level_becomes k q (d : SortedDict.t deque) :
  SortedDict.sorted d = true -> SortedDict.sorted (level_becomes k q d) = true.
Proof.
  intros Hs. unfold level_becomes. destruct q.
  - apply SDF.sorted_delitem, Hs.
  - rewrite SDF.sorted_alter. exact Hs.
Qed.

(** The trades of the loop take the makers in price-time priority, at the
    price of their level, and only at marketable levels. *)
Lemma run_match_loop_follows env lc lp0 :
  let book0 := book_at (upper (lc_symbol lc)) (lp_st lp0) in
  SortedDict.sorted (opposite (lc_side lc) book0) = true ->
  lp_trades lp0 = [] ->
  let lp := fst (run_match_loop env lc lp0) in
  follows (makers (priority (lc_side lc) book0)) (lp_trades lp) /\
  Forall (fun t => marketable (lc_side lc) (lc_price lc) (tr_price t) = true)
    (lp_trades lp).
Proof.
  intros book0 Hs0 Ht0.
  set (F0 := makers (priority (lc_side lc) book0)).
  set (mk := fun t => marketable (lc_side lc) (lc_price lc) (tr_price t) = true).
  set (bk := fun lp : Loop => book_at (upper (lc_symbol lc)) (lp_st lp)).
  apply (run_match_loop_rule
           (fun lp =>
              SortedDict.sorted (opposite (lc_side lc) (bk lp)) = true /\
              Forall mk (lp_trades lp) /\
              follows F0 (lp_trades lp) /\
              (0 < lp_remaining lp ->
               F0 = map trade_maker (lp_trades lp)
                      ++ makers (priority (lc_side lc) (bk lp))))
           (fun lp _ => follows F0 (lp_trades lp) /\ Forall mk (lp_trades lp))).
  - intros lp (_ & Hm & Hf & _) _. auto.
  - intros lp (Hs & Hm & Hf & HF) Hrem. specialize (HF Hrem).
    destruct (loop_body_cases env lc lp)
      as [[Hsel ->]|[(e & lp' & -> & _ & Htr & _)
                    |(p & m & r & lp' & Hsel & -> & Hst & Hr & Htr & _)]].
    + auto.
    + rewrite Htr. auto.
    + pose proof (select_level_some _ _ _ _ _ Hsel) as (Hmk & Hget & _ & q0 & rest & Hprio).
      fold (bk lp) in Hget, Hprio.
      pose proof (priority_head _ _ _ _ _ Hs Hprio) as Hq0.
      rewrite <- Hget in Hq0. injection Hq0 as <-.
      assert (Hbk : bk lp' = on_opposite (lc_side lc)
                (level_becomes p (queue_after (lp_remaining lp) (m :: r))) (bk lp)).
      { unfold bk. rewrite Hst. apply book_at_state_after_match. }
      set (t := trade_of env lc (length (lp_trades lp)) p
                  (Z.min (lp_remaining lp) (ro_quantity m)) m) in *.
      assert (Hm' : Forall mk (lp_trades lp')).
      { rewrite Htr. apply Forall_app. split; [exact Hm|]. constructor; [exact Hmk|constructor]. }
      assert (Hs' : SortedDict.sorted (opposite (lc_side lc) (bk lp')) = true).
      { rewrite Hbk, on_opposite_opposite. apply sorted_level_becomes, Hs. }
      assert (HP : follows F0 (lp_trades lp') /\
                   (0 < lp_remaining lp' ->
                    F0 = map trade_maker (lp_trades lp')
                           ++ makers (priority (lc_side lc) (bk lp')))).
      { rewrite Htr, Hr, Hbk, (priority_level_becomes _ _ _ _ _ _ Hs Hprio),
          makers_level_becomes, queue_after_cons.
        rewrite Hprio, makers_cons in HF. simpl in HF.
        destruct (ro_quantity m - Z.min (lp_remaining lp) (ro_quantity m) =? 0) eqn:E.
        - assert (Ht : trade_maker t = (p, m)).
          { unfold trade_maker, t, trade_of. cbn [tr_price maker_order_id tr_quantity].
            destruct m as [mid mqty]. cbn [ro_order_id ro_quantity] in *.
            f_equal. f_equal. lia. }
          assert (HF' : F0 = map trade_maker (lp_trades lp ++ [t])
                              ++ map (pair p) r ++ makers rest).
          { rewrite map_app, <- app_assoc. simpl. rewrite Ht. exact HF. }
          split; [left; eauto|]. intros _. exact HF'.
        - split; [|intros Hlt; apply Z.eqb_neq in E; lia].
          right. exists (lp_trades lp), t, m, (map (pair p) r ++ makers rest).
          repeat split; [exact HF|]. unfold t, trade_of. cbn [tr_quantity].
          apply Z.eqb_neq in E. lia. }
      destruct (String.eqb (lc_typ lc) "ioc"); tauto.
  - split; [exact Hs0|]. rewrite Ht0. split; [constructor|].
    split; [left; exists F0; reflexivity|]. intros _. reflexivity.
Qed.

Lemma follows_lookup F ts j t :
  follows F ts ->
  ts !! j = Some t ->
  exists m,
    F !! j = Some (tr_price t, m) /\
    maker_order_id t = ro_order_id m /\
    tr_quantity t <= ro_quantity m /\
    (S j < length ts -> tr_quantity t = ro_quantity m)%nat.
Proof.
  assert (Hfull : forall ts' sfx, ts' !! j = Some t ->
            (map trade_maker ts' ++ sfx) !! j = Some (trade_maker t)).
  { intros ts' sfx Hj. rewrite lookup_app_l.
    - change (map trade_maker ts') with (trade_maker <$> ts').
      rewrite list_lookup_fmap, Hj. reflexivity.
    - rewrite length_map. apply lookup_lt_Some in Hj. exact Hj. }
  intros [[sfx ->]|(ts' & t' & m & sfx & -> & -> & Hid & Hq)] Hj.
  - exists {| ro_order_id := maker_order_id t; ro_quantity := tr_quantity t |}.
    rewrite (Hfull ts sfx Hj). cbn. repeat split; auto. lia.
  - destruct (decide (j < length ts')%nat) as [Hlt|Hge].
    + rewrite lookup_app_l in Hj by exact Hlt.
      exists {| ro_order_id := maker_order_id t; ro_quantity := tr_quantity t |}.
      rewrite (Hfull ts' _ Hj). cbn. repeat split; auto. lia.
    + rewrite lookup_app_r in Hj by lia.
      destruct (j - length ts')%nat as [|n] eqn:En; [|destruct n; discriminate].
      injection Hj as <-. exists m. repeat split; auto; try lia.
      * rewrite lookup_app_r by (rewrite length_map; lia).
        rewrite length_map, En. reflexivity.
      * rewrite length_app. simpl. lia.
Qed.

(** The trades a submission returns are those of the loop. *)
Lemma submit_order_returned_trades env order user st oid trades :
  out_result (submit_order env order user st)
    = Returned [("order_id", VStr oid); ("trades", VTrades trades)] ->
  accepted order /\
  oid = lc_order_id (submit_locals env order) /\
  snd (run_match_loop env (submit_locals env order) (submit_loop env order user st)) = None /\
  trades = lp_trades (fst (run_match_loop env (submit_locals env order)
                             (submit_loop env order user st))).
Proof.
  intros Hres. destruct (accepted_dec order) as [Ha|Hn].
  - split; [exact Ha|]. rewrite (submit_order_accepted _ _ _ _ Ha) in Hres.
    cbv zeta in Hres. destruct (_ && _); [discriminate|].
    destruct (snd (run_match_loop _ _ _)); [discriminate|].
    cbn [out_result] in Hres. injection Hres as Ho Ht. subst oid trades. auto.
  - destruct (submit_order_rejected env order user st Hn) as [detail H].
    rewrite H in Hres. discriminate.
Qed.

Lemma submit_order_follows env order user st oid trades :
  SortedDict.sorted (opposite (lower (oi_side order)) (book_for order st)) = true ->
  out_result (submit_order env order user st)
    = Returned [("order_id", VStr oid); ("trades", VTrades trades)] ->
  follows (makers (priority (lower (oi_side order)) (book_for order st))) trades /\
  Forall (fun t => marketable (lower (oi_side order)) (working_price order) (tr_price t) = true)
    trades.
Proof.
  intros Hs Hres.
  apply submit_order_returned_trades in Hres as (_ & _ & _ & ->).
  pose proof (run_match_loop_follows env (submit_locals env order)
                (submit_loop env order user st)) as H.
  cbv zeta in H. rewrite submit_loop_book in H. apply H; [exact Hs|reflexivity].
Qed.

Lemma makers_app a b : makers (a ++ b) = makers a ++ makers b.
Proof. unfold makers. apply flat_map_app. Qed.

Lemma In_makers p m levels :
  In (p, m) (makers levels) -> exists q, In (p, q) levels /\ In m q.
Proof.
  unfold makers. rewrite in_flat_map. intros ([p' q] & Hl & Hm).
  apply in_map_iff in Hm as (m' & [= <- <-] & Hm). eauto.
Qed.

Lemma In_priority side b x : In x (priority side b) -> In x (opposite side b).
Proof.
  unfold priority, opposite. destruct (String.eqb side "buy"); [auto|].
  intros H. apply in_rev in H. exact H.
Qed.

(** ** C5: price-time priority *)

(** C5: the trades of a submission take the resting orders of the opposite
    side in price-time priority: the j-th trade is made with the j-th maker,
    counting from the best price and, within a level, from the head of its
    queue, and every trade but the last takes its maker whole. So, of two
    orders resting at one price, the one inserted first is filled, and
    entirely, before the other gets a trade. *)
Theorem price_time_priority env order user st oid trades :
  let side := lower (oi_side order) in
  let book := book_for order st in
  SortedDict.sorted (opposite side book) = true ->
  out_result (submit_order env order user st)
    = Returned [("order_id", VStr oid); ("trades", VTrades trades)] ->
  (forall j t,
     trades !! j = Some t ->
     exists m,
       makers (priority side book) !! j = Some (tr_price t, m) /\
       maker_order_id t = ro_order_id m /\
       (S j < length trades -> tr_quantity t = ro_quantity m)%nat) /\
  (forall better p q1 o1 q2 o2 q3 worse,
     priority side book = better ++ (p, q1 ++ o1 :: q2 ++ o2 :: q3) :: worse ->
     NoDup (map (fun x => ro_order_id (snd x)) (makers (priority side book))) ->
     forall j t2,
       trades !! j = Some t2 ->
       maker_order_id t2 = ro_order_id o2 ->
       exists i t1,
         (i < j)%nat /\ trades !! i = Some t1 /\
         maker_order_id t1 = ro_order_id o1 /\
         tr_price t1 = p /\
         tr_quantity t1 = ro_quantity o1).
Proof.
  intros side book Hs Hres.
  destruct (submit_order_follows _ _ _ _ _ _ Hs Hres) as [Hf _].
  fold side book in Hf.
  assert (H1 : forall j t,
     trades !! j = Some t ->
     exists m,
       makers (priority side book) !! j = Some (tr_price t, m) /\
       maker_order_id t = ro_order_id m /\
       (S j < length trades -> tr_quantity t = ro_quantity m)%nat).
  { intros j t Hj. destruct (follows_lookup _ _ _ _ Hf Hj) as (m & ? & ? & _ & ?). eauto. }
  split; [exact H1|].
  intros better p q1 o1 q2 o2 q3 worse Hprio Hnd j t2 Hj Hid.
  set (F := makers (priority side book)) in *.
  set (i := (length (makers better) + length q1)%nat).
  set (j2 := (i + S (length q2))%nat).
  assert (HF : F = (makers better ++ map (pair p) q1) ++ (p, o1) ::
                   map (pair p) q2 ++ (p, o2) :: map (pair p) q3 ++ makers worse).
  { unfold F. rewrite Hprio, makers_app, makers_cons, !map_app. simpl.
    rewrite !map_app. simpl. rewrite <- !app_assoc. simpl.
    rewrite <- !app_assoc. reflexivity. }
  assert (Hi : F !! i = Some (p, o1)).
  { rewrite HF. rewrite lookup_app_r by (rewrite length_app, length_map; lia).
    replace (i - _)%nat with O by (rewrite length_app, length_map; lia). reflexivity. }
  assert (Hj2 : F !! j2 = Some (p, o2)).
  { rewrite HF. rewrite lookup_app_r by (rewrite length_app, length_map; lia).
    replace (j2 - _)%nat with (S (length q2)) by (rewrite length_app, length_map; lia).
    simpl. rewrite lookup_app_r by (rewrite length_map; lia).
    rewrite length_map, Nat.sub_diag. reflexivity. }
  destruct (H1 j t2 Hj) as (m2 & HFj & Hm2 & _).
  assert (j = j2).
  { eapply NoDup_lookup; [exact Hnd| |].
    - change (map ?f F) with (f <$> F). rewrite list_lookup_fmap, HFj. reflexivity.
    - change (map ?f F) with (f <$> F). rewrite list_lookup_fmap, Hj2. simpl.
      congruence. }
  subst j.
  assert (Hlen : (j2 < length trades)%nat) by (apply lookup_lt_Some in Hj; exact Hj).
  destruct (lookup_lt_is_Some_2 trades i ltac:(lia)) as [t1 Ht1].
  destruct (H1 i t1 Ht1) as (m1 & HFi & Hm1 & Hq1).
  rewrite Hi in HFi. injection HFi as [= Hp <-].
  exists i, t1. repeat split; auto; try lia.
Qed.

Lemma price_time_priority_witness :
  SortedDict.sorted
    (opposite (lower "buy") (book_for (order_of "market" "buy" 15 None) two_asks)) = true /\
  out_result (submit "T" "market" "buy" 15 None two_asks)
    = Returned [("order_id", VStr "ORDER-T");
                ("trades", VTrades [trade_T 0 100 10 "ORDER-A"; trade_T 1 100 5 "ORDER-B"])] /\
  exists i t1,
    (i < 1)%nat /\
    [trade_T 0 100 10 "ORDER-A"; trade_T 1 100 5 "ORDER-B"] !! i = Some t1 /\
    maker_order_id t1 = "ORDER-A" /\ tr_price t1 = 100 /\ tr_quantity t1 = 10.
Proof.
  assert (Hs : SortedDict.sorted
            (opposite (lower "buy") (book_for (order_of "market" "buy" 15 None) two_asks))
          = true) by (vm_compute; reflexivity).
  assert (Hres : out_result (submit "T" "market" "buy" 15 None two_asks)
           = Returned [("order_id", VStr "ORDER-T");
                       ("trades", VTrades [trade_T 0 100 10 "ORDER-A";
                                           trade_T 1 100 5 "ORDER-B"])])
    by (vm_compute; reflexivity).
  split; [exact Hs|]. split; [exact Hres|].
  refine (proj2 (price_time_priority (env_of "T") (order_of "market" "buy" 15 None)
                   alice two_asks _ _ Hs Hres)
            [] 100 [] (mkResting "ORDER-A" 10) [] (mkResting "ORDER-B" 10) [] []
            _ _ 1%nat (trade_T 1 100 5 "ORDER-B") eq_refl eq_refl).
  - vm_compute. reflexivity.
  - vm_compute. repeat constructor; intros H; repeat (inversion H; subst; clear H);
      try match goal with H : _ ∈ _ |- _ => inversion H end.
Defined.

(** ** C6: trades execute at the maker's price *)

(** C6: every trade of a submission is priced at the price of the level
    its maker rests at, and that price is never worse for the taker than
    its limit: at most the limit of a buy, at least the limit of a sell. *)
Theorem trade_at_maker_price env order user st oid trades t :
  let side := lower (oi_side order) in
  let book := book_for order st in
  SortedDict.sorted (opposite side book) = true ->
  out_result (submit_order env order user st)
    = Returned [("order_id", VStr oid); ("trades", VTrades trades)] ->
  In t trades ->
  (exists queue maker,
     In (tr_price t, queue) (opposite side book) /\
     In maker queue /\
     maker_order_id t = ro_order_id maker) /\
  match working_price order with
  | Some limit =>
      if String.eqb side "buy" then tr_price t <= limit else limit <= tr_price t
  | None => True
  end.
Proof.
  intros side book Hs Hres Hin.
  destruct (submit_order_follows _ _ _ _ _ _ Hs Hres) as [Hf Hm].
  fold side book in Hf, Hm. split.
  - apply list_elem_of_In, list_elem_of_lookup in Hin as [j Hj].
    destruct (follows_lookup _ _ _ _ Hf Hj) as (m & HF & Hid & _).
    apply list_elem_of_lookup_2, list_elem_of_In, In_makers in HF as (q & Hq & Hmq).
    exists q, m. split; [apply In_priority, Hq|]. auto.
  - rewrite List.Forall_forall in Hm. specialize (Hm t Hin).
    unfold marketable in Hm. destruct (working_price order); [|exact I].
    destruct (String.eqb side "buy"); lia.
Qed.

Lemma trade_at_maker_price_witness :
  SortedDict.sorted
    (opposite (lower "buy") (book_for (order_of "limit" "buy" 10 (Some 105)) one_ask)) = true /\
  out_result (submit "T" "limit" "buy" 10 (Some 105) one_ask)
    = Returned [("order_id", VStr "ORDER-T");
                ("trades", VTrades [trade_T 0 100 10 "ORDER-A"])] /\
  exists queue maker,
    In (tr_price (trade_T 0 100 10 "ORDER-A"), queue)
       (opposite (lower "buy") (book_for (order_of "limit" "buy" 10 (Some 105)) one_ask)) /\
    In maker queue /\
    maker_order_id (trade_T 0 100 10 "ORDER-A") = ro_order_id maker.
Proof.
  assert (Hs : SortedDict.sorted
            (opposite (lower "buy")
               (book_for (order_of "limit" "buy" 10 (Some 105)) one_ask)) = true)
    by (vm_compute; reflexivity).
  assert (Hres : out_result (submit "T" "limit" "buy" 10 (Some 105) one_ask)
           = Returned [("order_id", VStr "ORDER-T");
                       ("trades", VTrades [trade_T 0 100 10 "ORDER-A"])])
    by (vm_compute; reflexivity).
  split; [exact Hs|]. split; [exact Hres|].
  exact (proj1 (trade_at_maker_price (env_of "T") (order_of "limit" "buy" 10 (Some 105))
                  alice one_ask _ _ (trade_T 0 100 10 "ORDER-A")
                  Hs Hres (or_introl eq_refl))).
Defined.

(** ** Sums over a book *)

Lemma sum_quantity_acc q a :
  fold_left (fun acc o => acc + ro_quantity o) q a = a + sum_quantity q.
Proof.
  unfold sum_quantity. revert a. induction q as [|o q IH]; intros a; simpl; [lia|].
  rewrite (IH (a + ro_quantity o)), (IH (0 + ro_quantity o)). lia.
Qed.

Lemma sum_quantity_cons o q : sum_quantity (o :: q) = ro_quantity o + sum_quantity q.
Proof. unfold sum_quantity at 1. simpl. apply sum_quantity_acc. Qed.

Lemma sum_quantity_queue_after remaining m r :
  sum_quantity (queue_after remaining (m :: r))
  = sum_quantity (m :: r) - Z.min remaining (ro_quantity m).
Proof.
  rewrite queue_after_cons, sum_quantity_cons.
  destruct (ro_quantity m - Z.min remaining (ro_quantity m) =? 0) eqn:E.
  - apply Z.eqb_eq in E. lia.
  - rewrite sum_quantity_cons. simpl. lia.
Qed.

Lemma total_alter g f k (d : SortedDict.t deque) q :
  SortedDict.getitem k d = Some q ->
  total g (SortedDict.alter f k d) = total g d - g k q + g k (f q).
Proof.
  induction d as [|[k' v] r IH]; simpl; [discriminate|].
  destruct (k =? k') eqn:E; simpl.
  - apply Z.eqb_eq in E. subst k'. intros [= ->]. lia.
  - intros H. rewrite (IH H). lia.
Qed.

Lemma total_delitem g k (d : SortedDict.t deque) q :
  SortedDict.getitem k d = Some q ->
  total g (SortedDict.delitem k d) = total g d - g k q.
Proof.
  induction d as [|[k' v] r IH]; simpl; [discriminate|].
  destruct (k =? k') eqn:E; simpl.
  - apply Z.eqb_eq in E. subst k'. intros [= ->]. lia.
  - intros H. rewrite (IH H). lia.
Qed.


Lemma total_level_becomes g k nq (d : SortedDict.t deque) q :
  g k [] = 0 ->
  SortedDict.getitem k d = Some q ->
  total g (level_becomes k nq d) = total g d - g k q + g k nq.
Proof.
  intros H0 Hg. unfold level_becomes. destruct nq as [|o nq].
  - rewrite (total_delitem _ _ _ _ Hg), H0. lia.
  - apply (total_alter g (fun _ => o :: nq) _ _ _ Hg).
Qed.

Lemma total_zero g (d : SortedDict.t deque) :
  (forall k q, In (k, q) d -> g k q = 0) -> total g d = 0.
Proof.
  induction d as [|[k q] r IH]; simpl; intros H; [reflexivity|].
  rewrite (H k q) by auto. rewrite IH; [reflexivity|]. intros; apply H; auto.
Qed.

Lemma fold_left_total (c : Z -> bool) (d : SortedDict.t deque) a :
  fold_left
    (fun available '(p, queue) =>
       if c p then available + sum_quantity queue else available) d a
  = a + total (fun p q => if c p then sum_quantity q else 0) d.
Proof.
  revert a. induction d as [|[p q] r IH]; intros a; simpl; [lia|].
  rewrite IH. destruct (c p); lia.
Qed.

(** The pre-check of line 144-153 computes the marketable quantity. *)
Lemma fok_available_total side price book :
  fok_available side price book = marketable_quantity side price book.
Proof.
  unfold fok_available, marketable_quantity, marketable, opposite, SortedDict.items.
  destruct (String.eqb side "buy").
  - rewrite (fold_left_total
               (fun p => match price with None => true | Some l => p <=? l end)).
    simpl. f_equal.
  - rewrite (fold_left_total
               (fun p => match price with None => true | Some l => p >=? l end)).
    simpl. f_equal.
Qed.

(** When the loop cannot select a level, nothing is marketable. *)
Lemma nothing_marketable side price book :
  SortedDict.sorted (opposite side book) = true ->
  select_level side price book = None ->
  marketable_quantity side price book = 0.
Proof.
  intros Hs Hsel. unfold marketable_quantity. apply total_zero. intros k q Hin.
  destruct price as [rp|].
  - pose proof (unmatched_all _ _ _ Hs Hsel k) as H.
    assert (Hk : In k (SortedDict.keys (opposite side book))).
    { unfold SortedDict.keys. apply (in_map fst _ _ Hin). }
    specialize (H Hk). unfold marketable.
    destruct (String.eqb side "buy").
    + replace (k <=? rp) with false by lia. reflexivity.
    + replace (k >=? rp) with false by lia. reflexivity.
  - apply select_level_none in Hsel. unfold priority, opposite in *.
    destruct (String.eqb side "buy").
    + destruct (asks book) as [|[] ?]; [destruct Hin|discriminate].
    + destruct (rev (bids book)) as [|[] ?] eqn:Er; [|discriminate].
      apply (f_equal (@rev _)) in Er. rewrite rev_involutive in Er.
      rewrite Er in Hin. destruct Hin.
Qed.

Lemma traded_quantity_app ts ts' :
  traded_quantity (ts ++ ts') = traded_quantity ts + traded_quantity ts'.
Proof.
  unfold traded_quantity. induction ts as [|t ts IH]; simpl; [reflexivity|].
  rewrite IH. lia.
Qed.

(** ** The collections *)

Lemma find_one_update_one oid f docs :
  (forall d, doc_order_id (f d) = doc_order_id d) ->
  find_one oid (update_one oid f docs) = f <$> find_one oid docs.
Proof.
  intros Hf. induction docs as [|d r IH]; simpl; [reflexivity|].
  destruct (String.eqb (doc_order_id d) oid) eqn:E; simpl.
  - rewrite Hf, E. reflexivity.
  - rewrite E. exact IH.
Qed.

Lemma find_one_update_one_ne oid oid' f docs :
  (forall d, doc_order_id (f d) = doc_order_id d) ->
  oid <> oid' ->
  find_one oid (update_one oid' f docs) = find_one oid docs.
Proof.
  intros Hf Hne. induction docs as [|d r IH]; simpl; [reflexivity|].
  destruct (String.eqb (doc_order_id d) oid') eqn:E; simpl.
  - rewrite Hf. apply String.eqb_eq in E.
    destruct (String.eqb (doc_order_id d) oid) eqn:E'; [|reflexivity].
    apply String.eqb_eq in E'. congruence.
  - rewrite IH. reflexivity.
Qed.

Lemma find_one_update_one_is_Some oid oid' f docs :
  (forall d, doc_order_id (f d) = doc_order_id d) ->
  is_Some (find_one oid docs) -> is_Some (find_one oid (update_one oid' f docs)).
Proof.
  intros Hf H. destruct (decide (oid = oid')) as [<-|Hne].
  - rewrite find_one_update_one by exact Hf. destruct H as [d ->]. simpl. eauto.
  - rewrite find_one_update_one_ne by assumption. exact H.
Qed.

Lemma find_one_insert_one oid d docs :
  doc_order_id d = oid -> is_Some (find_one oid (insert_one d docs)).
Proof.
  intros Hd. unfold insert_one. induction docs as [|x r IH]; simpl.
  - rewrite Hd, String.eqb_refl. eauto.
  - destruct (String.eqb (doc_order_id x) oid); eauto.
Qed.

Lemma maker_update_id q d : doc_order_id (maker_update q d) = doc_order_id d.
Proof. unfold maker_update. destruct (q =? 0); reflexivity. Qed.

Lemma order_status_db_update oid s st :
  is_Some (find_one oid (orders_collection st)) ->
  order_status oid (db_update oid (set_status s) st) = Some s.
Proof.
  intros [d Hd]. unfold order_status, db_update. cbn [orders_collection set_orders].
  rewrite find_one_update_one by reflexivity. rewrite Hd. reflexivity.
Qed.

(** ** What the loop does to the collections *)

Lemma run_match_loop_effects env lc lp0 :
  let lp := fst (run_match_loop env lc lp0) in
  (exists new,
     lp_trades lp = lp_trades lp0 ++ new /\
     trades_collection (lp_st lp) = trades_collection (lp_st lp0) ++ new /\
     broadcasts (lp_st lp) = broadcasts (lp_st lp0) ++ new) /\
  (forall oid, is_Some (find_one oid (orders_collection (lp_st lp0))) ->
               is_Some (find_one oid (orders_collection (lp_st lp)))) /\
  (forall key, key <> upper (lc_symbol lc) ->
               book_at key (lp_st lp) = book_at key (lp_st lp0)).
Proof.
  set (P := fun lp : Loop =>
    (exists new,
       lp_trades lp = lp_trades lp0 ++ new /\
       trades_collection (lp_st lp) = trades_collection (lp_st lp0) ++ new /\
       broadcasts (lp_st lp) = broadcasts (lp_st lp0) ++ new) /\
    (forall oid, is_Some (find_one oid (orders_collection (lp_st lp0))) ->
                 is_Some (find_one oid (orders_collection (lp_st lp)))) /\
    (forall key, key <> upper (lc_symbol lc) ->
                 book_at key (lp_st lp) = book_at key (lp_st lp0))).
  apply (run_match_loop_rule P (fun lp _ => P lp)).
  - auto.
  - intros lp HP Hrem.
    destruct (loop_body_cases env lc lp)
      as [[Hsel ->]|[(e & lp' & -> & Hst & Htr & _)
                    |(p & m & r & lp' & Hsel & -> & Hst & Hr & Htr & _)]].
    + exact HP.
    + unfold P. rewrite Hst, Htr. exact HP.
    + assert (HP' : P lp').
      { destruct HP as ((new & Ht & Htc & Hbc) & Hfind & Hbook).
        unfold P. rewrite Hst, Htr. cbn [state_after_match trades_collection broadcasts
                                          orders_collection]. split; [|split].
        - eexists (new ++ [_]). rewrite Ht, Htc, Hbc, <- !app_assoc. auto.
        - intros oid Ho. apply find_one_update_one_is_Some; [apply maker_update_id|].
          apply Hfind, Ho.
        - intros key Hne. rewrite <- (Hbook key Hne).
          unfold state_after_match, book_at. cbn [order_books].
          rewrite lookup_insert_ne by congruence. reflexivity. }
      destruct (String.eqb (lc_typ lc) "ioc"); exact HP'.
  - unfold P. split; [exists []; rewrite !app_nil_r; auto|]. auto.
Qed.

(** ** An order that can be filled is filled *)

Lemma no_empty_level_becomes k nq (d : SortedDict.t deque) :
  SortedDict.sorted d = true ->
  no_empty_level d -> no_empty_level (level_becomes k nq d).
Proof.
  intros Hs Hn. unfold level_becomes, no_empty_level in *. destruct nq as [|o nq].
  - apply Forall_delitem, Hn.
  - rewrite List.Forall_forall in Hn.
    apply Forall_alter_sorted; [exact Hs|auto|]. intros v _. discriminate.
Qed.

Lemma run_match_loop_fills env lc lp0 :
  let bk := fun lp : Loop => book_at (upper (lc_symbol lc)) (lp_st lp) in
  String.eqb (lc_typ lc) "ioc" = false ->
  SortedDict.sorted (opposite (lc_side lc) (bk lp0)) = true ->
  no_empty_level (opposite (lc_side lc) (bk lp0)) ->
  0 <= lp_remaining lp0 <= marketable_quantity (lc_side lc) (lc_price lc) (bk lp0) ->
  snd (run_match_loop env lc lp0) = None /\
  lp_remaining (fst (run_match_loop env lc lp0)) = 0 /\
  traded_quantity (lp_trades (fst (run_match_loop env lc lp0)))
  = traded_quantity (lp_trades lp0) + lp_remaining lp0.
Proof.
  intros bk Hioc Hs0 Hn0 Hr0.
  set (MQ := fun lp => marketable_quantity (lc_side lc) (lc_price lc) (bk lp)).
  set (P := fun lp : Loop =>
     SortedDict.sorted (opposite (lc_side lc) (bk lp)) = true /\
     no_empty_level (opposite (lc_side lc) (bk lp)) /\
     0 <= lp_remaining lp <= MQ lp /\
     traded_quantity (lp_trades lp) + lp_remaining lp
     = traded_quantity (lp_trades lp0) + lp_remaining lp0).
  apply (run_match_loop_rule P
           (fun lp e => e = None /\ lp_remaining lp = 0 /\
                        traded_quantity (lp_trades lp)
                        = traded_quantity (lp_trades lp0) + lp_remaining lp0)).
  - intros lp (_ & _ & Hr & Ht) Hle. split; [reflexivity|]. split; lia.
  - intros lp (Hs & Hn & Hr & Ht) Hrem.
    destruct (loop_body_cases env lc lp)
      as [[Hsel ->]|[(e & lp' & -> & _ & _ & _ & _ & p & Hsel & _)
                    |(p & m & r & lp' & Hsel & -> & Hst & Hrm & Htr & _)]].
    + exfalso. pose proof (nothing_marketable _ _ _ Hs Hsel) as H0.
      unfold MQ, bk in Hr, H0. lia.
    + exfalso. apply select_level_some in Hsel as (_ & Hget & _).
      symmetry in Hget. apply SDF.getitem_In in Hget.
      unfold no_empty_level in Hn. rewrite List.Forall_forall in Hn.
      apply (Hn _ Hget). reflexivity.
    + rewrite Hioc.
      pose proof (select_level_some _ _ _ _ _ Hsel) as (Hmk & Hget & _).
      symmetry in Hget. fold (bk lp) in Hget.
      assert (Hbk : bk lp' = on_opposite (lc_side lc)
                (level_becomes p (queue_after (lp_remaining lp) (m :: r))) (bk lp)).
      { unfold bk. rewrite Hst. apply book_at_state_after_match. }
      unfold P, MQ. rewrite Hbk. unfold marketable_quantity.
      rewrite on_opposite_opposite.
      split; [apply sorted_level_becomes, Hs|].
      split; [apply no_empty_level_becomes; assumption|].
      assert (Hg0 : (if marketable (lc_side lc) (lc_price lc) p
                     then sum_quantity [] else 0) = 0)
        by (destruct (marketable _ _ _); reflexivity).
      rewrite (total_level_becomes
                 (fun (p : Z) (q : deque) =>
                    if marketable (lc_side lc) (lc_price lc) p
                    then sum_quantity q else 0) p _ _ _ Hg0 Hget).
      rewrite Hmk, sum_quantity_queue_after, Hrm, Htr, traded_quantity_app.
      unfold MQ, marketable_quantity in Hr.
      unfold traded_quantity at 2. cbn [fold_right trade_of tr_quantity].
      unfold bk in *. lia.
  - unfold P, MQ. auto.
Qed.

(** ** Fill-or-kill on exact quantities *)

Lemma submit_start_collections env order user st :
  trades_collection (submit_start env order user st) = trades_collection st /\
  broadcasts (submit_start env order user st) = broadcasts st /\
  is_Some (find_one ("ORDER-" +:+ uuid_order env)
             (orders_collection (submit_start env order user st))).
Proof.
  unfold submit_start.
  destruct (get_order_book_collections (upper (oi_symbol order))
              (set_orders (insert_one (new_order_doc env order user) (orders_collection st)) st))
    as (Ho & Ht & Hb).
  rewrite Ho, Ht, Hb. cbn [set_orders trades_collection broadcasts orders_collection].
  repeat split. apply find_one_insert_one. reflexivity.
Qed.

Lemma handle_remaining_filled lc lp :
  lp_remaining lp = 0 ->
  fst (handle_remaining lc lp)
  = db_update (lc_order_id lc) (set_status "filled") (lp_st lp).
Proof. intros H. unfold handle_remaining. rewrite H. reflexivity. Qed.

(** On exact quantities a fill-or-kill order is all or nothing. When the
    quantity resting at the marketable levels of the opposite side is less
    than the quantity asked for, the order is cancelled, no trade is made
    and no book changes; otherwise the trades add up to exactly the quantity
    asked for and the order is filled. The code computes on floating-point
    numbers, where this fails: see the next section. *)
Theorem fill_or_kill env order user st :
  let side := lower (oi_side order) in
  let book := book_for order st in
  let oid := "ORDER-" +:+ uuid_order env in
  let out := submit_order env order user st in
  lower (oi_order_type order) = "fok" ->
  accepted order ->
  SortedDict.sorted (opposite side book) = true ->
  no_empty_level (opposite side book) ->
  (marketable_quantity side (oi_price order) book < oi_quantity order ->
   out_result out
     = Returned [("order_id", VStr oid); ("status", VStr "cancelled");
                 ("filled", VBool false)] /\
   (forall key, book_at key (out_state out) = book_at key st) /\
   trades_collection (out_state out) = trades_collection st /\
   order_status oid (out_state out) = Some "cancelled") /\
  (oi_quantity order <= marketable_quantity side (oi_price order) book ->
   exists trades,
     out_result out = Returned [("order_id", VStr oid); ("trades", VTrades trades)] /\
     traded_quantity trades = oi_quantity order /\
     trades_collection (out_state out) = trades_collection st ++ trades /\
     order_status oid (out_state out) = Some "filled").
Proof.
  intros side book oid out Htyp Hacc Hs Hn.
  assert (Hwp : working_price order = oi_price order).
  { unfold working_price. rewrite Htyp. reflexivity. }
  destruct (submit_start_collections env order user st) as (Htc & _ & Hfind).
  pose proof (submit_loop_book env order user st) as Hbook.
  fold book in Hbook.
  unfold out. rewrite (submit_order_accepted _ _ _ _ Hacc). cbv zeta.
  set (lc := submit_locals env order) in *.
  set (lp0 := submit_loop env order user st) in *.
  assert (Hlt : lc_typ lc = "fok") by exact Htyp.
  assert (Hls : lc_side lc = side) by reflexivity.
  assert (Hlp : lc_price lc = oi_price order) by exact Hwp.
  assert (Hlo : lc_order_id lc = oid) by reflexivity.
  rewrite fok_available_total, Hbook, Hlt, Hls, Hlp, Hlo.
  simpl String.eqb. cbn [andb].
  split.
  - intros Hlt'. replace (_ <? _) with true by lia.
    cbn [out_result out_state]. split; [reflexivity|].
    split; [|split].
    + intros key. rewrite book_at_db_update. apply submit_start_book_at.
    + exact Htc.
    + apply order_status_db_update. exact Hfind.
  - intros Hle. replace (_ <? _) with false by lia.
    destruct (run_match_loop_fills env lc lp0) as (He & Hrem & Hq).
    { rewrite Hlt. reflexivity. }
    { rewrite Hbook, Hls. exact Hs. }
    { rewrite Hbook, Hls. exact Hn. }
    { rewrite Hbook, Hls, Hlp. cbn [lp_remaining lp0 submit_loop].
      destruct Hacc. lia. }
    destruct (run_match_loop_effects env lc lp0) as ((new & Htr & Htc' & _) & Hfind' & _).
    rewrite He. cbn [out_result out_state].
    exists (lp_trades (fst (run_match_loop env lc lp0))).
    split; [reflexivity|]. split; [|split].
    + rewrite Hq. reflexivity.
    + rewrite (handle_remaining_filled _ _ Hrem). cbn [db_update set_orders trades_collection].
      rewrite Htc', Htr. cbn [lp0 submit_loop lp_st lp_trades]. rewrite Htc. reflexivity.
    + rewrite (handle_remaining_filled _ _ Hrem), Hlo.
      apply order_status_db_update, Hfind', Hfind.
Qed.

Lemma fill_or_kill_witness :
  lower (oi_order_type (order_of "fok" "buy" 15 (Some 100))) = "fok" /\
  accepted (order_of "fok" "buy" 15 (Some 100)) /\
  SortedDict.sorted
    (opposite (lower "buy") (book_for (order_of "fok" "buy" 15 (Some 100)) two_asks)) = true /\
  no_empty_level
    (opposite (lower "buy") (book_for (order_of "fok" "buy" 15 (Some 100)) two_asks)) /\
  exists trades,
    out_result (submit "T" "fok" "buy" 15 (Some 100) two_asks)
      = Returned [("order_id", VStr "ORDER-T"); ("trades", VTrades trades)] /\
    traded_quantity trades = 15 /\
    trades_collection (out_state (submit "T" "fok" "buy" 15 (Some 100) two_asks))
      = trades_collection two_asks ++ trades /\
    order_status "ORDER-T" (out_state (submit "T" "fok" "buy" 15 (Some 100) two_asks))
      = Some "filled".
Proof.
  assert (H1 : lower (oi_order_type (order_of "fok" "buy" 15 (Some 100))) = "fok")
    by reflexivity.
  assert (H2 : accepted (order_of "fok" "buy" 15 (Some 100)))
    by (split; [reflexivity|discriminate]).
  assert (H3 : SortedDict.sorted
            (opposite (lower "buy")
               (book_for (order_of "fok" "buy" 15 (Some 100)) two_asks)) = true)
    by (vm_compute; reflexivity).
  assert (H4 : no_empty_level
            (opposite (lower "buy")
               (book_for (order_of "fok" "buy" 15 (Some 100)) two_asks)))
    by (vm_compute; repeat constructor; discriminate).
  repeat (split; [assumption|]).
  apply (proj2 (fill_or_kill (env_of "T") (order_of "fok" "buy" 15 (Some 100))
                  alice two_asks H1 H2 H3 H4)).
  vm_compute. discriminate.
Defined.

(** ** C3: fill-or-kill on the floating-point numbers of the code *)

Section FillOrKillOnFloats.
Import PrimFloat.

(** C3, on the code: with the asks A of 1.0 and B of 0.1 at 100, a
    fill-or-kill buy of 1.1 at 100 passes the check of line 154, the sum
    1.0 + 0.1 being 1.1; it trades 1.0 with A and 0.1 with B and empties
    the book, and is then written cancelled, the difference 1.1 - 1.0 - 0.1
    being above zero at line 214. With the asks A of 0.7 and B of 0.1, a
    fill-or-kill buy of 0.8 is cancelled without a trade, the sum
    0.7 + 0.1 being 0.7999999999999999. *)
Theorem fok_traded_and_cancelled :
  let st := Binary64.two_asks 1%float 0.1%float in
  let out := st ≫= Binary64.submit "T" "fok" "buy" 1.1%float (Some 100%float) in
  let st' := Binary64.two_asks 0.7%float 0.1%float in
  let out' := st' ≫= Binary64.submit "T" "fok" "buy" 0.8%float (Some 100%float) in
  ((Binary64.fok_available "buy" (Some 100%float) ∘ Binary64.book_at "BTC-USD" <$> st)
   = Some 1.1%float /\
   (Binary64.out_result <$> out)
   = Some (Binary64.Returned
             [("order_id", Binary64.VStr "ORDER-T");
              ("trades", Binary64.VTrades [Binary64.trade_T 0%nat 1%float "ORDER-A";
                                           Binary64.trade_T 1%nat 0.1%float "ORDER-B"])]) /\
   (out ≫= fun o =>
      Binary64.doc_status
        <$> Binary64.find_one "ORDER-T" (Binary64.orders_collection (Binary64.out_state o)))
   = Some "cancelled" /\
   (Binary64.book_at "BTC-USD" ∘ Binary64.out_state <$> out) = Some Binary64.empty_book) /\
  ((Binary64.asks ∘ Binary64.book_at "BTC-USD" <$> st')
   = Some [(100%float, [Binary64.mkResting "ORDER-A" 0.7%float;
              Binary64.mkResting "ORDER-B" 0.1%float])] /\
   (Binary64.fok_available "buy" (Some 100%float) ∘ Binary64.book_at "BTC-USD" <$> st')
   = Some 0.7999999999999999%float /\
   (Binary64.out_result <$> out')
   = Some (Binary64.Returned
             [("order_id", Binary64.VStr "ORDER-T");
              ("status", Binary64.VStr "cancelled");
              ("filled", Binary64.VBool false)]) /\
   (Binary64.trades_collection ∘ Binary64.out_state <$> out') = Some [] /\
   (Binary64.book_at "BTC-USD" ∘ Binary64.out_state <$> out')
   = (Binary64.book_at "BTC-USD" <$> st')).
Proof. vm_compute. repeat split; reflexivity. Qed.

End FillOrKillOnFloats.

(** ** C7: cancellation *)

Lemma resting_eqb_refl o : resting_eqb o o = true.
Proof. unfold resting_eqb. rewrite String.eqb_refl, Z.eqb_refl. reflexivity. Qed.

Lemma remove_order_split oid q1 o q2 :
  ro_order_id o = oid ->
  (forall x, In x q1 -> ro_order_id x <> oid) ->
  remove_order oid (q1 ++ o :: q2) = q1 ++ q2.
Proof.
  intros Ho Hq1. unfold remove_order.
  assert (Hfind : List.find (fun x => String.eqb (ro_order_id x) oid) (q1 ++ o :: q2)
                  = Some o).
  { induction q1 as [|x r IH]; simpl.
    - rewrite Ho, String.eqb_refl. reflexivity.
    - destruct (String.eqb (ro_order_id x) oid) eqn:E.
      + apply String.eqb_eq in E. exfalso. apply (Hq1 x); simpl; auto.
      + apply IH. intros y Hy. apply Hq1. simpl. auto. }
  rewrite Hfind. clear Hfind.
  induction q1 as [|x r IH]; simpl.
  - rewrite resting_eqb_refl. reflexivity.
  - destruct (resting_eqb x o) eqn:E.
    + unfold resting_eqb in E. apply andb_true_iff in E as [E _].
      apply String.eqb_eq in E. exfalso. apply (Hq1 x); simpl; auto. congruence.
    + rewrite IH; [reflexivity|]. intros y Hy. apply Hq1. simpl. auto.
Qed.

Lemma terminal_status s :
  existsb (String.eqb s) ["filled"; "cancelled"] = true <->
  s = "filled" \/ s = "cancelled".
Proof.
  simpl. rewrite !orb_true_iff, !String.eqb_eq. intuition discriminate.
Qed.

(** The book and the status a successful cancellation leaves. *)
Lemma cancel_order_live cancel user st d :
  find_one (co_order_id cancel) (orders_collection st) = Some d ->
  existsb (String.eqb (doc_status d)) ["filled"; "cancelled"] = false ->
  let oid := co_order_id cancel in
  let key := upper (doc_symbol d) in
  let side := doc_side d in
  let out := cancel_order cancel user st in
  out_result out = Returned [("order_id", VStr oid); ("status", VStr "cancelled")] /\
  order_status oid (out_state out) = Some "cancelled" /\
  trades_collection (out_state out) = trades_collection st /\
  (forall key', key' <> key -> book_at key' (out_state out) = book_at key' st) /\
  opposite side (book_at key (out_state out)) = opposite side (book_at key st) /\
  own side (book_at key (out_state out))
  = match doc_price d with
    | None => own side (book_at key st)
    | Some price =>
        match SortedDict.getitem price (own side (book_at key st)) with
        | None => own side (book_at key st)
        | Some q => level_becomes price (remove_order oid q) (own side (book_at key st))
        end
    end.
Proof.
  intros Hfind Hlive oid key side out. unfold out, cancel_order.
  rewrite Hfind, Hlive. fold oid key side.
  pose proof (get_order_book_book (doc_symbol d) st) as Hb.
  pose proof (get_order_book_book_at (doc_symbol d) st) as Hat.
  pose proof (get_order_book_collections (doc_symbol d) st) as (Ho & Ht & _).
  destruct (get_order_book (doc_symbol d) st) as [st1 book].
  cbn [fst snd] in *. fold key in Hb. subst book.
  rewrite <- (Hat key). cbn [out_result out_state].
  split; [reflexivity|].
  assert (Hst : forall st2,
            orders_collection st2 = orders_collection st1 ->
            order_status oid (db_update oid (set_status "cancelled") st2) = Some "cancelled").
  { intros st2 H2. apply order_status_db_update. unfold oid. rewrite H2, Ho, Hfind. eauto. }
  destruct (doc_price d) as [price|].
  2:{ rewrite Hst by reflexivity. cbn [db_update set_orders trades_collection].
      repeat split; auto. intros key' _. rewrite book_at_db_update. apply Hat. }
  unfold SortedDict.contains.
  set (B := book_at key st1) in *.
  destruct (SortedDict.getitem price (own side B)) as [q|] eqn:Hq.
  2:{ rewrite Hst by reflexivity. cbn [db_update set_orders trades_collection].
      repeat split; auto. intros key' _. rewrite book_at_db_update. apply Hat. }
  rewrite book_at_put_book, on_own_own, SDF.getitem_alter, Hq. cbn [fmap option_fmap option_map].
  assert (Hfinal : forall b,
            opposite side b = opposite side B ->
            own side b = level_becomes price (remove_order oid q) (own side B) ->
            order_status oid (db_update oid (set_status "cancelled") (put_book key b st1))
              = Some "cancelled" /\
            trades_collection (db_update oid (set_status "cancelled") (put_book key b st1))
              = trades_collection st /\
            (forall key', key' <> key ->
               book_at key' (db_update oid (set_status "cancelled") (put_book key b st1))
               = book_at key' st) /\
            opposite side (book_at key (db_update oid (set_status "cancelled")
                                          (put_book key b st1))) = opposite side B /\
            own side (book_at key (db_update oid (set_status "cancelled")
                                     (put_book key b st1)))
            = level_becomes price (remove_order oid q) (own side B)).
  { intros b Hopp Hown. rewrite Hst by reflexivity.
    rewrite !book_at_db_update, book_at_put_book.
    cbn [db_update set_orders put_book set_books trades_collection].
    repeat split; auto. intros key' Hne.
    rewrite book_at_db_update, book_at_put_book_ne by congruence. apply Hat. }
  destruct (remove_order oid q) as [|o' q'] eqn:Hrm.
  - rewrite put_book_put_book, on_own_compose.
    apply Hfinal.
    + apply on_own_opposite.
    + rewrite on_own_own, SDF.delitem_alter. reflexivity.
  - apply Hfinal.
    + apply on_own_opposite.
    + rewrite on_own_own. unfold level_becomes. apply SDF.alter_ext.
      intros v Hv. rewrite Hq in Hv. injection Hv as <-. exact Hrm.
Qed.

(** ** C10: the caller of a cancellation *)

(** C10: [cancel_order] never looks at its caller: the outcome is the same
    for any two users, through the route for any two tokens that
    authenticate, and the order of one user is cancelled at the request of
    any other. *)
Theorem cancel_ignores_caller cancel st :
  (forall user1 user2, cancel_order cancel user1 st = cancel_order cancel user2 st) /\
  (forall token1 token2 user1 user2,
     get_current_user token1 = inr user1 ->
     get_current_user token2 = inr user2 ->
     post_cancel_order token1 cancel st = post_cancel_order token2 cancel st) /\
  (forall d caller,
     find_one (co_order_id cancel) (orders_collection st) = Some d ->
     doc_status d <> "filled" -> doc_status d <> "cancelled" ->
     doc_user d <> username caller ->
     out_result (cancel_order cancel caller st)
       = Returned [("order_id", VStr (co_order_id cancel)); ("status", VStr "cancelled")] /\
     order_status (co_order_id cancel) (out_state (cancel_order cancel caller st))
       = Some "cancelled").
Proof.
  split; [|split].
  - intros user1 user2. reflexivity.
  - intros token1 token2 user1 user2 H1 H2. unfold post_cancel_order.
    rewrite H1, H2. reflexivity.
  - intros d caller Hd Hf Hc _.
    assert (Hlive : existsb (String.eqb (doc_status d)) ["filled"; "cancelled"] = false).
    { destruct (existsb _ _) eqn:E; [|reflexivity].
      apply terminal_status in E. tauto. }
    destruct (cancel_order_live cancel caller st d Hd Hlive) as (Hres & Hst & _). auto.
Qed.

Lemma cancel_ignores_caller_witness :
  find_one "ORDER-X" (orders_collection one_bid)
    = Some (new_order_doc (env_of "X") (order_of "limit" "buy" 10 (Some 99)) alice) /\
  out_result (cancel_order (mkCancelOrder "ORDER-X") bob one_bid)
    = Returned [("order_id", VStr "ORDER-X"); ("status", VStr "cancelled")] /\
  order_status "ORDER-X" (out_state (cancel_order (mkCancelOrder "ORDER-X") bob one_bid))
    = Some "cancelled".
Proof.
  assert (Hd : find_one "ORDER-X" (orders_collection one_bid)
               = Some (new_order_doc (env_of "X") (order_of "limit" "buy" 10 (Some 99)) alice))
    by (vm_compute; reflexivity).
  split; [exact Hd|].
  exact (proj2 (proj2 (cancel_ignores_caller (mkCancelOrder "ORDER-X") one_bid))
           _ bob Hd ltac:(discriminate) ltac:(discriminate) ltac:(discriminate)).
Defined.

(** ** C2: the response of a submission *)

Lemma handle_remaining_status lc lp :
  is_Some (find_one (lc_order_id lc) (orders_collection (lp_st lp))) ->
  exists s,
    order_status (lc_order_id lc) (fst (handle_remaining lc lp)) = Some s /\
    (s = "filled" \/ s = "open" \/ s = "cancelled").
Proof.
  intros Hfind. unfold handle_remaining.
  assert (Hc : forall st', orders_collection st' = orders_collection (lp_st lp) ->
     exists s,
       order_status (lc_order_id lc)
         (db_update (lc_order_id lc) (set_status "cancelled") st') = Some s /\
       (s = "filled" \/ s = "open" \/ s = "cancelled")).
  { intros st' H'. exists "cancelled". split; [|auto].
    apply order_status_db_update. rewrite H'. exact Hfind. }
  destruct (lp_remaining lp >? 0).
  - destruct (String.eqb (lc_typ lc) "limit"); [|apply Hc; reflexivity].
    destruct (match lc_price lc with Some p => Some p | None => lp_match_price lp end);
      [|apply Hc; reflexivity].
    cbn [fst]. exists "open". split; [|auto].
    unfold order_status, db_update. cbn [set_orders orders_collection put_book set_books].
    rewrite find_one_update_one by reflexivity.
    destruct Hfind as [d ->]. reflexivity.
  - cbn [fst]. exists "filled". split; [|auto].
    apply order_status_db_update, Hfind.
Qed.

(** C2, as the code has it: a submission that returns, returns either the
    order identifier with the list of the executed trades, and no status,
    or, for a fill-or-kill order that cannot be filled, the order
    identifier with the status cancelled and the flag filled set to false,
    and no list of trades. The final status is written to the orders
    collection, where it is one of filled, open and cancelled. *)
Theorem submit_response env order user st resp :
  let oid := "ORDER-" +:+ uuid_order env in
  let out := submit_order env order user st in
  out_result out = Returned resp ->
  ((exists trades,
      resp = [("order_id", VStr oid); ("trades", VTrades trades)]) \/
   resp = [("order_id", VStr oid); ("status", VStr "cancelled");
           ("filled", VBool false)]) /\
  (field "trades" resp = None \/ field "status" resp = None) /\
  exists s,
    order_status oid (out_state out) = Some s /\
    (s = "filled" \/ s = "open" \/ s = "cancelled").
Proof.
  intros oid out Hres. unfold out in *.
  destruct (accepted_dec order) as [Ha|Hn].
  2:{ destruct (submit_order_rejected env order user st Hn) as [detail H].
      rewrite H in Hres. discriminate. }
  rewrite (submit_order_accepted _ _ _ _ Ha) in *. cbv zeta in *.
  destruct (submit_start_collections env order user st) as (_ & _ & Hfind).
  set (lc := submit_locals env order) in *.
  set (lp0 := submit_loop env order user st) in *.
  change (lc_order_id lc) with oid in *.
  destruct (_ && _).
  - cbn [out_result out_state] in *. injection Hres as <-.
    split; [right; reflexivity|]. split; [left; reflexivity|].
    exists "cancelled". split; [|auto]. apply order_status_db_update, Hfind.
  - destruct (run_match_loop_effects env lc lp0) as (_ & Hfind' & _).
    destruct (snd (run_match_loop env lc lp0)); [discriminate|].
    cbn [out_result out_state] in *. injection Hres as <-.
    split; [left; eauto|]. split; [right; reflexivity|].
    apply (handle_remaining_status lc). apply Hfind', Hfind.
Qed.

Lemma submit_response_witness :
  out_result (submit "A" "limit" "sell" 10 (Some 100) initial_state)
    = Returned [("order_id", VStr "ORDER-A"); ("trades", VTrades [])] /\
  exists s,
    order_status "ORDER-A" (out_state (submit "A" "limit" "sell" 10 (Some 100) initial_state))
      = Some s /\
    (s = "filled" \/ s = "open" \/ s = "cancelled").
Proof.
  assert (H : out_result (submit "A" "limit" "sell" 10 (Some 100) initial_state)
              = Returned [("order_id", VStr "ORDER-A"); ("trades", VTrades [])])
    by (vm_compute; reflexivity).
  split; [exact H|].
  exact (proj2 (proj2 (submit_response (env_of "A") (order_of "limit" "sell" 10 (Some 100))
                         alice initial_state _ H))).
Defined.

(** The response of an accepted limit order has no status: it is not a
    result with the three fields. *)
Lemma submit_response_lacks_status :
  accepted (order_of "limit" "sell" 10 (Some 100)) /\
  out_result (submit "A" "limit" "sell" 10 (Some 100) initial_state)
    = Returned [("order_id", VStr "ORDER-A"); ("trades", VTrades [])] /\
  ~ submission_result [("order_id", VStr "ORDER-A"); ("trades", VTrades [])].
Proof.
  split; [split; [reflexivity|discriminate]|].
  split; [vm_compute; reflexivity|].
  intros (_ & _ & s & Hs & _). discriminate.
Qed.

(** ** C1: immediate-or-cancel *)

(** An immediate-or-cancel order leaves the loop after its first trade. *)
Lemma ioc_at_most_one_trade env lc lp0 :
  String.eqb (lc_typ lc) "ioc" = true ->
  lp_trades lp0 = [] ->
  (length (lp_trades (fst (run_match_loop env lc lp0))) <= 1)%nat.
Proof.
  intros Hioc H0.
  apply (run_match_loop_rule
           (fun lp => lp_trades lp = [])
           (fun lp _ => (length (lp_trades lp) <= 1)%nat)).
  - intros lp -> _. simpl. lia.
  - intros lp Hlp _.
    destruct (loop_body_cases env lc lp)
      as [[_ ->]|[(e & lp' & -> & _ & Htr & _)
                |(p & m & r & lp' & _ & -> & _ & _ & Htr & _)]].
    + rewrite Hlp. simpl. lia.
    + rewrite Htr, Hlp. simpl. lia.
    + rewrite Hioc, Htr, Hlp. simpl. lia.
  - exact H0.
Qed.

(** C1, on the code: an immediate-or-cancel buy of 2.0 at 100 against the
    asks A and B of 1.0 each at 100 trades with A only; the remaining 1.0 is
    cancelled although B is marketable, and B keeps its 1.0. *)
Theorem ioc_stops_after_first_maker :
  let out := submit "T" "ioc" "buy" 20 (Some 100) two_asks in
  marketable_quantity "buy" (Some 100) (book_at "BTC-USD" two_asks) = 20 /\
  out_result out
    = Returned [("order_id", VStr "ORDER-T");
                ("trades", VTrades [trade_T 0 100 10 "ORDER-A"])] /\
  order_status "ORDER-T" (out_state out) = Some "cancelled" /\
  book_at "BTC-USD" (out_state out)
    = {| bids := []; asks := [(100, [mkResting "ORDER-B" 10])] |}.
Proof. vm_compute. auto. Qed.

(** ** C9: where the requests are suspended *)









(** ** The quantities of an order *)














(** *** The quantity resting over all books *)






(** *** The quantity traded *)



Lemma maker_quantity_nonneg x ts :
  Forall (fun t => 0 < tr_quantity t) ts -> 0 <= maker_quantity x ts.
Proof.
  unfold maker_quantity. induction 1 as [|t ts Ht _ IH]; simpl; [reflexivity|].
  destruct (String.eqb (maker_order_id t) x); lia.
Qed.


(** ** No quantity is lost or made in the loop *)










(** ** No quantity is lost or made by a request *)

Lemma acceptedb_accepted order : acceptedb order = true <-> accepted order.
Proof.
  unfold acceptedb, accepted, price_is_none.
  rewrite andb_true_iff, Z.ltb_lt, negb_true_iff.
  destruct (priced_type (lower (oi_order_type order))), (oi_price order); simpl;
    intuition congruence.
Qed.

Lemma handle_remaining_trades lc lp :
  trades_collection (fst (handle_remaining lc lp)) = trades_collection (lp_st lp).
Proof.
  unfold handle_remaining.
  destruct (lp_remaining lp >? 0); [|reflexivity].
  destruct (String.eqb (lc_typ lc) "limit"); [|reflexivity].
  destruct (match lc_price lc with Some p => Some p | None => lp_match_price lp end);
    reflexivity.
Qed.








(** ** Requests served one after the other *)

Lemma run_app reqs reqs' st : run (reqs ++ reqs') st = run reqs' (run reqs st).
Proof. unfold run. apply fold_left_app. Qed.


Lemma run_reachable reqs : reachable (run reqs initial_state).
Proof.
  induction reqs as [|r reqs IH] using rev_ind; [apply reach_init|].
  rewrite run_app. simpl. destruct r; [apply reach_submit|apply reach_cancel]; exact IH.
Qed.






(** ** C8: quantities *)



(** ** The queues of the books after a change *)

Section MoreDictFacts.
Context {V : Type}.
Implicit Types (d : SortedDict.t V) (k : Z) (v : V).

Lemma getitem_delitem_ne k k' d :
  k <> k' -> SortedDict.getitem k' (SortedDict.delitem k d) = SortedDict.getitem k' d.
Proof.
  intros Hne. induction d as [|[k0 v0] r IH]; simpl; [reflexivity|].
  destruct (k =? k0) eqn:E; simpl.
  - apply Z.eqb_eq in E. subst k0.
    destruct (k' =? k) eqn:E'; [|reflexivity]. apply Z.eqb_eq in E'. congruence.
  - rewrite IH. reflexivity.
Qed.

Lemma getitem_delitem_sorted k d :
  SortedDict.sorted d = true -> SortedDict.getitem k (SortedDict.delitem k d) = None.
Proof.
  induction d as [|[k0 v0] r IH]; simpl; intros Hs; [reflexivity|].
  apply SDF.sorted_cons in Hs as [Hs Hall].
  destruct (k =? k0) eqn:E; simpl.
  - apply Z.eqb_eq in E. subst k0. apply SDF.getitem_none_key.
    intros Hin. specialize (Hall k Hin). lia.
  - rewrite E. apply IH, Hs.
Qed.

Lemma getitem_setitem_ne k k' v d :
  k <> k' -> SortedDict.getitem k' (SortedDict.setitem k v d) = SortedDict.getitem k' d.
Proof.
  intros Hne. induction d as [|[k0 v0] r IH]; simpl.
  - destruct (k' =? k) eqn:E; [|reflexivity]. apply Z.eqb_eq in E. congruence.
  - destruct (k <? k0) eqn:E1; simpl.
    + destruct (k' =? k) eqn:E; [|reflexivity]. apply Z.eqb_eq in E. congruence.
    + destruct (k =? k0) eqn:E2; simpl.
      * apply Z.eqb_eq in E2. subst k0.
        destruct (k' =? k) eqn:E; [|reflexivity]. apply Z.eqb_eq in E. congruence.
      * rewrite IH. reflexivity.
Qed.
End MoreDictFacts.

Lemma level_becomes_queue p0 nq (d : SortedDict.t deque) q0 p :
  SortedDict.sorted d = true ->
  SortedDict.getitem p0 d = Some q0 ->
  default [] (SortedDict.getitem p (level_becomes p0 nq d))
  = if p =? p0 then nq else default [] (SortedDict.getitem p d).
Proof.
  intros Hs Hq0. unfold level_becomes. destruct (p =? p0) eqn:E.
  - apply Z.eqb_eq in E. subst p0. destruct nq as [|o nq].
    + rewrite getitem_delitem_sorted by exact Hs. reflexivity.
    + rewrite SDF.getitem_alter, Hq0. reflexivity.
  - apply Z.eqb_neq in E. destruct nq as [|o nq].
    + rewrite getitem_delitem_ne by congruence. reflexivity.
    + rewrite SDF.getitem_alter_ne by congruence. reflexivity.
Qed.

Lemma rest_queue rp o (d : SortedDict.t deque) p :
  default []
    (SortedDict.getitem p
       (SortedDict.alter (fun q => q ++ [o]) rp
          (if SortedDict.contains rp d then d else SortedDict.setitem rp [] d)))
  = if p =? rp then default [] (SortedDict.getitem p d) ++ [o]
    else default [] (SortedDict.getitem p d).
Proof.
  unfold SortedDict.contains. destruct (p =? rp) eqn:E.
  - apply Z.eqb_eq in E. subst rp. rewrite SDF.getitem_alter.
    match goal with |- context [SortedDict.getitem p ?X] => set (d' := X) end.
    assert (H : SortedDict.getitem p d' = Some (default [] (SortedDict.getitem p d))).
    { unfold d'. destruct (SortedDict.getitem p d) as [q|] eqn:Hq;
        [exact Hq|apply SDF.getitem_setitem]. }
    rewrite H. reflexivity.
  - apply Z.eqb_neq in E. rewrite SDF.getitem_alter_ne by congruence.
    destruct (SortedDict.getitem rp d); [reflexivity|].
    rewrite getitem_setitem_ne by congruence. reflexivity.
Qed.

Lemma side_dict_own side b : own side b = side_dict (String.eqb side "buy") b.
Proof. reflexivity. Qed.

Lemma side_dict_opposite side b :
  opposite side b = side_dict (negb (String.eqb side "buy")) b.
Proof. unfold opposite, side_dict. destruct (String.eqb side "buy"); reflexivity. Qed.

Lemma side_dict_on_opposite bs side f b :
  side_dict bs (on_opposite side f b)
  = if Bool.eqb bs (negb (String.eqb side "buy")) then f (side_dict bs b)
    else side_dict bs b.
Proof.
  unfold side_dict, on_opposite. destruct bs, (String.eqb side "buy"); reflexivity.
Qed.

Lemma side_dict_on_own bs side f b :
  side_dict bs (on_own side f b)
  = if Bool.eqb bs (String.eqb side "buy") then f (side_dict bs b)
    else side_dict bs b.
Proof.
  unfold side_dict, on_own. destruct bs, (String.eqb side "buy"); reflexivity.
Qed.

Lemma queue_at_books key bs p st st' :
  order_books st' = order_books st -> queue_at key bs p st' = queue_at key bs p st.
Proof. unfold queue_at, book_at. intros ->. reflexivity. Qed.

Lemma queue_at_put_book key bs p key0 b st :
  queue_at key bs p (put_book key0 b st)
  = if bool_decide (key = key0)
    then default [] (SortedDict.getitem p (side_dict bs b))
    else queue_at key bs p st.
Proof.
  unfold queue_at. destruct (bool_decide (key = key0)) eqn:E.
  - apply bool_decide_eq_true in E. subst key0. rewrite book_at_put_book. reflexivity.
  - apply bool_decide_eq_false in E. rewrite book_at_put_book_ne by congruence.
    reflexivity.
Qed.

Lemma at_loc_true key bs p key' bs' p' :
  at_loc key bs p key' bs' p' = true <-> key = key' /\ bs = bs' /\ p = p'.
Proof.
  unfold at_loc. rewrite !andb_true_iff, bool_decide_eq_true, Z.eqb_eq.
  rewrite Bool.eqb_true_iff. tauto.
Qed.

(** The queues after a turn of the loop: the queue of the matched level
    changes, no other. *)
Lemma queue_at_after_match env lc lp p0 m r key bs p :
  let B := book_at (upper (lc_symbol lc)) (lp_st lp) in
  SortedDict.sorted (opposite (lc_side lc) B) = true ->
  select_level (lc_side lc) (lc_price lc) B = Some (p0, Some (m :: r)) ->
  queue_at key bs p (lp_st lp) = (if at_loc key bs p (upper (lc_symbol lc))
                                       (negb (String.eqb (lc_side lc) "buy")) p0
                                  then m :: r else queue_at key bs p (lp_st lp)) /\
  queue_at key bs p (state_after_match env lc lp p0 m r)
  = if at_loc key bs p (upper (lc_symbol lc)) (negb (String.eqb (lc_side lc) "buy")) p0
    then queue_after (lp_remaining lp) (m :: r)
    else queue_at key bs p (lp_st lp).
Proof.
  intros B Hs Hsel.
  pose proof (select_level_some _ _ _ _ _ Hsel) as (_ & Hget & _ & _).
  symmetry in Hget. fold B in Hget. rewrite side_dict_opposite in Hget, Hs.
  rewrite (queue_at_books _ _ _ _ _ (state_after_match_put env lc lp p0 m r)).
  rewrite queue_at_put_book. fold B. unfold at_loc.
  destruct (bool_decide (key = upper (lc_symbol lc))) eqn:Ek; cbn [andb]; [|auto].
  apply bool_decide_eq_true in Ek. subst key.
  rewrite side_dict_on_opposite.
  destruct (Bool.eqb bs (negb (String.eqb (lc_side lc) "buy"))) eqn:Eb; cbn [andb];
    [|split; reflexivity].
  apply Bool.eqb_prop in Eb. subst bs.
  rewrite (level_becomes_queue _ _ _ _ _ Hs Hget).
  unfold queue_at. fold B.
  destruct (p =? p0) eqn:Ep; [|split; reflexivity].
  apply Z.eqb_eq in Ep. subst p0. rewrite Hget. split; reflexivity.
Qed.

Lemma ids_queue_after remaining m r :
  ids (queue_after remaining (m :: r))
  = if ro_quantity m - Z.min remaining (ro_quantity m) =? 0 then ids r
    else ro_order_id m :: ids r.
Proof.
  rewrite queue_after_cons.
  destruct (ro_quantity m - Z.min remaining (ro_quantity m) =? 0); reflexivity.
Qed.

Lemma ids_app q q' : ids (q ++ q') = ids q ++ ids q'.
Proof. apply map_app. Qed.

Lemma first_with_id oid q :
  In oid (ids q) ->
  exists q1 o q2,
    q = q1 ++ o :: q2 /\ ro_order_id o = oid /\
    forall x, In x q1 -> ro_order_id x <> oid.
Proof.
  induction q as [|y r IH]; simpl; [tauto|].
  destruct (String.eqb (ro_order_id y) oid) eqn:E.
  - apply String.eqb_eq in E. intros _. exists [], y, r. simpl. tauto.
  - apply String.eqb_neq in E. intros [H|H]; [congruence|].
    destruct (IH H) as (q1 & o & q2 & -> & Ho & Hq1).
    exists (y :: q1), o, q2. split; [reflexivity|]. split; [exact Ho|].
    simpl. intros x [<-|Hx]; auto.
Qed.

Lemma remove_order_absent oid q : ~ In oid (ids q) -> remove_order oid q = q.
Proof.
  intros Hn. unfold remove_order.
  destruct (List.find _ q) as [o|] eqn:E; [|reflexivity].
  apply List.find_some in E as [Hin Ho]. apply String.eqb_eq in Ho.
  exfalso. apply Hn. unfold ids. rewrite <- Ho. apply in_map, Hin.
Qed.

Lemma ids_remove_order_incl x oid q : In x (ids (remove_order oid q)) -> In x (ids q).
Proof.
  unfold ids. rewrite !in_map_iff. intros (o & <- & Ho).
  exists o. split; [reflexivity|]. eapply remove_order_sublist, Ho.
Qed.

Lemma NoDup_remove_order oid q :
  List.NoDup (ids q) ->
  List.NoDup (ids (remove_order oid q)) /\ ~ In oid (ids (remove_order oid q)).
Proof.
  intros Hnd. destruct (in_dec string_dec oid (ids q)) as [Hin|Hn].
  - destruct (first_with_id _ _ Hin) as (q1 & o & q2 & -> & Ho & Hq1).
    rewrite (remove_order_split _ _ _ _ Ho Hq1).
    rewrite ids_app in *. simpl in Hnd. rewrite Ho in Hnd.
    split; [eapply List.NoDup_remove_1, Hnd|].
    eapply List.NoDup_remove_2, Hnd.
  - rewrite (remove_order_absent _ _ Hn). auto.
Qed.

Lemma find_one_app x docs d :
  find_one x (docs ++ [d])
  = match find_one x docs with
    | Some d' => Some d'
    | None => if String.eqb (doc_order_id d) x then Some d else None
    end.
Proof.
  induction docs as [|y r IH]; simpl; [reflexivity|].
  destruct (String.eqb (doc_order_id y) x); [reflexivity|exact IH].
Qed.

Lemma queue_at_db_update key bs p oid f st :
  queue_at key bs p (db_update oid f st) = queue_at key bs p st.
Proof. reflexivity. Qed.

(** The queues after the residual is handled. *)
Lemma queue_at_handle_remaining lc lp key bs p :
  (String.eqb (lc_typ lc) "limit" = true -> lc_price lc <> None) ->
  queue_at key bs p (fst (handle_remaining lc lp))
  = if (lp_remaining lp >? 0) && String.eqb (lc_typ lc) "limit"
       && at_loc key bs p (upper (lc_symbol lc)) (String.eqb (lc_side lc) "buy")
            (default 0 (lc_price lc))
    then queue_at key bs p (lp_st lp)
           ++ [{| ro_order_id := lc_order_id lc; ro_quantity := lp_remaining lp |}]
    else queue_at key bs p (lp_st lp).
Proof.
  intros Hprice. unfold handle_remaining.
  destruct (lp_remaining lp >? 0); cbn [andb]; [|reflexivity].
  destruct (String.eqb (lc_typ lc) "limit"); cbn [andb]; [|reflexivity].
  destruct (lc_price lc) as [rp|]; [|exfalso; apply Hprice; reflexivity].
  cbn [fst default from_option id].
  rewrite queue_at_db_update, queue_at_put_book. unfold at_loc.
  destruct (bool_decide (key = upper (lc_symbol lc))) eqn:Ek; cbn [andb]; [|reflexivity].
  apply bool_decide_eq_true in Ek. subst key.
  rewrite side_dict_on_own.
  destruct (Bool.eqb bs (String.eqb (lc_side lc) "buy")); cbn [andb]; [|reflexivity].
  rewrite rest_queue. reflexivity.
Qed.

Lemma handle_remaining_orders lc lp :
  exists f,
    orders_collection (fst (handle_remaining lc lp))
    = update_one (lc_order_id lc) f (orders_collection (lp_st lp)) /\
    (forall d, doc_order_id (f d) = doc_order_id d /\ doc_symbol (f d) = doc_symbol d /\
               doc_side (f d) = doc_side d /\ doc_price (f d) = doc_price d) /\
    ((lp_remaining lp >? 0) && String.eqb (lc_typ lc) "limit" = true ->
     lc_price lc <> None -> forall d, doc_status (f d) = "open").
Proof.
  unfold handle_remaining.
  destruct (lp_remaining lp >? 0); cbn [andb];
    [|eexists; split; [reflexivity|]; split; [auto|discriminate]].
  destruct (String.eqb (lc_typ lc) "limit");
    [|eexists; split; [reflexivity|]; split; [auto|discriminate]].
  destruct (lc_price lc) as [rp|].
  - eexists; split; [reflexivity|]. split; auto.
  - destruct (lp_match_price lp);
      eexists; (split; [reflexivity|]); split; auto; intros _ H; exfalso; apply H; reflexivity.
Qed.

(** The queues after a successful cancellation. *)
Lemma queue_at_cancel cancel user st d key bs p :
  state_ok st ->
  find_one (co_order_id cancel) (orders_collection st) = Some d ->
  existsb (String.eqb (doc_status d)) ["filled"; "cancelled"] = false ->
  queue_at key bs p (out_state (cancel_order cancel user st))
  = if match doc_price d with
       | Some price =>
           at_loc key bs p (upper (doc_symbol d)) (String.eqb (doc_side d) "buy") price
       | None => false
       end
    then remove_order (co_order_id cancel) (queue_at key bs p st)
    else queue_at key bs p st.
Proof.
  intros Hok Hd Hlive.
  destruct (cancel_order_live cancel user st d Hd Hlive)
    as (_ & _ & _ & Hother & Hopp & Hown).
  set (st' := out_state (cancel_order cancel user st)) in *.
  set (K := upper (doc_symbol d)) in *.
  destruct (decide (key = K)) as [->|Hk].
  2:{ unfold queue_at at 1. rewrite (Hother key Hk). fold (queue_at key bs p st).
      destruct (doc_price d); [|reflexivity].
      unfold at_loc. rewrite bool_decide_eq_false_2 by exact Hk. reflexivity. }
  destruct (Bool.eqb bs (String.eqb (doc_side d) "buy")) eqn:Eb.
  2:{ assert (Hs : side_dict bs (book_at K st') = side_dict bs (book_at K st)).
      { rewrite !side_dict_opposite in Hopp.
        destruct bs, (String.eqb (doc_side d) "buy"); try discriminate; exact Hopp. }
      unfold queue_at. rewrite Hs.
      destruct (doc_price d); [|reflexivity].
      unfold at_loc. rewrite Eb, andb_false_r. reflexivity. }
  apply Bool.eqb_prop in Eb. subst bs.
  unfold queue_at. rewrite <- !side_dict_own, Hown.
  destruct (doc_price d) as [price|]; [|reflexivity].
  unfold at_loc. rewrite bool_decide_eq_true_2 by reflexivity.
  rewrite Bool.eqb_reflx. cbn [andb].
  destruct (SortedDict.getitem price (own (doc_side d) (book_at K st))) as [q|] eqn:Hq.
  - destruct (Hok K) as [Hb _]. apply (book_ok_sides (doc_side d)) in Hb as [[Hs _] _].
    rewrite (level_becomes_queue _ _ _ _ _ Hs Hq).
    destruct (p =? price) eqn:Ep; [|reflexivity].
    apply Z.eqb_eq in Ep. subst p. rewrite Hq. reflexivity.
  - destruct (p =? price) eqn:Ep; [|reflexivity].
    apply Z.eqb_eq in Ep. subst p. rewrite Hq. reflexivity.
Qed.

(** ** The orders collection indexes the books *)

Lemma doc_locates_inj d key bs p key' bs' p' :
  doc_locates d key bs p -> doc_locates d key' bs' p' ->
  key = key' /\ bs = bs' /\ p = p'.
Proof. intros (<- & <- & H) (<- & <- & H'). rewrite H in H'. injection H' as <-. auto. Qed.

Lemma live_partial : live "partial".
Proof. split; discriminate. Qed.

Lemma live_open : live "open".
Proof. split; discriminate. Qed.

Lemma indexed_initial : indexed initial_state.
Proof.
  split.
  - intros x key bs p H. unfold queue_at, book_at, initial_state in H. cbn in H.
    rewrite lookup_empty in H. destruct bs; destruct H.
  - intros key bs p. unfold queue_at, book_at, initial_state. cbn.
    rewrite lookup_empty. destruct bs; constructor.
Qed.

(** A turn of the loop keeps the index. *)
Lemma indexed_loop_after_match env lc lp lp' p0 m r :
  state_ok (lp_st lp) ->
  select_level (lc_side lc) (lc_price lc) (book_at (upper (lc_symbol lc)) (lp_st lp))
    = Some (p0, Some (m :: r)) ->
  lp_st lp' = state_after_match env lc lp p0 m r ->
  indexed_loop lc lp -> indexed_loop lc lp'.
Proof.
  intros Hok Hsel Hst ((L1 & L2) & (d0 & Hd0 & Hdoc0) & Hno).
  set (K := upper (lc_symbol lc)) in *.
  set (mb := negb (String.eqb (lc_side lc) "buy")).
  set (mq := ro_quantity m - Z.min (lp_remaining lp) (ro_quantity m)).
  assert (Hs : SortedDict.sorted (opposite (lc_side lc) (book_at K (lp_st lp))) = true).
  { destruct (Hok K) as [Hb _]. apply (book_ok_sides (lc_side lc)) in Hb as [_ [Hs _]].
    exact Hs. }
  assert (Hq : forall key bs p,
            queue_at key bs p (lp_st lp)
            = (if at_loc key bs p K mb p0 then m :: r else queue_at key bs p (lp_st lp)) /\
            queue_at key bs p (lp_st lp')
            = (if at_loc key bs p K mb p0
               then queue_after (lp_remaining lp) (m :: r)
               else queue_at key bs p (lp_st lp))).
  { intros key bs p. rewrite Hst. apply queue_at_after_match; assumption. }
  assert (Hm : queue_at K mb p0 (lp_st lp) = m :: r).
  { destruct (Hq K mb p0) as [H _]. rewrite H.
    rewrite (proj2 (at_loc_true K mb p0 K mb p0)) by auto. reflexivity. }
  assert (Hmin : In (ro_order_id m) (ids (queue_at K mb p0 (lp_st lp)))).
  { rewrite Hm. simpl. auto. }
  destruct (L1 _ _ _ _ Hmin) as (dm & Hdm & Hlm & Hlocm).
  assert (Hmo : ro_order_id m <> lc_order_id lc).
  { intros E. apply (Hno K mb p0). rewrite <- E. exact Hmin. }
  assert (Hnd : List.NoDup (ro_order_id m :: ids r)).
  { specialize (L2 K mb p0). rewrite Hm in L2. exact L2. }
  assert (Hsub : forall x key bs p,
            In x (ids (queue_at key bs p (lp_st lp'))) ->
            In x (ids (queue_at key bs p (lp_st lp))) /\
            (x = ro_order_id m -> (mq =? 0) = false)).
  { intros x key bs p Hx. destruct (Hq key bs p) as [H1 H2]. rewrite H2 in Hx.
    destruct (at_loc key bs p K mb p0) eqn:Eloc.
    - rewrite H1. rewrite ids_queue_after in Hx. fold mq in Hx.
      destruct (mq =? 0) eqn:Emq.
      + split; [simpl; auto|]. intros ->.
        apply List.NoDup_cons_iff in Hnd as [Hnot _]. contradiction.
      + split; [exact Hx|reflexivity].
    - split; [exact Hx|]. intros ->. exfalso.
      destruct (L1 _ _ _ _ Hx) as (d' & Hd' & _ & Hloc').
      rewrite Hdm in Hd'. injection Hd' as <-.
      apply (doc_locates_inj _ _ _ _ _ _ _ Hloc') in Hlocm.
      apply at_loc_true in Hlocm. congruence. }
  assert (Hdocs : orders_collection (lp_st lp')
                  = update_one (ro_order_id m) (maker_update mq)
                      (orders_collection (lp_st lp))).
  { rewrite Hst. reflexivity. }
  split; [split|split].
  - intros x key bs p Hx. destruct (Hsub _ _ _ _ Hx) as [Hx0 Hxm].
    destruct (L1 _ _ _ _ Hx0) as (d & Hd & Hl & Hloc). rewrite Hdocs.
    destruct (string_dec x (ro_order_id m)) as [->|Hne].
    + rewrite find_one_update_one by apply maker_update_id. rewrite Hd.
      unfold maker_update. rewrite (Hxm eq_refl). cbn [fmap option_fmap option_map].
      eexists. split; [reflexivity|]. split; [apply live_partial|exact Hloc].
    + rewrite find_one_update_one_ne by (try apply maker_update_id; congruence). eauto.
  - intros key bs p. destruct (Hq key bs p) as [H1 H2]. rewrite H2.
    destruct (at_loc key bs p K mb p0); [|apply L2].
    rewrite ids_queue_after. fold mq.
    destruct (mq =? 0); [|exact Hnd]. apply List.NoDup_cons_iff in Hnd. tauto.
  - exists d0. split; [|exact Hdoc0]. rewrite Hdocs.
    rewrite find_one_update_one_ne by (try apply maker_update_id; congruence). exact Hd0.
  - intros key bs p Hx. apply Hsub in Hx as [Hx _]. exact (Hno _ _ _ Hx).
Qed.

Lemma run_match_loop_indexed env lc lp0 :
  state_ok (lp_st lp0) ->
  indexed_loop lc lp0 ->
  indexed_loop lc (fst (run_match_loop env lc lp0)).
Proof.
  intros Hok0 Hidx0.
  apply (run_match_loop_rule
           (fun lp => state_ok (lp_st lp) /\ indexed_loop lc lp)
           (fun lp _ => indexed_loop lc lp)).
  - tauto.
  - intros lp [Hok Hidx] Hrem.
    destruct (loop_body_cases env lc lp)
      as [[Hsel ->]|[(e & lp' & -> & Hst & _)
                    |(p & m & r & lp' & Hsel & -> & Hst & _)]].
    + exact Hidx.
    + unfold indexed_loop in *. rewrite Hst. exact Hidx.
    + assert (Hidx' : indexed_loop lc lp')
        by (eapply indexed_loop_after_match; eassumption).
      assert (Hok' : state_ok (lp_st lp'))
        by (rewrite Hst; apply state_ok_after_match; assumption).
      destruct (String.eqb (lc_typ lc) "ioc"); auto.
  - auto.
Qed.

Lemma NoDup_snoc (l : list string) x :
  List.NoDup l -> ~ In x l -> List.NoDup (l ++ [x]).
Proof.
  induction 1 as [|y l Hy Hl IH]; simpl; intros Hx.
  - constructor; [intros []|constructor].
  - constructor.
    + rewrite in_app_iff. intros [H|[H|[]]]; [contradiction|]. subst. apply Hx. auto.
    + apply IH. intros H. apply Hx. auto.
Qed.

(** The residual, rested or not, keeps the index. *)
Lemma indexed_handle_remaining lc lp :
  (String.eqb (lc_typ lc) "limit" = true -> lc_price lc <> None) ->
  indexed_loop lc lp -> indexed (fst (handle_remaining lc lp)).
Proof.
  intros Hprice ((L1 & L2) & (d0 & Hd0 & Hsym & Hside & Hpr) & Hno).
  destruct (handle_remaining_orders lc lp) as (f & Hdocs & Hf & Hopen).
  set (rests := (lp_remaining lp >? 0) && String.eqb (lc_typ lc) "limit") in *.
  assert (Hq : forall key bs p,
            queue_at key bs p (fst (handle_remaining lc lp))
            = if rests && at_loc key bs p (upper (lc_symbol lc))
                            (String.eqb (lc_side lc) "buy") (default 0 (lc_price lc))
              then queue_at key bs p (lp_st lp)
                     ++ [{| ro_order_id := lc_order_id lc;
                            ro_quantity := lp_remaining lp |}]
              else queue_at key bs p (lp_st lp))
    by (intros; apply queue_at_handle_remaining, Hprice).
  assert (Hold : forall x key bs p,
            In x (ids (queue_at key bs p (lp_st lp))) ->
            exists d, find_one x (orders_collection (fst (handle_remaining lc lp))) = Some d /\
                      live (doc_status d) /\ doc_locates d key bs p).
  { intros x key bs p Hx. destruct (L1 _ _ _ _ Hx) as (d & Hd & Hl & Hloc).
    exists d. split; [|auto]. rewrite Hdocs.
    rewrite find_one_update_one_ne; [exact Hd|apply Hf|].
    intros ->. exact (Hno _ _ _ Hx). }
  split.
  - intros x key bs p Hx. rewrite Hq in Hx.
    destruct (rests && at_loc _ _ _ _ _ _) eqn:E; [|apply Hold, Hx].
    apply andb_true_iff in E as [Hr Hloc]. apply at_loc_true in Hloc as (-> & -> & ->).
    rewrite ids_app in Hx. apply in_app_iff in Hx as [Hx|[<-|[]]]; [apply Hold, Hx|].
    cbn [ro_order_id].
    assert (Hp : lc_price lc <> None).
    { apply Hprice. unfold rests in Hr. apply andb_true_iff in Hr. tauto. }
    exists (f d0). rewrite Hdocs, find_one_update_one by apply Hf. rewrite Hd0.
    split; [reflexivity|]. rewrite (Hopen Hr Hp). split; [apply live_open|].
    destruct (Hf d0) as (_ & Hs1 & Hs2 & Hs3).
    unfold doc_locates. rewrite Hs1, Hs2, Hs3, Hsym, Hside, Hpr.
    destruct (lc_price lc); [auto|congruence].
  - intros key bs p. rewrite Hq.
    destruct (rests && at_loc _ _ _ _ _ _); [|apply L2].
    rewrite ids_app. simpl. apply NoDup_snoc; [apply L2|apply Hno].
Qed.

Lemma queue_at_book key bs p st st' :
  book_at key st' = book_at key st -> queue_at key bs p st' = queue_at key bs p st.
Proof. unfold queue_at. intros ->. reflexivity. Qed.

Lemma submit_start_orders env order user st :
  orders_collection (submit_start env order user st)
  = orders_collection st ++ [new_order_doc env order user].
Proof.
  unfold submit_start.
  destruct (get_order_book_collections (upper (oi_symbol order))
              (set_orders (insert_one (new_order_doc env order user) (orders_collection st)) st))
    as (-> & _). reflexivity.
Qed.

(** With a fresh identifier, the loop starts on an indexed state. *)
Lemma indexed_submit_loop env order user st :
  indexed st ->
  find_one ("ORDER-" +:+ uuid_order env) (orders_collection st) = None ->
  indexed_loop (submit_locals env order) (submit_loop env order user st).
Proof.
  intros [L1 L2] Hfresh.
  assert (Hq : forall key bs p,
            queue_at key bs p (submit_start env order user st) = queue_at key bs p st).
  { intros. apply queue_at_book, submit_start_book_at. }
  unfold indexed_loop, indexed. cbn [submit_loop lp_st submit_locals lc_order_id
                                     lc_symbol lc_side lc_price].
  rewrite submit_start_orders.
  split; [split|split].
  - intros x key bs p Hx. rewrite Hq in Hx.
    destruct (L1 _ _ _ _ Hx) as (d & Hd & H). exists d. split; [|exact H].
    rewrite find_one_app, Hd. reflexivity.
  - intros key bs p. rewrite Hq. apply L2.
  - exists (new_order_doc env order user). rewrite find_one_app, Hfresh.
    cbn [new_order_doc doc_order_id]. rewrite String.eqb_refl. auto.
  - intros key bs p Hx. rewrite Hq in Hx.
    destruct (L1 _ _ _ _ Hx) as (d & Hd & _). congruence.
Qed.

Lemma indexed_db_update_taker lc lp f :
  (forall d, doc_order_id (f d) = doc_order_id d) ->
  indexed_loop lc lp ->
  indexed (db_update (lc_order_id lc) f (lp_st lp)).
Proof.
  intros Hf ((L1 & L2) & _ & Hno). split.
  - intros x key bs p Hx. rewrite queue_at_db_update in Hx.
    destruct (L1 _ _ _ _ Hx) as (d & Hd & H). exists d. split; [|exact H].
    cbn [db_update set_orders orders_collection].
    rewrite find_one_update_one_ne; [exact Hd|exact Hf|].
    intros ->. exact (Hno _ _ _ Hx).
  - intros key bs p. rewrite queue_at_db_update. apply L2.
Qed.

Lemma indexed_submit env order user st :
  state_ok st -> indexed st ->
  find_one ("ORDER-" +:+ uuid_order env) (orders_collection st) = None ->
  indexed (out_state (submit_order env order user st)).
Proof.
  intros Hok Hidx Hfresh.
  destruct (accepted_dec order) as [Ha|Hn].
  2:{ destruct (submit_order_rejected env order user st Hn) as [detail ->]. exact Hidx. }
  rewrite (submit_order_accepted _ _ _ _ Ha). cbv zeta.
  set (lc := submit_locals env order).
  set (lp0 := submit_loop env order user st).
  pose proof (indexed_submit_loop env order user st Hidx Hfresh) as Hl0.
  fold lc lp0 in Hl0.
  assert (Hok0 : state_ok (lp_st lp0)).
  { intros key. unfold lp0. cbn [submit_loop lp_st].
    rewrite submit_start_book_at. apply Hok. }
  destruct (_ && _).
  - cbn [out_state]. apply indexed_db_update_taker; [reflexivity|exact Hl0].
  - pose proof (run_match_loop_indexed env lc lp0 Hok0 Hl0) as Hl.
    destruct (snd (run_match_loop env lc lp0)); cbn [out_state]; [apply Hl|].
    apply indexed_handle_remaining; [|exact Hl].
    unfold lc. cbn [submit_locals lc_typ lc_price]. unfold working_price.
    intros Hlim. rewrite (priced_type_limit _ Hlim). destruct Ha as [_ Hp].
    apply Hp, priced_type_limit, Hlim.
Qed.

Lemma cancel_order_orders cancel user st d :
  find_one (co_order_id cancel) (orders_collection st) = Some d ->
  existsb (String.eqb (doc_status d)) ["filled"; "cancelled"] = false ->
  orders_collection (out_state (cancel_order cancel user st))
  = update_one (co_order_id cancel) (set_status "cancelled") (orders_collection st).
Proof.
  intros Hd Hlive. unfold cancel_order. rewrite Hd, Hlive.
  pose proof (get_order_book_collections (doc_symbol d) st) as (Ho & _).
  destruct (get_order_book (doc_symbol d) st) as [st1 book]. cbn [fst] in Ho.
  cbn [out_state db_update set_orders orders_collection]. rewrite <- Ho.
  destruct (doc_price d); [|reflexivity].
  destruct (SortedDict.contains _ _); [|reflexivity].
  destruct (SortedDict.getitem _ _) as [[|]|]; reflexivity.
Qed.

(** A cancellation keeps the index, and the cancelled order rests nowhere. *)
Lemma indexed_cancel cancel user st :
  state_ok st -> indexed st ->
  indexed (out_state (cancel_order cancel user st)) /\
  (forall d,
     find_one (co_order_id cancel) (orders_collection st) = Some d ->
     existsb (String.eqb (doc_status d)) ["filled"; "cancelled"] = false ->
     forall key bs p,
       ~ In (co_order_id cancel)
           (ids (queue_at key bs p (out_state (cancel_order cancel user st))))).
Proof.
  intros Hok [L1 L2].
  destruct (find_one (co_order_id cancel) (orders_collection st)) as [d|] eqn:Hd.
  2:{ unfold cancel_order. rewrite Hd. cbn [out_state]. split; [split; assumption|].
      discriminate. }
  destruct (existsb (String.eqb (doc_status d)) ["filled"; "cancelled"]) eqn:Hlive.
  { unfold cancel_order. rewrite Hd, Hlive. cbn [out_state]. split; [split; assumption|].
    intros d' [= <-]. congruence. }
  set (oid := co_order_id cancel) in *.
  set (st' := out_state (cancel_order cancel user st)).
  pose proof (fun key bs p => queue_at_cancel cancel user st d key bs p Hok Hd Hlive) as Hq.
  pose proof (cancel_order_orders cancel user st d Hd Hlive) as Hdocs.
  fold st' oid in Hq, Hdocs.
  assert (Hsub : forall x key bs p,
            In x (ids (queue_at key bs p st')) ->
            In x (ids (queue_at key bs p st)) /\ x <> oid).
  { intros x key bs p Hx. rewrite Hq in Hx.
    destruct (match doc_price d with
              | Some price =>
                  at_loc key bs p (upper (doc_symbol d))
                    (String.eqb (doc_side d) "buy") price
              | None => false
              end) eqn:Eloc.
    - split; [eapply ids_remove_order_incl, Hx|]. intros ->.
      destruct (NoDup_remove_order oid _ (L2 key bs p)) as [_ Hnot]. contradiction.
    - split; [exact Hx|]. intros ->.
      destruct (L1 _ _ _ _ Hx) as (d' & Hd' & _ & Hk & Hb & Hp).
      rewrite Hd in Hd'. injection Hd' as <-. rewrite Hp in Eloc.
      assert (at_loc key bs p (upper (doc_symbol d)) (String.eqb (doc_side d) "buy") p = true)
        by (apply at_loc_true; auto).
      congruence. }
  split; [split|].
  - intros x key bs p Hx. apply Hsub in Hx as [Hx Hne].
    destruct (L1 _ _ _ _ Hx) as (d' & Hd' & H). exists d'. split; [|exact H].
    rewrite Hdocs. rewrite find_one_update_one_ne; [exact Hd'|reflexivity|exact Hne].
  - intros key bs p. rewrite Hq.
    destruct (match doc_price d with Some _ => _ | None => _ end); [|apply L2].
    apply NoDup_remove_order, L2.
  - intros d' _ _ key bs p Hx. apply Hsub in Hx as [_ Hne]. congruence.
Qed.

Lemma reachable_fresh_reachable st : reachable_fresh st -> reachable st.
Proof.
  induction 1; [apply reach_init|apply reach_submit|apply reach_cancel]; assumption.
Qed.

Lemma reachable_fresh_indexed st : reachable_fresh st -> indexed st.
Proof.
  induction 1 as [|st env order user Hr IH Hfresh|st cancel user Hr IH].
  - apply indexed_initial.
  - apply indexed_submit; [|exact IH|exact Hfresh].
    apply reachable_state_ok, reachable_fresh_reachable, Hr.
  - apply indexed_cancel; [|exact IH].
    apply reachable_state_ok, reachable_fresh_reachable, Hr.
Qed.

(** ** A live order rests *)

Lemma run_match_loop_no_exception env lc lp0 :
  state_ok (lp_st lp0) -> snd (run_match_loop env lc lp0) = None.
Proof.
  intros Hok0.
  apply (run_match_loop_rule (fun lp => state_ok (lp_st lp)) (fun _ e => e = None)).
  - reflexivity.
  - intros lp Hok Hrem.
    destruct (loop_body_cases env lc lp)
      as [[Hsel ->]|[(e & lp' & -> & _ & _ & _ & _ & p & Hsel & _)
                    |(p & m & r & lp' & Hsel & -> & Hst & _)]].
    + reflexivity.
    + exfalso. apply select_level_some in Hsel as (_ & Hget & _). symmetry in Hget.
      destruct (Hok (upper (lc_symbol lc))) as [Hb _].
      apply (book_ok_sides (lc_side lc)) in Hb as [_ Hopp].
      destruct (dict_ok_getitem _ _ _ Hopp Hget) as [Hne _]. apply Hne. reflexivity.
    + assert (Hok' : state_ok (lp_st lp'))
        by (rewrite Hst; apply state_ok_after_match; assumption).
      destruct (String.eqb (lc_typ lc) "ioc"); [reflexivity|exact Hok'].
  - exact Hok0.
Qed.

Lemma ids_remove_order_ne x oid q :
  x <> oid -> In x (ids q) -> In x (ids (remove_order oid q)).
Proof.
  intros Hne Hx. destruct (in_dec string_dec oid (ids q)) as [Hin|Hn].
  - destruct (first_with_id _ _ Hin) as (q1 & o & q2 & -> & Ho & Hq1).
    rewrite (remove_order_split _ _ _ _ Ho Hq1).
    rewrite ids_app in *. simpl in Hx. rewrite in_app_iff in *. simpl in Hx.
    destruct Hx as [?|[?|?]]; auto. congruence.
  - rewrite (remove_order_absent _ _ Hn). exact Hx.
Qed.

Lemma live_not_terminal s : live s <-> existsb (String.eqb s) ["filled"; "cancelled"] = false.
Proof.
  unfold live. split.
  - intros [H1 H2]. destruct (existsb _ _) eqn:E; [|reflexivity].
    apply terminal_status in E. tauto.
  - intros E. split; intros ->; discriminate.
Qed.

Lemma live_rest_after_match env lc lp lp' p0 m r :
  state_ok (lp_st lp) ->
  select_level (lc_side lc) (lc_price lc) (book_at (upper (lc_symbol lc)) (lp_st lp))
    = Some (p0, Some (m :: r)) ->
  lp_st lp' = state_after_match env lc lp p0 m r ->
  indexed_loop lc lp ->
  live_rest (Some (lc_order_id lc)) (lp_st lp) ->
  live_rest (Some (lc_order_id lc)) (lp_st lp').
Proof.
  intros Hok Hsel Hst ((L1 & L2) & _ & Hno) Hlr.
  set (K := upper (lc_symbol lc)) in *.
  set (mb := negb (String.eqb (lc_side lc) "buy")).
  set (mq := ro_quantity m - Z.min (lp_remaining lp) (ro_quantity m)).
  assert (Hs : SortedDict.sorted (opposite (lc_side lc) (book_at K (lp_st lp))) = true).
  { destruct (Hok K) as [Hb _]. apply (book_ok_sides (lc_side lc)) in Hb as [_ [Hs _]].
    exact Hs. }
  assert (Hq : forall key bs p,
            queue_at key bs p (lp_st lp)
            = (if at_loc key bs p K mb p0 then m :: r else queue_at key bs p (lp_st lp)) /\
            queue_at key bs p (lp_st lp')
            = (if at_loc key bs p K mb p0
               then queue_after (lp_remaining lp) (m :: r)
               else queue_at key bs p (lp_st lp))).
  { intros key bs p. rewrite Hst. apply queue_at_after_match; assumption. }
  assert (Hkeep : forall x key bs p,
            In x (ids (queue_at key bs p (lp_st lp))) ->
            x <> ro_order_id m \/ (mq =? 0) = false ->
            In x (ids (queue_at key bs p (lp_st lp')))).
  { intros x key bs p Hx Hcase. destruct (Hq key bs p) as [H1 H2]. rewrite H2.
    destruct (at_loc key bs p K mb p0); [|exact Hx].
    rewrite H1 in Hx. rewrite ids_queue_after. fold mq.
    destruct (mq =? 0); [|exact Hx].
    simpl in Hx. destruct Hx as [<-|Hx]; [|exact Hx].
    destruct Hcase as [H|H]; [congruence|discriminate]. }
  intros x d' Hd' Hlive Hx.
  assert (Hdocs : orders_collection (lp_st lp')
                  = update_one (ro_order_id m) (maker_update mq)
                      (orders_collection (lp_st lp)))
    by (rewrite Hst; reflexivity).
  rewrite Hdocs in Hd'.
  destruct (string_dec x (ro_order_id m)) as [->|Hne].
  - rewrite find_one_update_one in Hd' by apply maker_update_id.
    destruct (find_one (ro_order_id m) (orders_collection (lp_st lp))) as [dm|] eqn:Hdm;
      [|discriminate].
    injection Hd' as <-.
    assert (Emq : (mq =? 0) = false).
    { destruct (mq =? 0) eqn:E; [|reflexivity].
      unfold maker_update in Hlive. rewrite E in Hlive. destruct Hlive as [H _].
      exfalso. apply H. reflexivity. }
    assert (Hlm : live (doc_status dm)).
    { assert (Hin : In (ro_order_id m) (ids (queue_at K mb p0 (lp_st lp)))).
      { destruct (Hq K mb p0) as [H _]. rewrite H.
        rewrite (proj2 (at_loc_true K mb p0 K mb p0)) by auto. simpl. auto. }
      destruct (L1 _ _ _ _ Hin) as (d & Hd & Hl & _). congruence. }
    destruct (Hlr _ _ Hdm Hlm Hx) as (p & Hp & Hin).
    exists p. unfold maker_update. rewrite Emq.
    cbn [set_quantity_status doc_price doc_symbol doc_side].
    split; [exact Hp|]. apply Hkeep; auto.
  - rewrite find_one_update_one_ne in Hd' by (try apply maker_update_id; congruence).
    destruct (Hlr _ _ Hd' Hlive Hx) as (p & Hp & Hin).
    exists p. split; [exact Hp|]. apply Hkeep; auto.
Qed.

Lemma run_match_loop_live_rest env lc lp0 :
  state_ok (lp_st lp0) ->
  indexed_loop lc lp0 ->
  live_rest (Some (lc_order_id lc)) (lp_st lp0) ->
  live_rest (Some (lc_order_id lc)) (lp_st (fst (run_match_loop env lc lp0))).
Proof.
  intros Hok0 Hidx0 Hlr0.
  apply (run_match_loop_rule
           (fun lp => state_ok (lp_st lp) /\ indexed_loop lc lp /\
                      live_rest (Some (lc_order_id lc)) (lp_st lp))
           (fun lp _ => live_rest (Some (lc_order_id lc)) (lp_st lp))).
  - tauto.
  - intros lp (Hok & Hidx & Hlr) Hrem.
    destruct (loop_body_cases env lc lp)
      as [[Hsel ->]|[(e & lp' & -> & Hst & _)
                    |(p & m & r & lp' & Hsel & -> & Hst & _)]].
    + exact Hlr.
    + rewrite Hst. exact Hlr.
    + assert (Hidx' : indexed_loop lc lp')
        by (eapply indexed_loop_after_match; eassumption).
      assert (Hok' : state_ok (lp_st lp'))
        by (rewrite Hst; apply state_ok_after_match; assumption).
      assert (Hlr' : live_rest (Some (lc_order_id lc)) (lp_st lp'))
        by (apply (live_rest_after_match env lc lp lp' p m r); assumption).
      destruct (String.eqb (lc_typ lc) "ioc"); auto.
  - auto.
Qed.

Lemma handle_remaining_dead lc lp :
  (lp_remaining lp >? 0) && String.eqb (lc_typ lc) "limit" = false ->
  exists f,
    orders_collection (fst (handle_remaining lc lp))
    = update_one (lc_order_id lc) f (orders_collection (lp_st lp)) /\
    (forall d, doc_order_id (f d) = doc_order_id d) /\
    (forall d, ~ live (doc_status (f d))).
Proof.
  unfold handle_remaining, live.
  destruct (lp_remaining lp >? 0); cbn [andb].
  - intros ->. eexists. split; [reflexivity|]. split; [reflexivity|].
    intros d [_ H]. apply H. reflexivity.
  - intros _. eexists. split; [reflexivity|]. split; [reflexivity|].
    intros d [H _]. apply H. reflexivity.
Qed.

(** Once the residual is handled, the submitted order rests if its
    document is live. *)
Lemma live_rest_handle_remaining lc lp :
  (String.eqb (lc_typ lc) "limit" = true -> lc_price lc <> None) ->
  indexed_loop lc lp ->
  live_rest (Some (lc_order_id lc)) (lp_st lp) ->
  live_rest None (fst (handle_remaining lc lp)).
Proof.
  intros Hprice ((L1 & L2) & (d0 & Hd0 & Hsym & Hside & Hpr) & Hno) Hlr.
  set (rests := (lp_remaining lp >? 0) && String.eqb (lc_typ lc) "limit").
  assert (Hq : forall key bs p,
            queue_at key bs p (fst (handle_remaining lc lp))
            = if rests && at_loc key bs p (upper (lc_symbol lc))
                            (String.eqb (lc_side lc) "buy") (default 0 (lc_price lc))
              then queue_at key bs p (lp_st lp)
                     ++ [{| ro_order_id := lc_order_id lc;
                            ro_quantity := lp_remaining lp |}]
              else queue_at key bs p (lp_st lp))
    by (intros; apply queue_at_handle_remaining, Hprice).
  assert (Hkeep : forall x key bs p,
            In x (ids (queue_at key bs p (lp_st lp))) ->
            In x (ids (queue_at key bs p (fst (handle_remaining lc lp))))).
  { intros x key bs p Hx. rewrite Hq. destruct (rests && _); [|exact Hx].
    rewrite ids_app. apply in_app_iff. auto. }
  intros x d' Hd' Hlive _.
  destruct (string_dec x (lc_order_id lc)) as [->|Hne].
  - destruct rests eqn:Er.
    + destruct (handle_remaining_orders lc lp) as (f & Hdocs & Hf & _).
      rewrite Hdocs, find_one_update_one, Hd0 in Hd' by apply Hf.
      injection Hd' as <-.
      destruct (Hf d0) as (_ & Hs1 & Hs2 & Hs3).
      assert (Hp : lc_price lc <> None).
      { apply Hprice. unfold rests in Er. apply andb_true_iff in Er. tauto. }
      destruct (lc_price lc) as [rp|] eqn:Erp; [|congruence].
      exists rp. rewrite Hs1, Hs2, Hs3, Hsym, Hside, Hpr.
      split; [reflexivity|]. rewrite Hq. cbn [default from_option id].
      rewrite (proj2 (at_loc_true _ _ _ _ _ _)) by auto. cbn [andb].
      rewrite ids_app. apply in_app_iff. right. simpl. auto.
    + destruct (handle_remaining_dead lc lp Er) as (f & Hdocs & Hf & Hdead).
      rewrite Hdocs, find_one_update_one, Hd0 in Hd' by apply Hf.
      injection Hd' as <-. exfalso. exact (Hdead _ Hlive).
  - destruct (handle_remaining_orders lc lp) as (f & Hdocs & Hf & _).
    rewrite Hdocs in Hd'.
    rewrite find_one_update_one_ne in Hd' by (try apply Hf; congruence).
    destruct (Hlr x d' Hd' Hlive) as (p & Hp & Hin); [congruence|].
    exists p. split; [exact Hp|]. apply Hkeep, Hin.
Qed.

Lemma live_rest_submit_loop env order user st :
  live_rest None st ->
  live_rest (Some ("ORDER-" +:+ uuid_order env))
    (lp_st (submit_loop env order user st)).
Proof.
  intros Hlr x d Hd Hlive Hx.
  cbn [submit_loop lp_st] in *. rewrite submit_start_orders, find_one_app in Hd.
  destruct (find_one x (orders_collection st)) as [d'|] eqn:Hd'.
  - injection Hd as <-. destruct (Hlr x d' Hd' Hlive) as (p & Hp & Hin); [discriminate|].
    exists p. split; [exact Hp|].
    rewrite (queue_at_book _ _ _ st); [exact Hin|apply submit_start_book_at].
  - cbn [new_order_doc doc_order_id] in Hd.
    destruct (String.eqb _ x) eqn:E; [|discriminate].
    apply String.eqb_eq in E. subst x. exfalso. apply Hx. reflexivity.
Qed.

Lemma live_rest_submit env order user st :
  state_ok st -> indexed st -> live_rest None st ->
  find_one ("ORDER-" +:+ uuid_order env) (orders_collection st) = None ->
  live_rest None (out_state (submit_order env order user st)).
Proof.
  intros Hok Hidx Hlr Hfresh.
  destruct (accepted_dec order) as [Ha|Hn].
  2:{ destruct (submit_order_rejected env order user st Hn) as [detail ->]. exact Hlr. }
  rewrite (submit_order_accepted _ _ _ _ Ha). cbv zeta.
  set (lc := submit_locals env order).
  set (lp0 := submit_loop env order user st).
  pose proof (indexed_submit_loop env order user st Hidx Hfresh) as Hl0.
  pose proof (live_rest_submit_loop env order user st Hlr) as Hr0.
  fold lc lp0 in Hl0, Hr0.
  change ("ORDER-" +:+ uuid_order env) with (lc_order_id lc) in Hr0.
  assert (Hok0 : state_ok (lp_st lp0)).
  { intros key. unfold lp0. cbn [submit_loop lp_st].
    rewrite submit_start_book_at. apply Hok. }
  destruct (_ && _).
  - cbn [out_state]. intros x d Hd Hlive _.
    cbn [db_update set_orders orders_collection] in Hd.
    destruct (string_dec x (lc_order_id lc)) as [->|Hne].
    + destruct Hl0 as (_ & (d0 & Hd0 & _) & _).
      rewrite find_one_update_one, Hd0 in Hd by reflexivity.
      injection Hd as <-. destruct Hlive as [_ H]. exfalso. apply H. reflexivity.
    + rewrite find_one_update_one_ne in Hd by (try reflexivity; congruence).
      destruct (Hr0 x d Hd Hlive) as (p & Hp & Hin); [congruence|].
      exists p. split; [exact Hp|]. rewrite queue_at_db_update. exact Hin.
  - pose proof (run_match_loop_indexed env lc lp0 Hok0 Hl0) as Hl.
    pose proof (run_match_loop_live_rest env lc lp0 Hok0 Hl0 Hr0) as Hr.
    rewrite (run_match_loop_no_exception env lc lp0 Hok0). cbn [out_state].
    apply live_rest_handle_remaining; [|exact Hl|exact Hr].
    unfold lc. cbn [submit_locals lc_typ lc_price]. unfold working_price.
    intros Hlim. rewrite (priced_type_limit _ Hlim). destruct Ha as [_ Hp].
    apply Hp, priced_type_limit, Hlim.
Qed.

Lemma live_rest_cancel cancel user st :
  state_ok st -> live_rest None st ->
  live_rest None (out_state (cancel_order cancel user st)).
Proof.
  intros Hok Hlr.
  destruct (find_one (co_order_id cancel) (orders_collection st)) as [d|] eqn:Hd.
  2:{ unfold cancel_order. rewrite Hd. exact Hlr. }
  destruct (existsb (String.eqb (doc_status d)) ["filled"; "cancelled"]) eqn:Hlive.
  { unfold cancel_order. rewrite Hd, Hlive. exact Hlr. }
  intros x d' Hd' Hl' _.
  rewrite (cancel_order_orders cancel user st d Hd Hlive) in Hd'.
  destruct (string_dec x (co_order_id cancel)) as [->|Hne].
  - rewrite find_one_update_one, Hd in Hd' by reflexivity.
    injection Hd' as <-. destruct Hl' as [_ H]. exfalso. apply H. reflexivity.
  - rewrite find_one_update_one_ne in Hd' by (try reflexivity; congruence).
    destruct (Hlr x d' Hd' Hl') as (p & Hp & Hin); [discriminate|].
    exists p. split; [exact Hp|].
    rewrite (queue_at_cancel cancel user st d _ _ _ Hok Hd Hlive).
    destruct (match doc_price d with Some _ => _ | None => _ end); [|exact Hin].
    apply ids_remove_order_ne; assumption.
Qed.

Lemma reachable_fresh_live_rest st : reachable_fresh st -> live_rest None st.
Proof.
  induction 1 as [|st env order user Hr IH Hfresh|st cancel user Hr IH].
  - intros x d Hd. discriminate.
  - apply live_rest_submit; [| |exact IH|exact Hfresh].
    + apply reachable_state_ok, reachable_fresh_reachable, Hr.
    + apply reachable_fresh_indexed, Hr.
  - apply live_rest_cancel; [|exact IH].
    apply reachable_state_ok, reachable_fresh_reachable, Hr.
Qed.

(** ** C7: the outcome of a cancellation *)

(** C7: a cancellation fails with 404 (not found) when no order has the
    identifier, with 400 (already finalized) when the order is filled or
    cancelled, both without any effect; otherwise it takes the order out of
    the queue of its level (and the level out of the book when the queue
    becomes empty), sets the status to cancelled and returns the identifier
    with that status, so that a second cancellation of the same order fails
    with 400.  In a state reached by submissions with fresh identifiers and
    cancellations, the order to cancel rests in the queue its document
    names, and after the cancellation it rests in no queue of any book. *)
Theorem cancel_order_outcome cancel user st :
  let oid := co_order_id cancel in
  let out := cancel_order cancel user st in
  (find_one oid (orders_collection st) = None ->
   out_result out = Raised (HTTPException 404 "Order not found") /\
   out_state out = st) /\
  (forall d,
     find_one oid (orders_collection st) = Some d ->
     doc_status d = "filled" \/ doc_status d = "cancelled" ->
     out_result out = Raised (HTTPException 400 "Order already finalized") /\
     out_state out = st) /\
  (forall d,
     find_one oid (orders_collection st) = Some d ->
     doc_status d <> "filled" -> doc_status d <> "cancelled" ->
     out_result out = Returned [("order_id", VStr oid); ("status", VStr "cancelled")] /\
     order_status oid (out_state out) = Some "cancelled" /\
     (forall price q1 o q2,
        doc_price d = Some price ->
        SortedDict.getitem price (own (doc_side d) (book_at (upper (doc_symbol d)) st))
          = Some (q1 ++ o :: q2) ->
        ro_order_id o = oid ->
        (forall x, In x q1 -> ro_order_id x <> oid) ->
        own (doc_side d) (book_at (upper (doc_symbol d)) (out_state out))
        = level_becomes price (q1 ++ q2)
            (own (doc_side d) (book_at (upper (doc_symbol d)) st))) /\
     (forall user',
        out_result (cancel_order cancel user' (out_state out))
        = Raised (HTTPException 400 "Order already finalized")) /\
     (reachable_fresh st ->
      (exists price,
         doc_price d = Some price /\
         In oid (ids (queue_at (upper (doc_symbol d)) (String.eqb (doc_side d) "buy")
                        price st))) /\
      (forall key bid_side price,
         ~ In oid (ids (queue_at key bid_side price (out_state out)))))).
Proof.
  intros oid out. split; [|split].
  - intros Hnone. unfold out, cancel_order. fold oid. rewrite Hnone. auto.
  - intros d Hd Hterm. apply terminal_status in Hterm.
    unfold out, cancel_order. fold oid. rewrite Hd, Hterm. auto.
  - intros d Hd Hf Hc.
    assert (Hlive : existsb (String.eqb (doc_status d)) ["filled"; "cancelled"] = false).
    { destruct (existsb _ _) eqn:E; [|reflexivity].
      apply terminal_status in E. tauto. }
    destruct (cancel_order_live cancel user st d Hd Hlive)
      as (Hres & Hstat & _ & _ & _ & Hown).
    fold oid out in Hres, Hstat, Hown.
    split; [exact Hres|]. split; [exact Hstat|]. split; [|split].
    + intros price q1 o q2 Hp Hq Ho Hq1. rewrite Hown, Hp, Hq.
      rewrite (remove_order_split _ _ _ _ Ho Hq1). reflexivity.
    + intros user'. unfold order_status in Hstat.
      destruct (find_one oid (orders_collection (out_state out))) as [d'|] eqn:Hd';
        [|discriminate].
      injection Hstat as Hs'.
      unfold cancel_order. fold oid. rewrite Hd', Hs'. reflexivity.
    + intros Hr. split.
      * apply (reachable_fresh_live_rest st Hr oid d Hd); [split; assumption|discriminate].
      * assert (Hok : state_ok st)
          by apply reachable_state_ok, reachable_fresh_reachable, Hr.
        destruct (indexed_cancel cancel user st Hok (reachable_fresh_indexed st Hr))
          as [_ Hgone].
        exact (Hgone d Hd Hlive).
Qed.

Lemma cancel_order_outcome_witness :
  find_one "ORDER-X" (orders_collection one_bid)
    = Some (new_order_doc (env_of "X") (order_of "limit" "buy" 10 (Some 99)) alice) /\
  out_result (cancel_order (mkCancelOrder "ORDER-X") alice one_bid)
    = Returned [("order_id", VStr "ORDER-X"); ("status", VStr "cancelled")] /\
  order_status "ORDER-X" (out_state (cancel_order (mkCancelOrder "ORDER-X") alice one_bid))
    = Some "cancelled" /\
  out_result
    (cancel_order (mkCancelOrder "ORDER-X") alice
       (out_state (cancel_order (mkCancelOrder "ORDER-X") alice one_bid)))
    = Raised (HTTPException 400 "Order already finalized") /\
  reachable_fresh one_bid /\
  In "ORDER-X" (ids (queue_at "BTC-USD" true 99 one_bid)) /\
  forall key bid_side price,
    ~ In "ORDER-X"
        (ids (queue_at key bid_side price
                (out_state (cancel_order (mkCancelOrder "ORDER-X") alice one_bid)))).
Proof.
  assert (Hd : find_one "ORDER-X" (orders_collection one_bid)
               = Some (new_order_doc (env_of "X") (order_of "limit" "buy" 10 (Some 99)) alice))
    by (vm_compute; reflexivity).
  assert (Hr : reachable_fresh one_bid)
    by (apply (fresh_submit initial_state (env_of "X")
                 (order_of "limit" "buy" 10 (Some 99)) alice fresh_init); reflexivity).
  split; [exact Hd|].
  destruct (proj2 (proj2 (cancel_order_outcome (mkCancelOrder "ORDER-X") alice one_bid))
              _ Hd ltac:(discriminate) ltac:(discriminate))
    as (Hres & Hst & _ & Hagain & Hrest).
  split; [exact Hres|]. split; [exact Hst|]. split; [exact (Hagain alice)|].
  split; [exact Hr|].
  destruct (Hrest Hr) as [(price & Hp & Hin) Hgone].
  split; [|exact Hgone].
  injection Hp as <-. exact Hin.
Defined.

(** * Further properties of the code *)

(** ** Authentication *)

Lemma fake_users_db_lookup name user :
  fake_users_db !! name = Some user <-> name = "alice" /\ user = alice.
Proof.
  unfold fake_users_db, alice. rewrite lookup_singleton_Some. intuition congruence.
Qed.

Lemma login_returns form_username form_password resp :
  login form_username form_password = inr resp ->
  form_username = "alice" /\ form_password = "secret" /\
  resp = [("access_token", VStr "alice"); ("token_type", VStr "bearer")].
Proof.
  unfold login.
  destruct (fake_users_db !! form_username) as [user|] eqn:Hu; [|discriminate].
  apply fake_users_db_lookup in Hu as [-> ->].
  destruct (String.eqb (hashed_password alice) form_password) eqn:Hp; [|discriminate].
  apply String.eqb_eq in Hp. intros [= <-]. auto.
Qed.

(** X1: the token [login] returns is the user's name, [get_current_user]
    accepts it and gives back the user who logged in, so that a request
    sent with it runs as that user; and [login] fails with the same 400
    whether the user is unknown or the password is wrong. *)
Theorem login_token_round_trip form_username form_password :
  (forall resp,
     login form_username form_password = inr resp ->
     exists user,
       resp = [("access_token", VStr form_username); ("token_type", VStr "bearer")] /\
       username user = form_username /\
       hashed_password user = form_password /\
       get_current_user form_username = inr user /\
       (forall env order st,
          post_submit_order form_username env order st = submit_order env order user st) /\
       (forall cancel st,
          post_cancel_order form_username cancel st = cancel_order cancel user st)) /\
  (forall e,
     login form_username form_password = inl e ->
     e = HTTPException 400 "Incorrect username or password" /\
     (fake_users_db !! form_username = None \/
      exists user, fake_users_db !! form_username = Some user /\
                   hashed_password user <> form_password)).
Proof.
  unfold login. split.
  - intros resp Hl.
    destruct (fake_users_db !! form_username) as [user|] eqn:Hu; [|discriminate].
    destruct (String.eqb (hashed_password user) form_password) eqn:Hp; [|discriminate].
    apply String.eqb_eq in Hp. injection Hl as <-.
    pose proof (proj1 (fake_users_db_lookup _ _) Hu) as [-> ->].
    exists alice. unfold post_submit_order, post_cancel_order, get_current_user.
    rewrite Hu. repeat split; auto.
  - intros e Hl.
    destruct (fake_users_db !! form_username) as [user|] eqn:Hu.
    + destruct (String.eqb (hashed_password user) form_password) eqn:Hp; [discriminate|].
      injection Hl as <-. split; [reflexivity|]. right. exists user. split; [reflexivity|].
      intros H. rewrite H, String.eqb_refl in Hp. discriminate.
    + injection Hl as <-. auto.
Qed.

(** X2: a request whose token no login gives out is turned down with 401
    before it does anything: the state is the same and nothing was
    awaited. *)
Theorem unauthenticated_request_rejected token :
  (forall form_username form_password resp,
     login form_username form_password = inr resp ->
     field "access_token" resp <> Some (VStr token)) ->
  get_current_user token
    = inl (HTTPException 401 "Invalid authentication credentials") /\
  (forall env order st,
     post_submit_order token env order st
     = mkOutcome st (Raised (HTTPException 401 "Invalid authentication credentials")) []) /\
  (forall cancel st,
     post_cancel_order token cancel st
     = mkOutcome st (Raised (HTTPException 401 "Invalid authentication credentials")) []).
Proof.
  intros Hno.
  assert (Hg : get_current_user token
               = inl (HTTPException 401 "Invalid authentication credentials")).
  { unfold get_current_user.
    destruct (fake_users_db !! token) as [user|] eqn:Hu; [|reflexivity].
    apply fake_users_db_lookup in Hu as [-> ->].
    exfalso. apply (Hno "alice" "secret" _ eq_refl). reflexivity. }
  unfold post_submit_order, post_cancel_order. rewrite Hg. auto.
Qed.

Lemma login_token_round_trip_witness :
  login "alice" "secret"
    = inr [("access_token", VStr "alice"); ("token_type", VStr "bearer")] /\
  get_current_user "alice" = inr alice.
Proof.
  assert (H : login "alice" "secret"
              = inr [("access_token", VStr "alice"); ("token_type", VStr "bearer")])
    by reflexivity.
  split; [exact H|].
  destruct (proj1 (login_token_round_trip "alice" "secret") _ H)
    as (user & _ & Hn & Hp & Hg & _).
  rewrite Hg. f_equal. destruct user as [n p]. simpl in Hn, Hp. subst. reflexivity.
Defined.

Lemma unauthenticated_request_rejected_witness :
  (forall form_username form_password resp,
     login form_username form_password = inr resp ->
     field "access_token" resp <> Some (VStr "mallory")) /\
  post_submit_order "mallory" (env_of "M") (order_of "limit" "buy" 10 (Some 99)) one_ask
  = mkOutcome one_ask (Raised (HTTPException 401 "Invalid authentication credentials")) [].
Proof.
  assert (H : forall form_username form_password resp,
             login form_username form_password = inr resp ->
             field "access_token" resp <> Some (VStr "mallory")).
  { intros u p resp Hl. destruct (login_returns u p resp Hl) as (_ & _ & ->).
    discriminate. }
  split; [exact H|].
  exact (proj1 (proj2 (unauthenticated_request_rejected "mallory" H)) _ _ _).
Defined.

(** ** The book of a symbol *)

(** X3: [get_order_book] gets or creates: it returns the book stored under
    the upper-cased symbol, an empty one that it stores when there was
    none; it changes no other book and no collection; a second call, with
    the symbol in any case, returns the same book and changes nothing. *)
Theorem get_order_book_get_or_create symbol st :
  let st' := fst (get_order_book symbol st) in
  let book := snd (get_order_book symbol st) in
  order_books st' !! upper symbol = Some book /\
  book = default empty_book (order_books st !! upper symbol) /\
  (is_Some (order_books st !! upper symbol) -> st' = st) /\
  (forall key, key <> upper symbol -> order_books st' !! key = order_books st !! key) /\
  orders_collection st' = orders_collection st /\
  trades_collection st' = trades_collection st /\
  broadcasts st' = broadcasts st /\
  (forall symbol', upper symbol' = upper symbol ->
                   get_order_book symbol' st' = (st', book)).
Proof.
  intros st' book. unfold st', book, get_order_book.
  destruct (order_books st !! upper symbol) as [b|] eqn:E; cbn [fst snd].
  - rewrite E. repeat split; auto. intros symbol' ->. rewrite E. reflexivity.
  - unfold put_book, set_books. cbn [order_books orders_collection trades_collection
                                      broadcasts].
    rewrite lookup_insert_eq. repeat split; auto.
    + intros [x Hx]. discriminate.
    + intros key Hne. apply lookup_insert_ne. congruence.
    + intros symbol' ->. cbn [order_books]. rewrite lookup_insert_eq. reflexivity.
Qed.

(** ** The subscribers of the trade events *)

Lemma subscribers_remove_first ws l1 l2 :
  ~ In ws l1 -> subscribers_remove ws (l1 ++ ws :: l2) = Some (l1 ++ l2).
Proof.
  induction l1 as [|x r IH]; intros Hn; simpl.
  - rewrite Nat.eqb_refl. reflexivity.
  - destruct (Nat.eqb x ws) eqn:E.
    + apply Nat.eqb_eq in E. exfalso. apply Hn. simpl. auto.
    + rewrite IH by (intros H; apply Hn; simpl; auto). reflexivity.
Qed.

Lemma broadcast_loop_filter send_ok ev done copy sent :
  broadcast_loop send_ok ev copy (List.filter send_ok done ++ copy) sent
  = Some (List.filter send_ok (done ++ copy),
          sent ++ map (fun ws => (ws, ev)) (List.filter send_ok copy)).
Proof.
  revert done sent. induction copy as [|ws rest IH]; intros done sent; simpl.
  - rewrite !app_nil_r. reflexivity.
  - destruct (send_ok ws) eqn:E.
    + replace (List.filter send_ok done ++ ws :: rest)
        with (List.filter send_ok (done ++ [ws]) ++ rest)
        by (rewrite List.filter_app; simpl; rewrite E, <- app_assoc; reflexivity).
      rewrite IH, <- !app_assoc. reflexivity.
    + rewrite subscribers_remove_first.
      2:{ intros H. apply List.filter_In in H as [_ H]. congruence. }
      replace (List.filter send_ok done) with (List.filter send_ok (done ++ [ws]))
        by (rewrite List.filter_app; simpl; rewrite E, app_nil_r; reflexivity).
      rewrite IH, <- !app_assoc. reflexivity.
Qed.

(** X4: [broadcast_trade] never raises; it sends the event once to every
    subscriber whose send goes through, in the order of subscription, and
    leaves exactly these subscribed, in that order: every connection whose
    send fails is gone, also one that subscribed more than once. A
    connection that has just subscribed is sent the event last. *)
Theorem broadcast_trade_delivers send_ok trade_event trade_subscribers :
  broadcast_trade send_ok trade_event trade_subscribers
  = Some (List.filter send_ok trade_subscribers,
          map (fun ws => (ws, trade_event)) (List.filter send_ok trade_subscribers)) /\
  (forall websocket,
     send_ok websocket = true ->
     broadcast_trade send_ok trade_event (trades_ws_subscribe websocket trade_subscribers)
     = Some (trades_ws_subscribe websocket (List.filter send_ok trade_subscribers),
             map (fun ws => (ws, trade_event)) (List.filter send_ok trade_subscribers)
               ++ [(websocket, trade_event)])).
Proof.
  assert (H : forall subs,
             broadcast_trade send_ok trade_event subs
             = Some (List.filter send_ok subs,
                     map (fun ws => (ws, trade_event)) (List.filter send_ok subs))).
  { intros subs. unfold broadcast_trade.
    apply (broadcast_loop_filter send_ok trade_event [] subs []). }
  split; [apply H|].
  intros websocket Hok. rewrite H. unfold trades_ws_subscribe.
  rewrite List.filter_app, map_app. simpl. rewrite Hok. reflexivity.
Qed.

(** ** What a submission raises and what it reads *)

(** X5: between requests, a submission raises nothing but the two 400s of
    its validation, and then it has persisted nothing: the subscripts
    [book['asks'][match_price]] and [queue[0]] of the matching loop never
    raise. *)
Theorem submit_order_raises env order user st :
  reachable st ->
  let out := submit_order env order user st in
  (oi_quantity order <= 0 ->
   out = mkOutcome st (Raised (HTTPException 400 "Quantity must be positive")) []) /\
  (0 < oi_quantity order ->
   priced_type (lower (oi_order_type order)) = true -> oi_price order = None ->
   out = mkOutcome st (Raised (HTTPException 400 "Limit orders require a price")) []) /\
  (accepted order ->
   exists resp,
     out_result out = Returned resp /\
     is_Some (find_one ("ORDER-" +:+ uuid_order env) (orders_collection (out_state out)))).
Proof.
  intros Hr out. split; [|split].
  - intros Hq. unfold out, submit_order. replace (_ <=? 0) with true by lia. reflexivity.
  - intros Hq Hp Hn. unfold out, submit_order. replace (_ <=? 0) with false by lia.
    rewrite Hp, Hn. reflexivity.
  - intros Ha. unfold out. rewrite (submit_order_accepted _ _ _ _ Ha). cbv zeta.
    set (lc := submit_locals env order).
    set (lp0 := submit_loop env order user st).
    destruct (submit_start_collections env order user st) as (_ & _ & Hfind).
    change ("ORDER-" +:+ uuid_order env) with (lc_order_id lc) in *.
    destruct (_ && _).
    + eexists. split; [reflexivity|]. cbn [out_state db_update set_orders orders_collection].
      apply find_one_update_one_is_Some; [reflexivity|exact Hfind].
    + assert (Hok0 : state_ok (lp_st lp0)).
      { intros key. unfold lp0. cbn [submit_loop lp_st].
        rewrite submit_start_book_at. apply reachable_state_ok, Hr. }
      rewrite (run_match_loop_no_exception env lc lp0 Hok0).
      eexists. split; [reflexivity|]. cbn [out_state].
      destruct (run_match_loop_effects env lc lp0) as (_ & Hfind' & _).
      destruct (handle_remaining_orders lc (fst (run_match_loop env lc lp0)))
        as (f & -> & Hf & _).
      apply find_one_update_one_is_Some; [apply Hf|]. apply Hfind', Hfind.
Qed.

Lemma submit_order_raises_witness :
  reachable one_ask /\
  accepted (order_of "market" "buy" 15 None) /\
  exists resp,
    out_result (submit "T" "market" "buy" 15 None one_ask) = Returned resp /\
    is_Some (find_one "ORDER-T"
               (orders_collection (out_state (submit "T" "market" "buy" 15 None one_ask)))).
Proof.
  assert (Hr : reachable one_ask) by (apply reach_submit, reach_init).
  assert (Ha : accepted (order_of "market" "buy" 15 None))
    by (split; [reflexivity|discriminate]).
  split; [exact Hr|]. split; [exact Ha|].
  exact (proj2 (proj2 (submit_order_raises (env_of "T") (order_of "market" "buy" 15 None)
                         alice one_ask Hr)) Ha).
Defined.

(** X6: a submission reads the symbol in upper case, the side and the type
    in lower case, and the price only for the types limit, ioc and fok:
    two orders that agree on these are handled alike, so that a market
    order is handled the same whatever price it carries. *)
Theorem submit_order_reads env order order' user st :
  upper (oi_symbol order) = upper (oi_symbol order') ->
  lower (oi_side order) = lower (oi_side order') ->
  lower (oi_order_type order) = lower (oi_order_type order') ->
  oi_quantity order = oi_quantity order' ->
  (priced_type (lower (oi_order_type order)) = true -> oi_price order = oi_price order') ->
  submit_order env order user st = submit_order env order' user st.
Proof.
  intros Hs Hd Ht Hq Hp. unfold submit_order.
  rewrite <- Hs, <- Hd, <- Ht, <- Hq.
  destruct (priced_type (lower (oi_order_type order))) eqn:E.
  - rewrite <- (Hp eq_refl). reflexivity.
  - cbn [andb]. reflexivity.
Qed.

Lemma submit_order_reads_witness :
  submit_order (env_of "T") (order_of "market" "buy" 15 None) alice two_asks
  = submit_order (env_of "T")
      {| oi_symbol := "BTC-usd"; oi_order_type := "Market"; oi_side := "BUY";
         oi_quantity := 15; oi_price := Some 7 |} alice two_asks.
Proof.
  apply submit_order_reads; try reflexivity.
  intros H. vm_compute in H. discriminate H.
Defined.

(** ** The levels of a book *)

(** X7: between requests, no book holds an empty price level, the prices
    of a side are distinct and every bid price is below every ask price:
    a level is deleted with its last order, lines 202-207 and 260-261. *)
Theorem no_empty_price_level st symbol book :
  reachable st ->
  order_books st !! symbol = Some book ->
  no_empty_level (bids book) /\ no_empty_level (asks book) /\
  List.NoDup (SortedDict.keys (bids book)) /\ List.NoDup (SortedDict.keys (asks book)) /\
  all_below book.
Proof.
  intros Hr Hb. pose proof (reachable_state_ok st Hr symbol) as [[[Hsb Hlb] [Hsa Hla]] Hbelow].
  unfold book_at in *. rewrite Hb in *. cbn [default from_option id] in *.
  assert (Hne : forall d : SortedDict.t deque, Forall level_ok d -> no_empty_level d).
  { intros d. apply List.Forall_impl. intros lv [H _]. exact H. }
  assert (Hnd : forall d : SortedDict.t deque,
             SortedDict.sorted d = true -> List.NoDup (SortedDict.keys d)).
  { intros d. unfold SortedDict.sorted.
    assert (Hfrom : forall ks lo, SortedDict.sorted_from lo ks = true ->
                      List.NoDup ks /\ forall k, In k ks -> lo < k).
    { induction ks as [|k r IH]; intros lo; simpl.
      - intros _. split; [constructor|tauto].
      - intros H. apply andb_true_iff in H as [Hlt Hs]. apply Z.ltb_lt in Hlt.
        destruct (IH k Hs) as [Hn Hall]. split.
        + constructor; [|exact Hn]. intros Hin. specialize (Hall k Hin). lia.
        + intros x [<-|Hx]; [exact Hlt|]. specialize (Hall x Hx). lia. }
    destruct (SortedDict.keys d) as [|k r]; [constructor|].
    intros Hs. destruct (Hfrom r k Hs) as [Hn Hall].
    constructor; [|exact Hn]. intros Hin. specialize (Hall k Hin). lia. }
  repeat split; auto.
Qed.

Lemma no_empty_price_level_witness :
  reachable two_sided /\
  order_books two_sided !! "BTC-USD"
    = Some {| bids := [(99, [mkResting "ORDER-X" 10])];
              asks := [(100, [mkResting "ORDER-A" 10])] |} /\
  all_below {| bids := [(99, [mkResting "ORDER-X" 10])];
               asks := [(100, [mkResting "ORDER-A" 10])] |}.
Proof.
  assert (Hr : reachable two_sided) by (apply reach_submit, reach_submit, reach_init).
  assert (Hb : order_books two_sided !! "BTC-USD"
               = Some {| bids := [(99, [mkResting "ORDER-X" 10])];
                         asks := [(100, [mkResting "ORDER-A" 10])] |})
    by (vm_compute; reflexivity).
  split; [exact Hr|]. split; [exact Hb|].
  exact (proj2 (proj2 (proj2 (proj2 (no_empty_price_level two_sided "BTC-USD" _ Hr Hb))))).
Defined.

(** ** The record of the trades *)

Lemma handle_remaining_broadcasts lc lp :
  broadcasts (fst (handle_remaining lc lp)) = broadcasts (lp_st lp).
Proof.
  unfold handle_remaining.
  destruct (lp_remaining lp >? 0); [|reflexivity].
  destruct (String.eqb (lc_typ lc) "limit"); [|reflexivity].
  destruct (match lc_price lc with Some p => Some p | None => lp_match_price lp end);
    reflexivity.
Qed.

(** What a submission adds to the trades collection and to the events. *)
Lemma submit_order_logs env order user st :
  exists new,
    trades_collection (out_state (submit_order env order user st))
    = trades_collection st ++ new /\
    broadcasts (out_state (submit_order env order user st)) = broadcasts st ++ new /\
    forall resp,
      out_result (submit_order env order user st) = Returned resp ->
      new = response_trades resp.
Proof.
  destruct (accepted_dec order) as [Ha|Hn].
  2:{ destruct (submit_order_rejected env order user st Hn) as [detail ->].
      exists []. cbn [out_state out_result]. rewrite !app_nil_r.
      repeat split. discriminate. }
  rewrite (submit_order_accepted _ _ _ _ Ha). cbv zeta.
  set (lc := submit_locals env order).
  set (lp0 := submit_loop env order user st).
  destruct (submit_start_collections env order user st) as (Htc & Hbc & _).
  destruct (_ && _).
  - exists []. cbn [out_state out_result db_update set_orders trades_collection broadcasts].
    rewrite !app_nil_r. cbn [lp0 submit_loop lp_st].
    split; [exact Htc|]. split; [exact Hbc|]. intros resp [= <-]. reflexivity.
  - destruct (run_match_loop_effects env lc lp0) as ((new & Htr & Htc' & Hbc') & _).
    cbn [lp0 submit_loop lp_st lp_trades] in Htr, Htc', Hbc'.
    rewrite Htc in Htc'. rewrite Hbc in Hbc'. simpl in Htr.
    exists new.
    destruct (snd (run_match_loop env lc lp0)); cbn [out_state out_result].
    + split; [exact Htc'|]. split; [exact Hbc'|]. discriminate.
    + rewrite handle_remaining_trades, handle_remaining_broadcasts.
      split; [exact Htc'|]. split; [exact Hbc'|].
      intros resp [= <-]. rewrite Htr. reflexivity.
Qed.

Lemma cancel_order_logs cancel user st :
  trades_collection (out_state (cancel_order cancel user st)) = trades_collection st /\
  broadcasts (out_state (cancel_order cancel user st)) = broadcasts st.
Proof.
  unfold cancel_order.
  destruct (find_one _ _) as [d|]; [|auto].
  destruct (existsb _ _); [auto|].
  pose proof (get_order_book_collections (doc_symbol d) st) as (_ & Ht & Hb).
  destruct (get_order_book (doc_symbol d) st) as [st1 book]. cbn [fst] in Ht, Hb.
  cbn [out_state db_update set_orders trades_collection broadcasts].
  rewrite <- Ht, <- Hb.
  destruct (doc_price d); [|auto].
  destruct (SortedDict.contains _ _); [|auto].
  destruct (SortedDict.getitem _ _) as [[|]|]; auto.
Qed.

(** X8: the trades a submission returns are the ones it has inserted into
    the trades collection and handed to [broadcast_trade], in that order,
    and nothing else is inserted or published; a cancellation inserts and
    publishes nothing; so, between requests, the published events are the
    trades collection. *)
Theorem trades_recorded :
  (forall env order user st resp,
     out_result (submit_order env order user st) = Returned resp ->
     trades_collection (out_state (submit_order env order user st))
     = trades_collection st ++ response_trades resp /\
     broadcasts (out_state (submit_order env order user st))
     = broadcasts st ++ response_trades resp) /\
  (forall cancel user st,
     trades_collection (out_state (cancel_order cancel user st)) = trades_collection st /\
     broadcasts (out_state (cancel_order cancel user st)) = broadcasts st) /\
  (forall st, reachable st -> broadcasts st = trades_collection st).
Proof.
  split; [|split].
  - intros env order user st resp Hres.
    destruct (submit_order_logs env order user st) as (new & Ht & Hb & Hnew).
    rewrite <- (Hnew resp Hres). auto.
  - apply cancel_order_logs.
  - induction 1 as [|st env order user _ IH|st cancel user _ IH].
    + reflexivity.
    + destruct (submit_order_logs env order user st) as (new & -> & -> & _).
      rewrite IH. reflexivity.
    + destruct (cancel_order_logs cancel user st) as [-> ->]. exact IH.
Qed.

Lemma trades_recorded_witness :
  out_result (submit "T" "market" "buy" 15 None two_asks)
    = Returned [("order_id", VStr "ORDER-T");
                ("trades", VTrades [trade_T 0 100 10 "ORDER-A"; trade_T 1 100 5 "ORDER-B"])] /\
  trades_collection (out_state (submit "T" "market" "buy" 15 None two_asks))
    = [trade_T 0 100 10 "ORDER-A"; trade_T 1 100 5 "ORDER-B"] /\
  broadcasts (out_state (submit "T" "market" "buy" 15 None two_asks))
    = [trade_T 0 100 10 "ORDER-A"; trade_T 1 100 5 "ORDER-B"].
Proof.
  assert (H : out_result (submit "T" "market" "buy" 15 None two_asks)
    = Returned [("order_id", VStr "ORDER-T");
                ("trades", VTrades [trade_T 0 100 10 "ORDER-A"; trade_T 1 100 5 "ORDER-B"])])
    by (vm_compute; reflexivity).
  split; [exact H|].
  exact (proj1 trades_recorded (env_of "T") (order_of "market" "buy" 15 None)
           alice two_asks _ H).
Defined.

(** X9: the j-th trade of a response bears the j-th identifier and the
    j-th clock reading drawn for the trades of the request, the
    upper-cased symbol, the submitted order as the taker and its
    lower-cased side as the aggressor side. *)
Theorem trade_fields env order user st oid trades j t :
  out_result (submit_order env order user st)
    = Returned [("order_id", VStr oid); ("trades", VTrades trades)] ->
  trades !! j = Some t ->
  oid = "ORDER-" +:+ uuid_order env /\
  trade_id t = "TRADE-" +:+ uuid_trade env j /\
  tr_timestamp t = utcnow_trade env j /\
  tr_symbol t = upper (oi_symbol order) /\
  taker_order_id t = oid /\
  aggressor_side t = lower (oi_side order).
Proof.
  intros Hres Hj.
  apply submit_order_returned_trades in Hres as (_ & -> & _ & ->).
  set (lc := submit_locals env order) in *.
  set (lp0 := submit_loop env order user st) in *.
  split; [reflexivity|].
  set (F := fun (j : nat) (t : Trade) =>
              trade_id t = "TRADE-" +:+ uuid_trade env j /\
              tr_timestamp t = utcnow_trade env j /\
              tr_symbol t = upper (oi_symbol order) /\
              taker_order_id t = lc_order_id lc /\
              aggressor_side t = lower (oi_side order)).
  set (P := fun lp : Loop => forall j t, lp_trades lp !! j = Some t -> F j t).
  assert (HP : P (fst (run_match_loop env lc lp0))).
  { apply (run_match_loop_rule P (fun lp _ => P lp)).
    - auto.
    - intros lp HP _.
      destruct (loop_body_cases env lc lp)
        as [[_ ->]|[(e & lp' & -> & _ & Htr & _)
                  |(p & m & r & lp' & _ & -> & _ & _ & Htr & _)]].
      + exact HP.
      + unfold P. rewrite Htr. exact HP.
      + assert (HP' : P lp').
        { unfold P. rewrite Htr. intros k x Hk.
          apply lookup_app_Some in Hk as [Hk|[Hle Hk]]; [apply HP, Hk|].
          destruct (k - length (lp_trades lp))%nat eqn:E; [|discriminate].
          injection Hk as <-.
          assert (k = length (lp_trades lp)) as -> by lia.
          unfold F, trade_of. cbn. auto. }
        destruct (String.eqb (lc_typ lc) "ioc"); exact HP'.
    - intros k x Hk. discriminate. }
  exact (HP j t Hj).
Qed.

Lemma trade_fields_witness :
  out_result (submit "T" "market" "buy" 15 None two_asks)
    = Returned [("order_id", VStr "ORDER-T");
                ("trades", VTrades [trade_T 0 100 10 "ORDER-A"; trade_T 1 100 5 "ORDER-B"])] /\
  [trade_T 0 100 10 "ORDER-A"; trade_T 1 100 5 "ORDER-B"] !! 1%nat
    = Some (trade_T 1 100 5 "ORDER-B") /\
  trade_id (trade_T 1 100 5 "ORDER-B") = "TRADE-" +:+ uuid_trade (env_of "T") 1 /\
  taker_order_id (trade_T 1 100 5 "ORDER-B") = "ORDER-T".
Proof.
  assert (H : out_result (submit "T" "market" "buy" 15 None two_asks)
    = Returned [("order_id", VStr "ORDER-T");
                ("trades", VTrades [trade_T 0 100 10 "ORDER-A"; trade_T 1 100 5 "ORDER-B"])])
    by (vm_compute; reflexivity).
  split; [exact H|]. split; [reflexivity|].
  destruct (trade_fields (env_of "T") (order_of "market" "buy" 15 None) alice two_asks
              _ _ 1%nat _ H eq_refl) as (_ & Hid & _ & _ & Htk & _).
  split; [exact Hid|exact Htk].
Defined.

(** ** The side of the book a submission rests on *)

(** The matching loop leaves the side of the taker alone, and what is
    traded is taken off what remains. *)
Lemma run_match_loop_own env lc lp0 :
  let lp := fst (run_match_loop env lc lp0) in
  own (lc_side lc) (book_at (upper (lc_symbol lc)) (lp_st lp))
  = own (lc_side lc) (book_at (upper (lc_symbol lc)) (lp_st lp0)) /\
  traded_quantity (lp_trades lp) + lp_remaining lp
  = traded_quantity (lp_trades lp0) + lp_remaining lp0 /\
  (0 <= lp_remaining lp0 -> 0 <= lp_remaining lp).
Proof.
  set (P := fun lp : Loop =>
    own (lc_side lc) (book_at (upper (lc_symbol lc)) (lp_st lp))
    = own (lc_side lc) (book_at (upper (lc_symbol lc)) (lp_st lp0)) /\
    traded_quantity (lp_trades lp) + lp_remaining lp
    = traded_quantity (lp_trades lp0) + lp_remaining lp0 /\
    (0 <= lp_remaining lp0 -> 0 <= lp_remaining lp)).
  apply (run_match_loop_rule P (fun lp _ => P lp)).
  - auto.
  - intros lp (Hown & Hsum & Hpos) Hrem.
    destruct (loop_body_cases env lc lp)
      as [[_ ->]|[(e & lp' & -> & Hst & Htr & Hrm & _)
                |(p & m & r & lp' & _ & -> & Hst & Hrm & Htr & _)]].
    + unfold P. auto.
    + unfold P. rewrite Hst, Htr, Hrm. auto.
    + assert (HP' : P lp').
      { unfold P. rewrite Hst, book_at_state_after_match, on_opposite_own, Htr, Hrm.
        rewrite traded_quantity_app. cbn [traded_quantity fold_right trade_of tr_quantity].
        split; [exact Hown|]. split; lia. }
      destruct (String.eqb (lc_typ lc) "ioc"); exact HP'.
  - unfold P. auto.
Qed.

(** ** The opposite side after the loop *)

Lemma handle_remaining_opposite lc lp :
  opposite (lc_side lc) (book_at (upper (lc_symbol lc)) (fst (handle_remaining lc lp)))
  = opposite (lc_side lc) (book_at (upper (lc_symbol lc)) (lp_st lp)).
Proof.
  unfold handle_remaining.
  destruct (lp_remaining lp >? 0); [|reflexivity].
  destruct (String.eqb (lc_typ lc) "limit"); [|reflexivity].
  destruct (match lc_price lc with Some p => Some p | None => lp_match_price lp end);
    [|reflexivity].
  cbn [fst]. rewrite book_at_db_update, book_at_put_book, on_own_opposite. reflexivity.
Qed.

(** ** Immediate-or-cancel, as the code has it *)

Lemma select_level_priority side price b p q rest :
  SortedDict.sorted (opposite side b) = true ->
  priority side b = (p, q) :: rest ->
  select_level side price b = if marketable side price p then Some (p, Some q) else None.
Proof.
  intros Hs Hp. destruct (select_level side price b) as [[p' oq]|] eqn:Hsel.
  - apply select_level_some in Hsel as (Hmk & -> & _ & q0 & rest' & Hp').
    rewrite Hp in Hp'. injection Hp' as <- <- <-.
    rewrite Hmk, (priority_head _ _ _ _ _ Hs Hp). reflexivity.
  - apply select_level_none in Hsel. rewrite Hp in Hsel. rewrite Hsel. reflexivity.
Qed.

(** The loop of an immediate-or-cancel order makes one turn. *)
Lemma run_match_loop_ioc env lc lp0 :
  String.eqb (lc_typ lc) "ioc" = true ->
  0 < lp_remaining lp0 ->
  lp_trades (fst (run_match_loop env lc lp0))
  = match select_level (lc_side lc) (lc_price lc)
            (book_at (upper (lc_symbol lc)) (lp_st lp0)) with
    | Some (p, Some (m :: _)) =>
        lp_trades lp0
          ++ [trade_of env lc (length (lp_trades lp0)) p
                (Z.min (lp_remaining lp0) (ro_quantity m)) m]
    | _ => lp_trades lp0
    end.
Proof.
  intros Hioc Hrem.
  apply (run_match_loop_rule
           (fun lp => lp = lp0)
           (fun lp _ =>
              lp_trades lp
              = match select_level (lc_side lc) (lc_price lc)
                        (book_at (upper (lc_symbol lc)) (lp_st lp0)) with
                | Some (p, Some (m :: _)) =>
                    lp_trades lp0
                      ++ [trade_of env lc (length (lp_trades lp0)) p
                            (Z.min (lp_remaining lp0) (ro_quantity m)) m]
                | _ => lp_trades lp0
                end)).
  - intros lp -> Hle. lia.
  - intros lp -> _.
    destruct (loop_body_cases env lc lp0)
      as [[Hsel ->]|[(e & lp' & -> & _ & Htr & _ & _ & p & Hsel & _)
                    |(p & m & r & lp' & Hsel & -> & _ & _ & Htr & _)]].
    + rewrite Hsel. reflexivity.
    + rewrite Hsel. exact Htr.
    + rewrite Hioc, Hsel. exact Htr.
  - reflexivity.
Qed.

(** X12: an immediate-or-cancel order makes at most one trade: with the
    order at the head of the queue of the best opposite level when that
    level is within its limit, for the smaller of the two quantities, and
    none otherwise. Whatever else is marketable is left untouched. *)
Theorem ioc_single_trade env order user st oid trades :
  let side := lower (oi_side order) in
  let book := book_for order st in
  reachable st ->
  lower (oi_order_type order) = "ioc" ->
  out_result (submit_order env order user st)
    = Returned [("order_id", VStr oid); ("trades", VTrades trades)] ->
  (priority side book = [] -> trades = []) /\
  (forall p q rest,
     priority side book = (p, q) :: rest ->
     marketable side (oi_price order) p = false -> trades = []) /\
  (forall p m r rest,
     priority side book = (p, m :: r) :: rest ->
     marketable side (oi_price order) p = true ->
     exists t,
       trades = [t] /\ tr_price t = p /\ maker_order_id t = ro_order_id m /\
       tr_quantity t = Z.min (oi_quantity order) (ro_quantity m)).
Proof.
  intros side book Hr Htyp Hres.
  pose proof (submit_order_returned_trades _ _ _ _ _ _ Hres) as (Ha & _ & _ & ->).
  set (lc := submit_locals env order).
  set (lp0 := submit_loop env order user st).
  assert (Hioc : String.eqb (lc_typ lc) "ioc" = true).
  { cbn [lc submit_locals lc_typ]. rewrite Htyp. reflexivity. }
  assert (Hq : 0 < lp_remaining lp0) by apply Ha.
  rewrite (run_match_loop_ioc env lc lp0 Hioc Hq).
  pose proof (submit_loop_book env order user st) as Hbook. fold lc lp0 book in Hbook.
  rewrite Hbook. change (lc_side lc) with side.
  assert (Hwp : lc_price lc = oi_price order).
  { cbn [lc submit_locals lc_price]. unfold working_price. rewrite Htyp. reflexivity. }
  rewrite Hwp.
  assert (Hs : SortedDict.sorted (opposite side book) = true).
  { destruct (reachable_state_ok st Hr (upper (oi_symbol order))) as [Hb _].
    apply (book_ok_sides side) in Hb as [_ [H _]]. exact H. }
  split; [|split].
  - intros Hp. rewrite (select_level_break side (oi_price order) book); [reflexivity|].
    rewrite Hp. exact I.
  - intros p q rest Hp Hmk.
    rewrite (select_level_priority _ (oi_price order) _ _ _ _ Hs Hp), Hmk. reflexivity.
  - intros p m r rest Hp Hmk.
    rewrite (select_level_priority _ (oi_price order) _ _ _ _ Hs Hp), Hmk.
    eexists. split; [reflexivity|]. cbn. auto.
Qed.

Lemma ioc_single_trade_witness :
  reachable two_asks /\
  out_result (submit "T" "ioc" "buy" 20 (Some 100) two_asks)
    = Returned [("order_id", VStr "ORDER-T"); ("trades", VTrades [trade_T 0 100 10 "ORDER-A"])] /\
  priority "buy" (book_at "BTC-USD" two_asks)
    = [(100, [mkResting "ORDER-A" 10; mkResting "ORDER-B" 10])] /\
  exists t,
    [trade_T 0 100 10 "ORDER-A"] = [t] /\ tr_price t = 100 /\
    maker_order_id t = "ORDER-A" /\ tr_quantity t = Z.min 20 10.
Proof.
  assert (Hr : reachable two_asks) by (apply reach_submit, reach_submit, reach_init).
  assert (H : out_result (submit "T" "ioc" "buy" 20 (Some 100) two_asks)
    = Returned [("order_id", VStr "ORDER-T"); ("trades", VTrades [trade_T 0 100 10 "ORDER-A"])])
    by (vm_compute; reflexivity).
  assert (Hp : priority "buy" (book_at "BTC-USD" two_asks)
               = [(100, [mkResting "ORDER-A" 10; mkResting "ORDER-B" 10])])
    by (vm_compute; reflexivity).
  split; [exact Hr|]. split; [exact H|]. split; [exact Hp|].
  exact (proj2 (proj2 (ioc_single_trade (env_of "T") (order_of "ioc" "buy" 20 (Some 100))
                         alice two_asks _ _ Hr eq_refl H))
           100 (mkResting "ORDER-A" 10) [mkResting "ORDER-B" 10] [] Hp eq_refl).
Defined.

(** ** The orders collection and the books *)

(** X13: in a state reached with fresh identifiers, an order rests in a
    queue exactly when its document is neither filled nor cancelled and
    names that queue by its symbol, side and price; and no queue holds an
    identifier twice. *)
Theorem resting_iff_live st x key bid_side p :
  reachable_fresh st ->
  (In x (ids (queue_at key bid_side p st)) <->
   exists d,
     find_one x (orders_collection st) = Some d /\
     live (doc_status d) /\ doc_locates d key bid_side p) /\
  List.NoDup (ids (queue_at key bid_side p st)).
Proof.
  intros Hr. destruct (reachable_fresh_indexed st Hr) as [L1 L2].
  split; [|apply L2]. split; [apply L1|].
  intros (d & Hd & Hl & <- & <- & Hp).
  destruct (reachable_fresh_live_rest st Hr x d Hd Hl) as (p' & Hp' & Hin);
    [discriminate|].
  rewrite Hp in Hp'. injection Hp' as <-. exact Hin.
Qed.

Lemma reachable_fresh_two_sided : reachable_fresh two_sided.
Proof.
  apply (fresh_submit _ (env_of "X") (order_of "limit" "buy" 10 (Some 99)) alice).
  - apply (fresh_submit _ (env_of "A") (order_of "limit" "sell" 10 (Some 100)) alice).
    + apply fresh_init.
    + reflexivity.
  - vm_compute. reflexivity.
Qed.


Lemma resting_iff_live_witness :
  reachable_fresh two_sided /\
  (In "ORDER-X" (ids (queue_at "BTC-USD" true 99 two_sided)) <->
   exists d,
     find_one "ORDER-X" (orders_collection two_sided) = Some d /\
     live (doc_status d) /\ doc_locates d "BTC-USD" true 99).
Proof.
  split; [exact reachable_fresh_two_sided|].
  exact (proj1 (resting_iff_live two_sided "ORDER-X" "BTC-USD" true 99
                  reachable_fresh_two_sided)).
Defined.

(** The document of the submitted order after lines 214-234. *)
Lemma handle_remaining_doc lc lp :
  (String.eqb (lc_typ lc) "limit" = true -> lc_price lc <> None) ->
  orders_collection (fst (handle_remaining lc lp))
  = update_one (lc_order_id lc) (final_update (lc_typ lc) (lp_remaining lp))
      (orders_collection (lp_st lp)).
Proof.
  intros Hprice. unfold handle_remaining, final_update.
  destruct (lp_remaining lp >? 0); [|reflexivity].
  destruct (String.eqb (lc_typ lc) "limit"); [|reflexivity].
  destruct (lc_price lc) as [rp|]; [reflexivity|].
  exfalso. apply Hprice; reflexivity.
Qed.

Lemma final_update_same_order typ remaining d : same_order d (final_update typ remaining d).
Proof.
  unfold final_update, same_order.
  destruct (remaining >? 0); [destruct (String.eqb typ "limit")|]; cbn; auto 10.
Qed.

Lemma maker_update_same_order q d : same_order d (maker_update q d).
Proof. unfold maker_update, same_order. destruct (q =? 0); cbn; auto 10. Qed.

Lemma find_one_update_one_cases x oid f docs :
  (forall d, doc_order_id (f d) = doc_order_id d) ->
  find_one x (update_one oid f docs)
  = if String.eqb x oid then f <$> find_one x docs else find_one x docs.
Proof.
  intros Hf. destruct (String.eqb x oid) eqn:E.
  - apply String.eqb_eq in E. subst. apply find_one_update_one, Hf.
  - apply String.eqb_neq in E. apply find_one_update_one_ne; assumption.
Qed.

(** ** The recorded quantity of a resting order *)

Lemma quantity_recorded_after_match env lc lp lp' p0 m r :
  state_ok (lp_st lp) ->
  select_level (lc_side lc) (lc_price lc) (book_at (upper (lc_symbol lc)) (lp_st lp))
    = Some (p0, Some (m :: r)) ->
  lp_st lp' = state_after_match env lc lp p0 m r ->
  indexed_loop lc lp ->
  quantity_recorded (lp_st lp) -> quantity_recorded (lp_st lp').
Proof.
  intros Hok Hsel Hst ((L1 & L2) & _ & Hno) Hqr.
  set (K := upper (lc_symbol lc)) in *.
  set (mb := negb (String.eqb (lc_side lc) "buy")).
  set (mq := ro_quantity m - Z.min (lp_remaining lp) (ro_quantity m)).
  assert (Hs : SortedDict.sorted (opposite (lc_side lc) (book_at K (lp_st lp))) = true).
  { destruct (Hok K) as [Hb _]. apply (book_ok_sides (lc_side lc)) in Hb as [_ [Hs _]].
    exact Hs. }
  assert (Hq : forall key bs p,
            queue_at key bs p (lp_st lp)
            = (if at_loc key bs p K mb p0 then m :: r else queue_at key bs p (lp_st lp)) /\
            queue_at key bs p (lp_st lp')
            = (if at_loc key bs p K mb p0
               then queue_after (lp_remaining lp) (m :: r)
               else queue_at key bs p (lp_st lp))).
  { intros key bs p. rewrite Hst. apply queue_at_after_match; assumption. }
  assert (Hdocs : orders_collection (lp_st lp')
                  = update_one (ro_order_id m) (maker_update mq)
                      (orders_collection (lp_st lp)))
    by (rewrite Hst; reflexivity).
  assert (Hm : queue_at K mb p0 (lp_st lp) = m :: r).
  { destruct (Hq K mb p0) as [H _]. rewrite H.
    rewrite (proj2 (at_loc_true K mb p0 K mb p0)) by auto. reflexivity. }
  assert (Hother : forall key bs p o,
            In o (queue_at key bs p (lp_st lp)) ->
            ro_order_id o <> ro_order_id m ->
            exists d,
              find_one (ro_order_id o) (orders_collection (lp_st lp')) = Some d /\
              doc_quantity d = ro_quantity o).
  { intros key bs p o Ho Hne. destruct (Hqr _ _ _ _ Ho) as (d & Hd & Hdq).
    exists d. split; [|exact Hdq]. rewrite Hdocs.
    rewrite find_one_update_one_ne; [exact Hd|apply maker_update_id|exact Hne]. }
  intros key bs p o Ho. destruct (Hq key bs p) as [Hbefore Hafter].
  rewrite Hafter in Ho. destruct (at_loc key bs p K mb p0) eqn:Eloc.
  - apply at_loc_true in Eloc as (-> & -> & ->).
    pose proof (L2 K mb p0) as Hnd. rewrite Hm in Hnd. simpl in Hnd.
    apply List.NoDup_cons_iff in Hnd as [Hnotin _].
    assert (Hr : forall o', In o' r -> ro_order_id o' <> ro_order_id m).
    { intros o' Ho' Heq. apply Hnotin. rewrite <- Heq. apply in_map, Ho'. }
    rewrite queue_after_cons in Ho. fold mq in Ho.
    destruct (mq =? 0) eqn:Emq.
    + apply (Hother K mb p0); [rewrite Hm; right; exact Ho|apply Hr, Ho].
    + destruct Ho as [<-|Ho].
      * cbn [ro_order_id ro_quantity].
        destruct (Hqr K mb p0 m) as (dm & Hdm & _); [rewrite Hm; left; reflexivity|].
        exists (maker_update mq dm). rewrite Hdocs.
        rewrite find_one_update_one, Hdm by apply maker_update_id.
        split; [reflexivity|]. unfold maker_update. rewrite Emq. reflexivity.
      * apply (Hother K mb p0); [rewrite Hm; right; exact Ho|apply Hr, Ho].
  - apply (Hother key bs p o Ho). intros Heq.
    destruct (L1 (ro_order_id o) key bs p) as (d1 & Hd1 & _ & Hloc1);
      [apply in_map, Ho|].
    destruct (L1 (ro_order_id m) K mb p0) as (d2 & Hd2 & _ & Hloc2);
      [rewrite Hm; left; reflexivity|].
    rewrite Heq, Hd2 in Hd1. injection Hd1 as <-.
    destruct (doc_locates_inj _ _ _ _ _ _ _ Hloc1 Hloc2) as (-> & -> & ->).
    rewrite (proj2 (at_loc_true K mb p0 K mb p0)) in Eloc by auto. discriminate.
Qed.

Lemma run_match_loop_quantity_recorded env lc lp0 :
  state_ok (lp_st lp0) ->
  indexed_loop lc lp0 ->
  quantity_recorded (lp_st lp0) ->
  quantity_recorded (lp_st (fst (run_match_loop env lc lp0))).
Proof.
  intros Hok0 Hidx0 Hqr0.
  apply (run_match_loop_rule
           (fun lp => state_ok (lp_st lp) /\ indexed_loop lc lp /\
                      quantity_recorded (lp_st lp))
           (fun lp _ => quantity_recorded (lp_st lp))).
  - tauto.
  - intros lp (Hok & Hidx & Hqr) Hrem.
    destruct (loop_body_cases env lc lp)
      as [[Hsel ->]|[(e & lp' & -> & Hst & _)
                    |(p & m & r & lp' & Hsel & -> & Hst & _)]].
    + exact Hqr.
    + rewrite Hst. exact Hqr.
    + assert (Hidx' : indexed_loop lc lp')
        by (eapply indexed_loop_after_match; eassumption).
      assert (Hok' : state_ok (lp_st lp'))
        by (rewrite Hst; apply state_ok_after_match; assumption).
      assert (Hqr' : quantity_recorded (lp_st lp'))
        by (apply (quantity_recorded_after_match env lc lp lp' p m r); assumption).
      destruct (String.eqb (lc_typ lc) "ioc"); auto.
  - auto.
Qed.

Lemma quantity_recorded_handle_remaining lc lp :
  (String.eqb (lc_typ lc) "limit" = true -> lc_price lc <> None) ->
  indexed_loop lc lp ->
  quantity_recorded (lp_st lp) ->
  quantity_recorded (fst (handle_remaining lc lp)).
Proof.
  intros Hprice (_ & (d0 & Hd0 & _) & Hno) Hqr key bs p o Ho.
  rewrite (queue_at_handle_remaining lc lp _ _ _ Hprice) in Ho.
  rewrite (handle_remaining_doc lc lp Hprice).
  assert (Hid : forall d, doc_order_id (final_update (lc_typ lc) (lp_remaining lp) d)
                          = doc_order_id d)
    by (intros d; apply (final_update_same_order _ _ d)).
  assert (Hold : In o (queue_at key bs p (lp_st lp)) ->
            exists d,
              find_one (ro_order_id o)
                (update_one (lc_order_id lc) (final_update (lc_typ lc) (lp_remaining lp))
                   (orders_collection (lp_st lp))) = Some d /\
              doc_quantity d = ro_quantity o).
  { intros Hin. destruct (Hqr _ _ _ _ Hin) as (d & Hd & Hdq). exists d.
    split; [|exact Hdq]. rewrite find_one_update_one_ne; [exact Hd|exact Hid|].
    intros Heq. apply (Hno key bs p). rewrite <- Heq. apply in_map, Hin. }
  destruct ((lp_remaining lp >? 0) && String.eqb (lc_typ lc) "limit") eqn:Er;
    cbn [andb] in Ho; [|exact (Hold Ho)].
  destruct (at_loc _ _ _ _ _ _); [|exact (Hold Ho)].
  apply in_app_iff in Ho as [Ho|[<-|[]]]; [exact (Hold Ho)|].
  cbn [ro_order_id ro_quantity]. rewrite find_one_update_one, Hd0 by exact Hid.
  eexists. split; [reflexivity|]. unfold final_update.
  apply andb_true_iff in Er as [-> ->]. reflexivity.
Qed.

Lemma quantity_recorded_submit env order user st :
  state_ok st -> indexed st -> quantity_recorded st ->
  fresh_for env st ->
  quantity_recorded (out_state (submit_order env order user st)).
Proof.
  intros Hok Hidx Hqr Hfresh.
  destruct (accepted_dec order) as [Ha|Hn].
  2:{ destruct (submit_order_rejected env order user st Hn) as [detail ->]. exact Hqr. }
  rewrite (submit_order_accepted _ _ _ _ Ha). cbv zeta.
  set (lc := submit_locals env order).
  set (lp0 := submit_loop env order user st).
  pose proof (indexed_submit_loop env order user st Hidx Hfresh) as Hl0.
  fold lc lp0 in Hl0.
  assert (Hok0 : state_ok (lp_st lp0)).
  { intros key. unfold lp0. cbn [submit_loop lp_st].
    rewrite submit_start_book_at. apply Hok. }
  assert (Hqr0 : quantity_recorded (lp_st lp0)).
  { intros key bs p o Ho. cbn [lp0 submit_loop lp_st] in *.
    rewrite (queue_at_book _ _ _ st) in Ho by apply submit_start_book_at.
    destruct (Hqr _ _ _ _ Ho) as (d & Hd & Hdq). exists d. split; [|exact Hdq].
    rewrite submit_start_orders, find_one_app, Hd. reflexivity. }
  destruct (_ && _).
  - cbn [out_state]. intros key bs p o Ho. rewrite queue_at_db_update in Ho.
    destruct (Hqr0 _ _ _ _ Ho) as (d & Hd & Hdq). exists d. split; [|exact Hdq].
    cbn [db_update set_orders orders_collection].
    rewrite find_one_update_one_ne; [exact Hd|reflexivity|].
    intros Heq. destruct Hl0 as (_ & _ & Hno). apply (Hno key bs p).
    rewrite <- Heq. apply in_map, Ho.
  - pose proof (run_match_loop_indexed env lc lp0 Hok0 Hl0) as Hl.
    pose proof (run_match_loop_quantity_recorded env lc lp0 Hok0 Hl0 Hqr0) as Hq.
    rewrite (run_match_loop_no_exception env lc lp0 Hok0). cbn [out_state].
    apply quantity_recorded_handle_remaining; [|exact Hl|exact Hq].
    unfold lc. cbn [submit_locals lc_typ lc_price]. unfold working_price.
    intros Hlim. rewrite (priced_type_limit _ Hlim). destruct Ha as [_ Hp].
    apply Hp, priced_type_limit, Hlim.
Qed.

Lemma quantity_recorded_cancel cancel user st :
  state_ok st -> quantity_recorded st ->
  quantity_recorded (out_state (cancel_order cancel user st)).
Proof.
  intros Hok Hqr.
  destruct (find_one (co_order_id cancel) (orders_collection st)) as [d|] eqn:Hd.
  2:{ unfold cancel_order. rewrite Hd. exact Hqr. }
  destruct (existsb (String.eqb (doc_status d)) ["filled"; "cancelled"]) eqn:Hlive.
  { unfold cancel_order. rewrite Hd, Hlive. exact Hqr. }
  intros key bs p o Ho.
  rewrite (queue_at_cancel cancel user st d _ _ _ Hok Hd Hlive) in Ho.
  assert (Hin : In o (queue_at key bs p st)).
  { destruct (match doc_price d with Some _ => _ | None => _ end); [|exact Ho].
    eapply remove_order_sublist, Ho. }
  destruct (Hqr _ _ _ _ Hin) as (d' & Hd' & Hdq).
  rewrite (cancel_order_orders cancel user st d Hd Hlive).
  rewrite find_one_update_one_cases by reflexivity.
  rewrite Hd'.
  destruct (String.eqb (ro_order_id o) (co_order_id cancel));
    eexists; (split; [reflexivity|exact Hdq]).
Qed.

Lemma reachable_fresh_quantity_recorded st : reachable_fresh st -> quantity_recorded st.
Proof.
  induction 1 as [|st env order user Hr IH Hfresh|st cancel user Hr IH].
  - intros key bs p o Ho. unfold queue_at, book_at, initial_state in Ho. cbn in Ho.
    rewrite lookup_empty in Ho. destruct bs; destruct Ho.
  - apply quantity_recorded_submit; [| |exact IH|exact Hfresh].
    + apply reachable_state_ok, reachable_fresh_reachable, Hr.
    + apply reachable_fresh_indexed, Hr.
  - apply quantity_recorded_cancel; [|exact IH].
    apply reachable_state_ok, reachable_fresh_reachable, Hr.
Qed.



(** ** The documents of the orders collection *)

Lemma same_order_refl d : same_order d d.
Proof. unfold same_order. auto 10. Qed.

Lemma same_order_trans d1 d2 d3 : same_order d1 d2 -> same_order d2 d3 -> same_order d1 d3.
Proof. unfold same_order. intuition congruence. Qed.

Lemma set_status_same_order s d : same_order d (set_status s d).
Proof. unfold same_order. cbn. auto 10. Qed.

Lemma set_quantity_status_same_order q s d : same_order d (set_quantity_status q s d).
Proof. unfold same_order. cbn. auto 10. Qed.

Lemma length_update_one oid f docs : length (update_one oid f docs) = length docs.
Proof.
  induction docs as [|d r IH]; simpl; [reflexivity|].
  destruct (String.eqb (doc_order_id d) oid); simpl; congruence.
Qed.

Lemma docs_kept_refl docs : docs_kept docs docs.
Proof. split; [reflexivity|]. intros x d Hd. exists d. split; [exact Hd|apply same_order_refl]. Qed.

Lemma docs_kept_trans docs1 docs2 docs3 :
  docs_kept docs1 docs2 -> docs_kept docs2 docs3 -> docs_kept docs1 docs3.
Proof.
  intros [Hl1 H1] [Hl2 H2]. split; [congruence|].
  intros x d Hd. destruct (H1 x d Hd) as (d' & Hd' & Hs).
  destruct (H2 x d' Hd') as (d'' & Hd'' & Hs'). exists d''.
  split; [exact Hd''|eapply same_order_trans; eassumption].
Qed.

Lemma docs_kept_update_one oid f docs :
  (forall d, same_order d (f d)) -> docs_kept docs (update_one oid f docs).
Proof.
  intros Hf. split; [apply length_update_one|]. intros x d Hd.
  rewrite find_one_update_one_cases by (intros d0; apply (Hf d0)).
  rewrite Hd. destruct (String.eqb x oid); eexists; (split; [reflexivity|]).
  - apply Hf.
  - apply same_order_refl.
Qed.

Lemma run_match_loop_docs_kept env lc lp0 :
  docs_kept (orders_collection (lp_st lp0))
    (orders_collection (lp_st (fst (run_match_loop env lc lp0)))).
Proof.
  set (P := fun lp : Loop =>
              docs_kept (orders_collection (lp_st lp0)) (orders_collection (lp_st lp))).
  apply (run_match_loop_rule P (fun lp _ => P lp)).
  - auto.
  - intros lp HP _.
    destruct (loop_body_cases env lc lp)
      as [[_ ->]|[(e & lp' & -> & Hst & _)
                |(p & m & r & lp' & _ & -> & Hst & _)]].
    + exact HP.
    + unfold P. rewrite Hst. exact HP.
    + assert (HP' : P lp').
      { unfold P. rewrite Hst. cbn [state_after_match orders_collection].
        eapply docs_kept_trans; [exact HP|].
        apply docs_kept_update_one, maker_update_same_order. }
      destruct (String.eqb (lc_typ lc) "ioc"); exact HP'.
  - apply docs_kept_refl.
Qed.

Lemma handle_remaining_docs_kept lc lp :
  docs_kept (orders_collection (lp_st lp)) (orders_collection (fst (handle_remaining lc lp))).
Proof.
  unfold handle_remaining.
  destruct (lp_remaining lp >? 0);
    [|apply docs_kept_update_one, set_status_same_order].
  destruct (String.eqb (lc_typ lc) "limit");
    [|apply docs_kept_update_one, set_status_same_order].
  destruct (match lc_price lc with Some p => Some p | None => lp_match_price lp end).
  - apply docs_kept_update_one, set_quantity_status_same_order.
  - apply docs_kept_update_one, set_status_same_order.
Qed.

(** What a submission does to the orders collection. *)
Lemma submit_order_docs env order user st :
  (forall x d,
     find_one x (orders_collection st) = Some d ->
     exists d',
       find_one x (orders_collection (out_state (submit_order env order user st))) = Some d' /\
       same_order d d') /\
  length (orders_collection (out_state (submit_order env order user st)))
  = (length (orders_collection st) + if acceptedb order then 1 else 0)%nat.
Proof.
  destruct (accepted_dec order) as [Ha|Hn].
  2:{ destruct (submit_order_rejected env order user st Hn) as [detail ->].
      cbn [out_state]. split.
      - intros x d Hd. exists d. split; [exact Hd|apply same_order_refl].
      - destruct (acceptedb order) eqn:E; [|lia].
        apply acceptedb_accepted in E. contradiction. }
  rewrite (proj2 (acceptedb_accepted order) Ha).
  rewrite (submit_order_accepted _ _ _ _ Ha). cbv zeta.
  set (lc := submit_locals env order).
  set (lp0 := submit_loop env order user st).
  assert (H0 : (forall x d,
                  find_one x (orders_collection st) = Some d ->
                  find_one x (orders_collection (lp_st lp0)) = Some d) /\
               length (orders_collection (lp_st lp0))
               = (length (orders_collection st) + 1)%nat).
  { cbn [lp0 submit_loop lp_st]. rewrite submit_start_orders. split.
    - intros x d Hd. rewrite find_one_app, Hd. reflexivity.
    - rewrite length_app. reflexivity. }
  destruct H0 as [Hfind0 Hlen0].
  assert (Hfrom : forall docs',
            docs_kept (orders_collection (lp_st lp0)) docs' ->
            (forall x d,
               find_one x (orders_collection st) = Some d ->
               exists d', find_one x docs' = Some d' /\ same_order d d') /\
            length docs' = (length (orders_collection st) + 1)%nat).
  { intros docs' [Hl Hk]. split; [|congruence].
    intros x d Hd. apply Hk, Hfind0, Hd. }
  pose proof (run_match_loop_docs_kept env lc lp0) as Hloop.
  destruct (_ && _).
  - cbn [out_state db_update set_orders orders_collection].
    apply Hfrom, docs_kept_update_one, set_status_same_order.
  - destruct (snd (run_match_loop env lc lp0)); cbn [out_state].
    + apply Hfrom, Hloop.
    + apply Hfrom. eapply docs_kept_trans; [exact Hloop|apply handle_remaining_docs_kept].
Qed.

Lemma cancel_order_docs cancel user st :
  docs_kept (orders_collection st)
    (orders_collection (out_state (cancel_order cancel user st))).
Proof.
  destruct (find_one (co_order_id cancel) (orders_collection st)) as [d|] eqn:Hd.
  2:{ unfold cancel_order. rewrite Hd. apply docs_kept_refl. }
  destruct (existsb (String.eqb (doc_status d)) ["filled"; "cancelled"]) eqn:Hlive.
  { unfold cancel_order. rewrite Hd, Hlive. apply docs_kept_refl. }
  rewrite (cancel_order_orders cancel user st d Hd Hlive).
  apply docs_kept_update_one, set_status_same_order.
Qed.

(** X15: no request deletes a document of the orders collection or
    changes anything of it but the quantity and the status: after any
    requests, an order is found with its identifier, symbol, user, side,
    type, price and timestamp as before. An accepted submission adds one
    document, a rejected one and a cancellation add none. *)
Theorem order_documents_kept :
  (forall reqs st x d,
     find_one x (orders_collection st) = Some d ->
     exists d',
       find_one x (orders_collection (run reqs st)) = Some d' /\ same_order d d') /\
  (forall env order user st,
     length (orders_collection (out_state (submit_order env order user st)))
     = (length (orders_collection st) + if acceptedb order then 1 else 0)%nat) /\
  (forall cancel user st,
     length (orders_collection (out_state (cancel_order cancel user st)))
     = length (orders_collection st)).
Proof.
  split; [|split].
  - induction reqs as [|r reqs IH]; intros st x d Hd.
    + exists d. split; [exact Hd|apply same_order_refl].
    + assert (H1 : exists d1,
                find_one x (orders_collection (serve r st)) = Some d1 /\ same_order d d1).
      { destruct r as [env order user|cancel user]; cbn [serve].
        - apply submit_order_docs, Hd.
        - apply cancel_order_docs, Hd. }
      destruct H1 as (d1 & Hd1 & Hs1).
      destruct (IH (serve r st) x d1 Hd1) as (d' & Hd' & Hs').
      exists d'. split; [exact Hd'|eapply same_order_trans; eassumption].
  - intros. apply submit_order_docs.
  - intros. apply cancel_order_docs.
Qed.

Lemma order_documents_kept_witness :
  find_one "ORDER-A" (orders_collection one_ask)
    = Some (new_order_doc (env_of "A") (order_of "limit" "sell" 10 (Some 100)) alice) /\
  exists d',
    find_one "ORDER-A"
      (orders_collection
         (run [Submit (env_of "T") (order_of "market" "buy" 15 None) bob;
               Cancel (mkCancelOrder "ORDER-A") bob] one_ask)) = Some d' /\
    same_order (new_order_doc (env_of "A") (order_of "limit" "sell" 10 (Some 100)) alice) d'.
Proof.
  assert (H : find_one "ORDER-A" (orders_collection one_ask)
              = Some (new_order_doc (env_of "A") (order_of "limit" "sell" 10 (Some 100))
                        alice)) by (vm_compute; reflexivity).
  split; [exact H|].
  exact (proj1 order_documents_kept _ one_ask "ORDER-A" _ H).
Defined.

(** ** Statuses and quantities of the documents *)

Lemma Forall_update_one (P : OrderDoc -> Prop) oid f docs :
  (forall d, P d -> P (f d)) -> Forall P docs -> Forall P (update_one oid f docs).
Proof.
  intros Hf. induction 1 as [|d r Hd Hr IH]; simpl; [constructor|].
  destruct (String.eqb (doc_order_id d) oid); constructor; auto.
Qed.

Lemma doc_ok_set_status s d :
  In s ["open"; "partial"; "filled"; "cancelled"] -> doc_ok d -> doc_ok (set_status s d).
Proof. intros Hs [_ Hq]. split; [exact Hs|exact Hq]. Qed.

Lemma doc_ok_set_quantity_status q s d :
  In s ["open"; "partial"; "filled"; "cancelled"] -> q <> 0 ->
  doc_ok (set_quantity_status q s d).
Proof. intros Hs Hq. split; [exact Hs|exact Hq]. Qed.

Lemma run_match_loop_doc_ok env lc lp0 :
  Forall doc_ok (orders_collection (lp_st lp0)) ->
  Forall doc_ok (orders_collection (lp_st (fst (run_match_loop env lc lp0)))).
Proof.
  intros H0.
  set (P := fun lp : Loop => Forall doc_ok (orders_collection (lp_st lp))).
  apply (run_match_loop_rule P (fun lp _ => P lp)).
  - auto.
  - intros lp HP _.
    destruct (loop_body_cases env lc lp)
      as [[_ ->]|[(e & lp' & -> & Hst & _)
                |(p & m & r & lp' & _ & -> & Hst & _)]].
    + exact HP.
    + unfold P. rewrite Hst. exact HP.
    + assert (HP' : P lp').
      { unfold P. rewrite Hst. cbn [state_after_match orders_collection].
        apply Forall_update_one; [|exact HP]. intros d Hd. unfold maker_update.
        destruct (_ =? 0) eqn:E.
        - apply doc_ok_set_status; [simpl; auto|exact Hd].
        - apply doc_ok_set_quantity_status; [simpl; auto|].
          apply Z.eqb_neq, E. }
      destruct (String.eqb (lc_typ lc) "ioc"); exact HP'.
  - exact H0.
Qed.

Lemma handle_remaining_doc_ok lc lp :
  Forall doc_ok (orders_collection (lp_st lp)) ->
  Forall doc_ok (orders_collection (fst (handle_remaining lc lp))).
Proof.
  intros H. unfold handle_remaining.
  destruct (lp_remaining lp >? 0) eqn:Er.
  2:{ apply Forall_update_one; [|exact H]. intros d0. apply doc_ok_set_status. simpl. auto 10. }
  destruct (String.eqb (lc_typ lc) "limit").
  2:{ apply Forall_update_one; [|exact H]. intros d0. apply doc_ok_set_status. simpl. auto 10. }
  destruct (match lc_price lc with Some p => Some p | None => lp_match_price lp end).
  - apply Forall_update_one; [|exact H]. intros d _.
    apply doc_ok_set_quantity_status; [simpl; auto|lia].
  - apply Forall_update_one; [|exact H]. intros d0. apply doc_ok_set_status. simpl. auto 10.
Qed.

(** X16: between requests, every document of the orders collection has
    one of the statuses open, partial, filled and cancelled, and a
    quantity other than zero: a quantity is written only after a
    comparison has found it different from zero (lines 116, 195 and 214),
    and the quantity of an order that gets filled is not written. *)
Theorem order_documents_wellformed st :
  reachable st -> Forall doc_ok (orders_collection st).
Proof.
  induction 1 as [|st env order user _ IH|st cancel user _ IH].
  - constructor.
  - destruct (accepted_dec order) as [Ha|Hn].
    2:{ destruct (submit_order_rejected env order user st Hn) as [detail ->]. exact IH. }
    rewrite (submit_order_accepted _ _ _ _ Ha). cbv zeta.
    set (lc := submit_locals env order).
    set (lp0 := submit_loop env order user st).
    assert (H0 : Forall doc_ok (orders_collection (lp_st lp0))).
    { cbn [lp0 submit_loop lp_st]. rewrite submit_start_orders.
      apply Forall_app. split; [exact IH|]. constructor; [|constructor].
      split; [simpl; auto|]. cbn [new_order_doc doc_quantity].
      destruct Ha as [Hq _]. intros Hz. rewrite Hz in Hq. discriminate Hq. }
    pose proof (run_match_loop_doc_ok env lc lp0 H0) as Hloop.
    destruct (_ && _).
    + cbn [out_state db_update set_orders orders_collection].
      apply Forall_update_one; [|exact H0]. intros d0. apply doc_ok_set_status. simpl. auto 10.
    + destruct (snd (run_match_loop env lc lp0)); cbn [out_state]; [exact Hloop|].
      apply handle_remaining_doc_ok, Hloop.
  - destruct (find_one (co_order_id cancel) (orders_collection st)) as [d|] eqn:Hd.
    2:{ unfold cancel_order. rewrite Hd. exact IH. }
    destruct (existsb (String.eqb (doc_status d)) ["filled"; "cancelled"]) eqn:Hlive.
    { unfold cancel_order. rewrite Hd, Hlive. exact IH. }
    rewrite (cancel_order_orders cancel user st d Hd Hlive).
    apply Forall_update_one; [|exact IH]. intros d0. apply doc_ok_set_status. simpl. auto 10.
Qed.

Lemma order_documents_wellformed_witness :
  reachable (run scenario_1 initial_state) /\
  Forall doc_ok (orders_collection (run scenario_1 initial_state)) /\
  (doc_status <$> find_one "ORDER-A" (orders_collection (run scenario_1 initial_state)))
  = Some "filled" /\
  (doc_quantity <$> find_one "ORDER-A" (orders_collection (run scenario_1 initial_state)))
  = Some 10.
Proof.
  split; [apply run_reachable|].
  split; [apply order_documents_wellformed, run_reachable|].
  split; vm_compute; reflexivity.
Defined.

(** ** The document of a submission, and finished orders *)

(** With a fresh identifier, the loop leaves alone the document of the
    submitted order and every document that is filled or cancelled. *)
Lemma run_match_loop_keeps_doc env lc lp0 x d :
  state_ok (lp_st lp0) ->
  indexed_loop lc lp0 ->
  find_one x (orders_collection (lp_st lp0)) = Some d ->
  x = lc_order_id lc \/ ~ live (doc_status d) ->
  find_one x (orders_collection (lp_st (fst (run_match_loop env lc lp0)))) = Some d.
Proof.
  intros Hok0 Hidx0 Hd0 Hx.
  apply (run_match_loop_rule
           (fun lp => state_ok (lp_st lp) /\ indexed_loop lc lp /\
                      find_one x (orders_collection (lp_st lp)) = Some d)
           (fun lp _ => find_one x (orders_collection (lp_st lp)) = Some d)).
  - tauto.
  - intros lp (Hok & Hidx & Hd) Hrem.
    destruct (loop_body_cases env lc lp)
      as [[Hsel ->]|[(e & lp' & -> & Hst & _)
                    |(p & m & r & lp' & Hsel & -> & Hst & _)]].
    + exact Hd.
    + rewrite Hst. exact Hd.
    + assert (Hidx' : indexed_loop lc lp')
        by (eapply indexed_loop_after_match; eassumption).
      assert (Hok' : state_ok (lp_st lp'))
        by (rewrite Hst; apply state_ok_after_match; assumption).
      assert (Hd' : find_one x (orders_collection (lp_st lp')) = Some d).
      { rewrite Hst. cbn [state_after_match orders_collection].
        rewrite find_one_update_one_ne; [exact Hd|apply maker_update_id|].
        destruct Hidx as ((L1 & _) & _ & Hno).
        assert (Hs : SortedDict.sorted
                       (opposite (lc_side lc) (book_at (upper (lc_symbol lc)) (lp_st lp)))
                     = true).
        { destruct (Hok (upper (lc_symbol lc))) as [Hb _].
          apply (book_ok_sides (lc_side lc)) in Hb as [_ [H _]]. exact H. }
        assert (Hin : In (ro_order_id m)
                        (ids (queue_at (upper (lc_symbol lc))
                                (negb (String.eqb (lc_side lc) "buy")) p (lp_st lp)))).
        { destruct (queue_at_after_match env lc lp p m r (upper (lc_symbol lc))
                      (negb (String.eqb (lc_side lc) "buy")) p Hs Hsel) as [H _].
          rewrite H, (proj2 (at_loc_true _ _ _ _ _ _)) by auto. simpl. auto. }
        intros Heq. destruct Hx as [Hx|Hx].
        - apply (Hno (upper (lc_symbol lc)) (negb (String.eqb (lc_side lc) "buy")) p).
          rewrite <- Hx, Heq. exact Hin.
        - destruct (L1 _ _ _ _ Hin) as (dm & Hdm & Hl & _).
          rewrite <- Heq, Hd in Hdm. injection Hdm as <-. contradiction. }
      destruct (String.eqb (lc_typ lc) "ioc"); auto.
  - auto.
Qed.

(** ** What is left of a submission *)

(** What is left of a submission that returns its trades: what rests of
    it and, with fresh identifiers, its document. *)
Lemma submit_order_residual env order user st oid trades :
  let side := lower (oi_side order) in
  let key := upper (oi_symbol order) in
  let out := submit_order env order user st in
  out_result out = Returned [("order_id", VStr oid); ("trades", VTrades trades)] ->
  exists residual,
    (trades = [] -> residual = oi_quantity order) /\
    (forall p,
       queue_at key (String.eqb side "buy") p (out_state out)
       = if (0 <? residual) && String.eqb (lower (oi_order_type order)) "limit"
            && (p =? default 0 (oi_price order))
         then queue_at key (String.eqb side "buy") p st ++ [residual_order env residual]
         else queue_at key (String.eqb side "buy") p st) /\
    (String.eqb (lower (oi_order_type order)) "limit" = true ->
     exists p, oi_price order = Some p) /\
    (reachable_fresh st -> fresh_for env st ->
     find_one oid (orders_collection (out_state out))
     = Some (final_update (lower (oi_order_type order)) residual
               (new_order_doc env order user)) /\
     (0 < residual -> lower (oi_order_type order) <> "ioc" ->
      select_level side (working_price order)
        (book_at key (lp_st (fst (run_match_loop env (submit_locals env order)
                                    (submit_loop env order user st))))) = None)).
Proof.
  intros side key out Hres.
  pose proof (submit_order_returned_trades _ _ _ _ _ _ Hres) as (Ha & -> & He & Ht).
  subst out. rewrite (submit_order_accepted _ _ _ _ Ha) in *. cbv zeta in *.
  set (lc := submit_locals env order) in *.
  set (lp0 := submit_loop env order user st) in *.
  destruct (_ && _); [discriminate|]. rewrite He. cbn [out_state].
  set (lp := fst (run_match_loop env lc lp0)) in *.
  destruct (run_match_loop_own env lc lp0) as (Hown & Hsum & _). fold lp in Hown, Hsum.
  cbn [lp0 submit_loop lp_trades lp_remaining traded_quantity fold_right] in Hsum.
  assert (Hk : upper (lc_symbol lc) = key) by apply upper_idemp.
  assert (Hprice : String.eqb (lc_typ lc) "limit" = true -> lc_price lc <> None).
  { cbn [lc submit_locals lc_typ lc_price]. unfold working_price.
    intros Hlim. rewrite (priced_type_limit _ Hlim). destruct Ha as [_ Hp].
    apply Hp, priced_type_limit, Hlim. }
  exists (lp_remaining lp). split; [|split; [|split]].
  - intros Hnil. rewrite <- Ht, Hnil in Hsum. cbn in Hsum. lia.
  - intros p. rewrite (queue_at_handle_remaining lc lp _ _ _ Hprice), Hk.
    assert (Hsame : queue_at key (String.eqb side "buy") p (lp_st lp)
                    = queue_at key (String.eqb side "buy") p st).
    { unfold queue_at. rewrite <- !side_dict_own. rewrite <- Hk.
      change side with (lc_side lc). rewrite Hown, Hk.
      cbn [lp0 submit_loop lp_st]. rewrite submit_start_book_at. reflexivity. }
    rewrite Hsame. replace (lp_remaining lp >? 0) with (0 <? lp_remaining lp) by lia.
    change (lc_typ lc) with (lower (oi_order_type order)).
    change (lc_side lc) with side.
    destruct (0 <? lp_remaining lp); cbn [andb]; [|reflexivity].
    destruct (String.eqb (lower (oi_order_type order)) "limit") eqn:El; cbn [andb];
      [|reflexivity].
    unfold at_loc. rewrite bool_decide_eq_true_2 by reflexivity.
    rewrite Bool.eqb_reflx. cbn [andb lc submit_locals lc_price lc_order_id].
    unfold working_price. rewrite (priced_type_limit _ El). reflexivity.
  - intros Hlim. destruct Ha as [_ Hp].
    destruct (oi_price order) as [p|]; [eauto|].
    exfalso. apply Hp; [apply priced_type_limit, Hlim|reflexivity].
  - intros Hr Hfresh.
    assert (Hok0 : state_ok (lp_st lp0)).
    { intros k. cbn [lp0 submit_loop lp_st]. rewrite submit_start_book_at.
      apply reachable_state_ok, reachable_fresh_reachable, Hr. }
    split.
    + pose proof (indexed_submit_loop env order user st
                    (reachable_fresh_indexed st Hr) Hfresh) as Hl0.
      fold lc lp0 in Hl0.
      assert (Hd0 : find_one (lc_order_id lc) (orders_collection (lp_st lp0))
                    = Some (new_order_doc env order user)).
      { cbn [lp0 submit_loop lp_st]. rewrite submit_start_orders, find_one_app.
        unfold fresh_for in Hfresh. cbn [lc submit_locals lc_order_id]. rewrite Hfresh.
        cbn [new_order_doc doc_order_id]. rewrite String.eqb_refl. reflexivity. }
      pose proof (run_match_loop_keeps_doc env lc lp0 _ _ Hok0 Hl0 Hd0 (or_introl eq_refl))
        as Hd.
      fold lp in Hd.
      rewrite (handle_remaining_doc lc lp Hprice).
      rewrite find_one_update_one, Hd
        by (intros d0; apply (final_update_same_order _ _ d0)).
      reflexivity.
    + intros Hpos Hioc.
      destruct (run_match_loop_ok env lc lp0 Hok0) as [_ Hsel]. fold lp in Hsel.
      rewrite Hk in Hsel. apply Hsel; [exact He|exact Hpos|].
      apply String.eqb_neq. exact Hioc.
Qed.





Lemma priority_opposite side b b' :
  opposite side b = opposite side b' -> priority side b = priority side b'.
Proof.
  unfold opposite, priority. destruct (String.eqb side "buy"); intros ->; reflexivity.
Qed.

(** X11: in a state reached with fresh identifiers, a submitted order
    that is not immediate-or-cancel and is not written filled has taken
    all it could: in the book it leaves, the opposite side is empty or
    its best price is beyond the limit of the order. *)
Theorem unfilled_order_exhausts_book env order user st oid trades :
  let side := lower (oi_side order) in
  let st' := out_state (submit_order env order user st) in
  reachable_fresh st ->
  fresh_for env st ->
  lower (oi_order_type order) <> "ioc" ->
  out_result (submit_order env order user st)
    = Returned [("order_id", VStr oid); ("trades", VTrades trades)] ->
  order_status oid st' <> Some "filled" ->
  match priority side (book_for order st') with
  | [] => True
  | (p, _) :: _ => marketable side (working_price order) p = false
  end.
Proof.
  intros side st' Hr Hfresh Hioc Hres Hstatus.
  destruct (submit_order_residual env order user st oid trades Hres)
    as (residual & _ & _ & _ & Hdoc).
  destruct (Hdoc Hr Hfresh) as [Hd Hsel]. fold st' in Hd.
  assert (Hpos : 0 < residual).
  { destruct (residual >? 0) eqn:E; [lia|]. exfalso. apply Hstatus.
    unfold order_status. rewrite Hd. unfold final_update. rewrite E. reflexivity. }
  specialize (Hsel Hpos Hioc). apply select_level_none in Hsel.
  pose proof (submit_order_returned_trades _ _ _ _ _ _ Hres) as (Ha & _ & He & _).
  assert (Hst' : st' = fst (handle_remaining (submit_locals env order)
                              (fst (run_match_loop env (submit_locals env order)
                                      (submit_loop env order user st))))).
  { unfold st'. rewrite (submit_order_accepted _ _ _ _ Ha) in *. cbv zeta in *.
    destruct (_ && _); [discriminate|]. rewrite He. reflexivity. }
  rewrite (priority_opposite side _
             (book_at (upper (oi_symbol order))
                (lp_st (fst (run_match_loop env (submit_locals env order)
                               (submit_loop env order user st)))))); [exact Hsel|].
  unfold book_for. rewrite Hst'.
  rewrite <- (upper_idemp (oi_symbol order)).
  apply (handle_remaining_opposite (submit_locals env order)).
Qed.

Lemma unfilled_order_exhausts_book_witness :
  reachable_fresh two_levels /\
  fresh_for (env_of "T") two_levels /\
  out_result (submit "T" "limit" "buy" 15 (Some 100) two_levels)
    = Returned [("order_id", VStr "ORDER-T");
                ("trades", VTrades [trade_T 0 100 10 "ORDER-A"])] /\
  order_status "ORDER-T" (out_state (submit "T" "limit" "buy" 15 (Some 100) two_levels))
    = Some "open" /\
  priority "buy" (book_at "BTC-USD"
                    (out_state (submit "T" "limit" "buy" 15 (Some 100) two_levels)))
    = [(101, [mkResting "ORDER-B" 10])] /\
  marketable "buy" (Some 100) 101 = false.
Proof.
  assert (Hr : reachable_fresh two_levels).
  { apply (fresh_submit _ (env_of "B") (order_of "limit" "sell" 10 (Some 101)) alice).
    - apply (fresh_submit _ (env_of "A") (order_of "limit" "sell" 10 (Some 100)) alice).
      + apply fresh_init.
      + reflexivity.
    - vm_compute. reflexivity. }
  assert (Hf : fresh_for (env_of "T") two_levels) by (vm_compute; reflexivity).
  assert (H : out_result (submit "T" "limit" "buy" 15 (Some 100) two_levels)
              = Returned [("order_id", VStr "ORDER-T");
                          ("trades", VTrades [trade_T 0 100 10 "ORDER-A"])])
    by (vm_compute; reflexivity).
  assert (Hs : order_status "ORDER-T"
                 (out_state (submit "T" "limit" "buy" 15 (Some 100) two_levels))
               = Some "open") by (vm_compute; reflexivity).
  assert (Hp : priority "buy"
                 (book_at "BTC-USD"
                    (out_state (submit "T" "limit" "buy" 15 (Some 100) two_levels)))
               = [(101, [mkResting "ORDER-B" 10])]) by (vm_compute; reflexivity).
  split; [exact Hr|]. split; [exact Hf|]. split; [exact H|]. split; [exact Hs|].
  split; [exact Hp|].
  pose proof (unfilled_order_exhausts_book (env_of "T")
                (order_of "limit" "buy" 15 (Some 100)) alice two_levels _ _
                Hr Hf ltac:(discriminate) H) as Hx.
  cbv zeta in Hx. unfold submit in Hs. rewrite Hs in Hx.
  specialize (Hx ltac:(discriminate)).
  unfold book_for in Hx. unfold submit in Hp.
  change (upper (oi_symbol (order_of "limit" "buy" 15 (Some 100)))) with "BTC-USD" in Hx.
  change (lower (oi_side (order_of "limit" "buy" 15 (Some 100)))) with "buy" in Hx.
  rewrite Hp in Hx. exact Hx.
Defined.

(** X18: in a state reached with fresh identifiers, the document of a
    filled or cancelled order is final: no cancellation and no submission
    with a fresh identifier changes it any more. *)
Theorem terminal_status_final r st x d :
  reachable_fresh st ->
  match r with Submit env _ _ => fresh_for env st | Cancel _ _ => True end ->
  find_one x (orders_collection st) = Some d ->
  doc_status d = "filled" \/ doc_status d = "cancelled" ->
  find_one x (orders_collection (serve r st)) = Some d.
Proof.
  intros Hr Hfresh Hd Hterm.
  assert (Hdead : ~ live (doc_status d)) by (unfold live; tauto).
  pose proof (reachable_state_ok st (reachable_fresh_reachable st Hr)) as Hok.
  destruct r as [env order user|cancel user]; cbn [serve].
  - destruct (accepted_dec order) as [Ha|Hn].
    2:{ destruct (submit_order_rejected env order user st Hn) as [detail ->]. exact Hd. }
    rewrite (submit_order_accepted _ _ _ _ Ha). cbv zeta.
    set (lc := submit_locals env order).
    set (lp0 := submit_loop env order user st).
    assert (Hok0 : state_ok (lp_st lp0)).
    { intros key. cbn [lp0 submit_loop lp_st]. rewrite submit_start_book_at. apply Hok. }
    pose proof (indexed_submit_loop env order user st (reachable_fresh_indexed st Hr) Hfresh)
      as Hl0.
    fold lc lp0 in Hl0.
    assert (Hne : x <> lc_order_id lc).
    { intros ->. unfold fresh_for in Hfresh. cbn [lc submit_locals lc_order_id] in Hd.
      congruence. }
    assert (Hd0 : find_one x (orders_collection (lp_st lp0)) = Some d).
    { cbn [lp0 submit_loop lp_st]. rewrite submit_start_orders, find_one_app, Hd.
      reflexivity. }
    pose proof (run_match_loop_keeps_doc env lc lp0 _ _ Hok0 Hl0 Hd0 (or_intror Hdead))
      as Hloop.
    destruct (_ && _).
    + cbn [out_state db_update set_orders orders_collection].
      rewrite find_one_update_one_ne; [exact Hd0|reflexivity|exact Hne].
    + destruct (snd (run_match_loop env lc lp0)); cbn [out_state]; [exact Hloop|].
      destruct (handle_remaining_orders lc (fst (run_match_loop env lc lp0)))
        as (f & -> & Hf & _).
      rewrite find_one_update_one_ne; [exact Hloop|apply Hf|exact Hne].
  - destruct (find_one (co_order_id cancel) (orders_collection st)) as [d'|] eqn:Hd'.
    2:{ unfold cancel_order. rewrite Hd'. exact Hd. }
    destruct (existsb (String.eqb (doc_status d')) ["filled"; "cancelled"]) eqn:Hlive.
    { unfold cancel_order. rewrite Hd', Hlive. exact Hd. }
    rewrite (cancel_order_orders cancel user st d' Hd' Hlive).
    rewrite find_one_update_one_ne; [exact Hd|reflexivity|].
    intros ->. rewrite Hd in Hd'. injection Hd' as <-.
    apply terminal_status in Hterm. congruence.
Qed.

Lemma terminal_status_final_witness :
  (doc_status <$> find_one "ORDER-A" (orders_collection (run scenario_1 initial_state)))
  = Some "filled" /\
  find_one "ORDER-A"
    (orders_collection
       (serve (Cancel (mkCancelOrder "ORDER-A") bob) (run scenario_1 initial_state)))
  = find_one "ORDER-A" (orders_collection (run scenario_1 initial_state)).
Proof.
  split; [vm_compute; reflexivity|].
  assert (Hr : reachable_fresh (run scenario_1 initial_state)).
  { apply (fresh_submit _ (env_of "T") (order_of "market" "buy" 15 None) bob).
    - apply (fresh_submit _ (env_of "B") (order_of "limit" "sell" 10 (Some 100)) alice).
      + apply (fresh_submit _ (env_of "A") (order_of "limit" "sell" 10 (Some 100)) alice).
        * apply fresh_init.
        * reflexivity.
      + vm_compute. reflexivity.
    - vm_compute. reflexivity. }
  destruct (find_one "ORDER-A" (orders_collection (run scenario_1 initial_state)))
    as [d|] eqn:Hd; [|vm_compute in Hd; discriminate].
  apply (terminal_status_final (Cancel (mkCancelOrder "ORDER-A") bob) _ _ d Hr I Hd).
  left. vm_compute in Hd. injection Hd as <-. reflexivity.
Defined.

(** ** What a cancellation leaves alone *)

Lemma filter_deque_remove oid o q :
  ro_order_id o = oid ->
  List.filter (fun x => negb (String.eqb (ro_order_id x) oid)) (deque_remove o q)
  = List.filter (fun x => negb (String.eqb (ro_order_id x) oid)) q.
Proof.
  intros Ho. induction q as [|x r IH]; simpl; [reflexivity|].
  destruct (resting_eqb x o) eqn:E.
  - unfold resting_eqb in E. apply andb_true_iff in E as [E _].
    apply String.eqb_eq in E. rewrite E, Ho, String.eqb_refl. reflexivity.
  - simpl. rewrite IH. reflexivity.
Qed.

Lemma filter_remove_order oid q :
  List.filter (fun x => negb (String.eqb (ro_order_id x) oid)) (remove_order oid q)
  = List.filter (fun x => negb (String.eqb (ro_order_id x) oid)) q.
Proof.
  unfold remove_order.
  destruct (List.find _ q) as [o|] eqn:Hf; [|reflexivity].
  apply List.find_some in Hf as [_ Ho]. apply String.eqb_eq in Ho.
  apply filter_deque_remove, Ho.
Qed.

(** X19: between requests, a cancellation leaves every other order as it
    is: its document, and in every queue of every book the orders under
    other identifiers, with their quantities and in their order. *)
Theorem cancel_order_frame cancel user st :
  let oid := co_order_id cancel in
  let st' := out_state (cancel_order cancel user st) in
  reachable st ->
  (forall x, x <> oid ->
     find_one x (orders_collection st') = find_one x (orders_collection st)) /\
  (forall key bid_side p,
     List.filter (fun o => negb (String.eqb (ro_order_id o) oid))
       (queue_at key bid_side p st')
     = List.filter (fun o => negb (String.eqb (ro_order_id o) oid))
         (queue_at key bid_side p st)).
Proof.
  intros oid st' Hr. subst st'.
  pose proof (reachable_state_ok st Hr) as Hok.
  destruct (find_one oid (orders_collection st)) as [d|] eqn:Hd.
  2:{ unfold cancel_order. fold oid. rewrite Hd. auto. }
  destruct (existsb (String.eqb (doc_status d)) ["filled"; "cancelled"]) eqn:Hlive.
  { unfold cancel_order. fold oid. rewrite Hd, Hlive. auto. }
  split.
  - intros x Hne. rewrite (cancel_order_orders cancel user st d Hd Hlive).
    apply find_one_update_one_ne; [reflexivity|exact Hne].
  - intros key bs p. rewrite (queue_at_cancel cancel user st d _ _ _ Hok Hd Hlive).
    destruct (match doc_price d with Some _ => _ | None => _ end); [|reflexivity].
    apply filter_remove_order.
Qed.

Lemma cancel_order_frame_witness :
  reachable two_asks /\
  queue_at "BTC-USD" false 100 two_asks
    = [mkResting "ORDER-A" 10; mkResting "ORDER-B" 10] /\
  List.filter (fun o => negb (String.eqb (ro_order_id o) "ORDER-A"))
    (queue_at "BTC-USD" false 100
       (out_state (cancel_order (mkCancelOrder "ORDER-A") bob two_asks)))
  = [mkResting "ORDER-B" 10].
Proof.
  assert (Hr : reachable two_asks) by (apply reach_submit, reach_submit, reach_init).
  assert (Hq : queue_at "BTC-USD" false 100 two_asks
               = [mkResting "ORDER-A" 10; mkResting "ORDER-B" 10])
    by (vm_compute; reflexivity).
  split; [exact Hr|]. split; [exact Hq|].
  pose proof (proj2 (cancel_order_frame (mkCancelOrder "ORDER-A") bob two_asks Hr)
                "BTC-USD" false 100) as Hfr.
  cbn [co_order_id] in Hfr. rewrite Hfr, Hq. reflexivity.
Defined.

(** ** A limit order that rests and is cancelled *)

Lemma alter_fix (f : deque -> deque) k (d : SortedDict.t deque) :
  (forall v, SortedDict.getitem k d = Some v -> f v = v) -> SortedDict.alter f k d = d.
Proof.
  induction d as [|[k' v] r IH]; simpl; [reflexivity|].
  destruct (k =? k') eqn:E; intros H.
  - rewrite (H v eq_refl). reflexivity.
  - rewrite (IH H). reflexivity.
Qed.

Lemma delitem_setitem_new k (v : deque) (d : SortedDict.t deque) :
  SortedDict.getitem k d = None -> SortedDict.delitem k (SortedDict.setitem k v d) = d.
Proof.
  induction d as [|[k' v'] r IH]; simpl.
  - intros _. rewrite Z.eqb_refl. reflexivity.
  - destruct (k =? k') eqn:E; [discriminate|]. intros H.
    destruct (k <? k'); simpl.
    + rewrite Z.eqb_refl. reflexivity.
    + rewrite E, (IH H). reflexivity.
Qed.

(** Taking the order that has just rested out of its level gives the
    side as it was. *)
Lemma level_becomes_rest rp o (d : SortedDict.t deque) :
  SortedDict.getitem rp d <> Some [] ->
  level_becomes rp (default [] (SortedDict.getitem rp d))
    (SortedDict.alter (fun q => q ++ [o]) rp
       (if SortedDict.contains rp d then d else SortedDict.setitem rp [] d))
  = d.
Proof.
  intros Hne. unfold SortedDict.contains.
  destruct (SortedDict.getitem rp d) as [q|] eqn:Hq; cbn [default from_option id].
  - destruct q as [|y q]; [exfalso; apply Hne; reflexivity|]. unfold level_becomes.
    rewrite SDF.alter_alter. apply alter_fix. intros v Hv. rewrite Hq in Hv.
    injection Hv as <-. reflexivity.
  - unfold level_becomes. rewrite SDF.delitem_alter. apply delitem_setitem_new, Hq.
Qed.

Lemma getitem_rest rp o (d : SortedDict.t deque) :
  SortedDict.getitem rp
    (SortedDict.alter (fun q => q ++ [o]) rp
       (if SortedDict.contains rp d then d else SortedDict.setitem rp [] d))
  = Some (default [] (SortedDict.getitem rp d) ++ [o]).
Proof.
  unfold SortedDict.contains. rewrite SDF.getitem_alter.
  match goal with |- context [SortedDict.getitem rp ?X] => set (d' := X) end.
  assert (H : SortedDict.getitem rp d' = Some (default [] (SortedDict.getitem rp d))).
  { unfold d'. destruct (SortedDict.getitem rp d) as [q|] eqn:Hq;
      [exact Hq|apply SDF.getitem_setitem]. }
  rewrite H. reflexivity.
Qed.

Lemma book_ext side (b b' : Book) :
  own side b = own side b' -> opposite side b = opposite side b' -> b = b'.
Proof.
  unfold own, opposite. destruct b, b'; cbn. destruct (String.eqb side "buy");
    intros -> ->; reflexivity.
Qed.

(** A loop that makes no trade changes nothing. *)
Lemma run_match_loop_no_trade env lc lp0 :
  lp_trades (fst (run_match_loop env lc lp0)) = lp_trades lp0 ->
  lp_st (fst (run_match_loop env lc lp0)) = lp_st lp0.
Proof.
  set (P := fun lp : Loop =>
              (length (lp_trades lp0) <= length (lp_trades lp))%nat /\
              (lp_trades lp = lp_trades lp0 -> lp_st lp = lp_st lp0)).
  assert (HP : P (fst (run_match_loop env lc lp0))).
  { apply (run_match_loop_rule P (fun lp _ => P lp)).
    - auto.
    - intros lp [Hlen Hsame] _.
      destruct (loop_body_cases env lc lp)
        as [[_ ->]|[(e & lp' & -> & Hst & Htr & _)
                  |(p & m & r & lp' & _ & -> & _ & _ & Htr & _)]].
      + split; assumption.
      + unfold P. rewrite Hst, Htr. split; assumption.
      + assert (HP' : P lp').
        { unfold P. rewrite Htr, length_app. simpl. split; [lia|].
          intros H. apply (f_equal (@length _)) in H. rewrite length_app in H.
          simpl in H. lia. }
        destruct (String.eqb (lc_typ lc) "ioc"); exact HP'.
    - split; [lia|reflexivity]. }
  apply HP.
Qed.

Lemma handle_remaining_rests lc lp rp :
  0 < lp_remaining lp ->
  String.eqb (lc_typ lc) "limit" = true ->
  lc_price lc = Some rp ->
  let o := {| ro_order_id := lc_order_id lc; ro_quantity := lp_remaining lp |} in
  let key := upper (lc_symbol lc) in
  (forall key', key' <> key ->
     book_at key' (fst (handle_remaining lc lp)) = book_at key' (lp_st lp)) /\
  opposite (lc_side lc) (book_at key (fst (handle_remaining lc lp)))
  = opposite (lc_side lc) (book_at key (lp_st lp)) /\
  own (lc_side lc) (book_at key (fst (handle_remaining lc lp)))
  = SortedDict.alter (fun q => q ++ [o]) rp
      (if SortedDict.contains rp (own (lc_side lc) (book_at key (lp_st lp)))
       then own (lc_side lc) (book_at key (lp_st lp))
       else SortedDict.setitem rp [] (own (lc_side lc) (book_at key (lp_st lp)))).
Proof.
  intros Hrem Hlim Hp o key. unfold handle_remaining.
  replace (lp_remaining lp >? 0) with true by lia. rewrite Hlim, Hp. cbn [fst].
  fold key. split; [|split].
  - intros key' Hne. rewrite book_at_db_update. apply book_at_put_book_ne. congruence.
  - rewrite book_at_db_update, book_at_put_book. apply on_own_opposite.
  - rewrite book_at_db_update, book_at_put_book, on_own_own. reflexivity.
Qed.

(** X20: in a state reached with fresh identifiers, a limit order that is
    submitted, makes no trade and is then cancelled, by whoever, leaves
    every book as it was before the submission, with no level left behind,
    and the trades collection as it was. *)
Theorem submit_cancel_round_trip env order user user' st oid :
  let st1 := out_state (submit_order env order user st) in
  let out2 := cancel_order (mkCancelOrder oid) user' st1 in
  reachable_fresh st ->
  fresh_for env st ->
  lower (oi_order_type order) = "limit" ->
  out_result (submit_order env order user st)
    = Returned [("order_id", VStr oid); ("trades", VTrades [])] ->
  out_result out2 = Returned [("order_id", VStr oid); ("status", VStr "cancelled")] /\
  (forall key, book_at key (out_state out2) = book_at key st) /\
  trades_collection (out_state out2) = trades_collection st /\
  order_status oid (out_state out2) = Some "cancelled".
Proof.
  intros st1 out2 Hr Hfresh Htyp Hres.
  pose proof (submit_order_returned_trades _ _ _ _ _ _ Hres) as (Ha & -> & He & Ht).
  pose proof (reachable_state_ok st (reachable_fresh_reachable st Hr)) as Hok.
  destruct (reachable_fresh_indexed st Hr) as [L1 _].
  set (lc := submit_locals env order) in *.
  set (lp0 := submit_loop env order user st) in *.
  set (lp := fst (run_match_loop env lc lp0)) in *.
  set (K := upper (oi_symbol order)).
  set (side := lower (oi_side order)).
  assert (Hst1 : st1 = fst (handle_remaining lc lp)).
  { unfold st1. rewrite (submit_order_accepted _ _ _ _ Ha) in *. cbv zeta in *.
    fold lc lp0 in Hres |- *. destruct (_ && _); [discriminate|].
    fold lp. rewrite He. reflexivity. }
  assert (Hlp : lp_st lp = lp_st lp0).
  { apply run_match_loop_no_trade. fold lp. rewrite <- Ht. reflexivity. }
  assert (Hrem : lp_remaining lp = oi_quantity order).
  { destruct (run_match_loop_own env lc lp0) as (_ & Hsum & _). fold lp in Hsum.
    rewrite <- Ht in Hsum. cbn in Hsum. lia. }
  assert (Hq : 0 < lp_remaining lp) by (rewrite Hrem; apply Ha).
  assert (Hlim : String.eqb (lc_typ lc) "limit" = true).
  { cbn [lc submit_locals lc_typ]. rewrite Htyp. reflexivity. }
  assert (Hwp : exists rp, lc_price lc = Some rp).
  { cbn [lc submit_locals lc_price]. unfold working_price. rewrite Htyp.
    destruct Ha as [_ Hp]. rewrite Htyp in Hp.
    destruct (oi_price order) as [rp|]; [eauto|]. exfalso. apply Hp; reflexivity. }
  destruct Hwp as [rp Hrp].
  assert (HK : upper (lc_symbol lc) = K) by apply upper_idemp.
  destruct (handle_remaining_rests lc lp rp Hq Hlim Hrp) as (Hoth & Hopp & Hown).
  rewrite HK, <- Hst1, Hlp in Hoth, Hopp, Hown.
  cbn [lp0 submit_loop lp_st] in Hoth, Hopp, Hown.
  rewrite submit_start_book_at in Hopp, Hown.
  change (lc_side lc) with side in *.
  (* the document of the order *)
  assert (Hprice : String.eqb (lc_typ lc) "limit" = true -> lc_price lc <> None)
    by (intros _; congruence).
  assert (Hd1 : find_one (lc_order_id lc) (orders_collection st1)
                = Some (set_quantity_status (oi_quantity order) "open"
                          (new_order_doc env order user))).
  { rewrite Hst1, (handle_remaining_doc lc lp Hprice), Hlp.
    rewrite find_one_update_one by (intros d0; apply (final_update_same_order _ _ d0)).
    cbn [lp0 submit_loop lp_st]. rewrite submit_start_orders, find_one_app.
    unfold fresh_for in Hfresh. cbn [lc submit_locals lc_order_id]. rewrite Hfresh.
    cbn [new_order_doc doc_order_id]. rewrite String.eqb_refl.
    unfold final_update. rewrite Hrem. replace (oi_quantity order >? 0) with true by lia.
    rewrite Hlim. reflexivity. }
  set (d1 := set_quantity_status (oi_quantity order) "open" (new_order_doc env order user))
    in *.
  assert (Hlive : existsb (String.eqb (doc_status d1)) ["filled"; "cancelled"] = false)
    by reflexivity.
  destruct (cancel_order_live (mkCancelOrder (lc_order_id lc)) user' st1 d1 Hd1 Hlive)
    as (Hres2 & Hstat2 & Htr2 & Hoth2 & Hopp2 & Hown2).
  cbn [co_order_id] in *. fold out2 in Hres2, Hstat2, Htr2, Hoth2, Hopp2, Hown2.
  assert (Hk1 : upper (doc_symbol d1) = K) by apply upper_idemp.
  assert (Hs1 : doc_side d1 = side) by reflexivity.
  assert (Hp1 : doc_price d1 = Some rp) by exact Hrp.
  rewrite Hk1 in Hoth2. rewrite Hk1, Hs1 in Hopp2. rewrite Hk1, Hs1, Hp1 in Hown2.
  split; [exact Hres2|]. split; [|split; [|exact Hstat2]].
  - intros key. destruct (decide (key = K)) as [->|Hne].
    + apply (book_ext side).
      * set (d := own side (book_at K st)) in *.
        set (o := {| ro_order_id := lc_order_id lc; ro_quantity := lp_remaining lp |}) in *.
        assert (Hnew : SortedDict.getitem rp (own side (book_at K st1))
                       = Some (default [] (SortedDict.getitem rp d) ++ [o])).
        { rewrite Hown. apply getitem_rest. }
        assert (Hno : forall x, In x (default [] (SortedDict.getitem rp d)) ->
                                ro_order_id x <> lc_order_id lc).
        { intros x Hx Heq.
          destruct (L1 (lc_order_id lc) K (String.eqb side "buy") rp) as (dx & Hdx & _).
          - unfold queue_at. rewrite <- side_dict_own. fold d. rewrite <- Heq.
            apply in_map, Hx.
          - unfold fresh_for in Hfresh. cbn [lc submit_locals lc_order_id] in Hdx.
            congruence. }
        rewrite Hown2, Hnew.
        rewrite (remove_order_split (lc_order_id lc) _ o [] eq_refl Hno), app_nil_r, Hown.
        apply level_becomes_rest.
        destruct (Hok K) as [Hb _]. apply (book_ok_sides side) in Hb as [Hd_ok _].
        intros Hempty. destruct (dict_ok_getitem _ _ _ Hd_ok Hempty) as [H _].
        apply H. reflexivity.
      * rewrite Hopp2, Hopp. reflexivity.
    + rewrite (Hoth2 key Hne), (Hoth key Hne).
      cbn [lp0 submit_loop lp_st]. apply submit_start_book_at.
  - rewrite Htr2, Hst1, handle_remaining_trades, Hlp.
    apply submit_start_collections.
Qed.

Lemma submit_cancel_round_trip_witness :
  reachable_fresh two_sided /\
  fresh_for (env_of "Y") two_sided /\
  out_result (submit_order (env_of "Y") (order_of "limit" "buy" 7 (Some 98)) bob two_sided)
    = Returned [("order_id", VStr "ORDER-Y"); ("trades", VTrades [])] /\
  forall key,
    book_at key
      (out_state
         (cancel_order (mkCancelOrder "ORDER-Y") alice
            (out_state
               (submit_order (env_of "Y") (order_of "limit" "buy" 7 (Some 98)) bob
                  two_sided))))
    = book_at key two_sided.
Proof.
  assert (Hf : fresh_for (env_of "Y") two_sided) by (vm_compute; reflexivity).
  assert (H : out_result
                (submit_order (env_of "Y") (order_of "limit" "buy" 7 (Some 98)) bob two_sided)
              = Returned [("order_id", VStr "ORDER-Y"); ("trades", VTrades [])])
    by (vm_compute; reflexivity).
  split; [exact reachable_fresh_two_sided|]. split; [exact Hf|]. split; [exact H|].
  exact (proj1 (proj2 (submit_cancel_round_trip (env_of "Y")
                         (order_of "limit" "buy" 7 (Some 98)) bob alice two_sided _
                         reachable_fresh_two_sided Hf eq_refl H))).
Defined.

(** ** The best prices *)

(** X21: between requests, [get_best_price] gives the highest price of the
    bids and the lowest price of the asks, each the price of a level that
    holds an order, and [None] for a side that is empty. *)
Theorem best_prices st symbol book best_bid best_ask :
  reachable st ->
  order_books st !! symbol = Some book ->
  get_best_price (bids book) (asks book) = (best_bid, best_ask) ->
  match best_bid with
  | Some p =>
      (exists o q, SortedDict.getitem p (bids book) = Some (o :: q)) /\
      forall k, In k (SortedDict.keys (bids book)) -> k <= p
  | None => bids book = []
  end /\
  match best_ask with
  | Some p =>
      (exists o q, SortedDict.getitem p (asks book) = Some (o :: q)) /\
      forall k, In k (SortedDict.keys (asks book)) -> p <= k
  | None => asks book = []
  end.
Proof.
  intros Hr Hb. pose proof (reachable_state_ok st Hr symbol) as [[Hbids Hasks] _].
  unfold book_at in *. rewrite Hb in *. cbn [default from_option id] in *.
  unfold get_best_price, SortedDict.peekitem_first, SortedDict.peekitem_last.
  intros [= <- <-].
  assert (Hne : forall (d : SortedDict.t deque) p,
             dict_ok d -> In p (SortedDict.keys d) ->
             exists o q, SortedDict.getitem p d = Some (o :: q)).
  { intros d p Hd Hin. destruct (key_getitem_some d p Hin) as [q Hq].
    destruct (dict_ok_getitem _ _ _ Hd Hq) as [Hq0 _].
    destruct q as [|o q]; [exfalso; apply Hq0; reflexivity|eauto]. }
  split.
  - destruct (last (bids book)) as [[p q]|] eqn:El; cbn.
    + pose proof (last_key_in _ _ El) as Hin. cbn in Hin.
      split; [apply Hne; assumption|].
      apply last_Some in El as [l' El]. destruct Hbids as [Hs _]. rewrite El in *.
      apply SDF.sorted_app_last in Hs as [_ Hlt].
      intros k Hk. unfold SortedDict.keys in Hk. rewrite map_app, in_app_iff in Hk.
      destruct Hk as [Hk|[<-|[]]]; [|cbn; lia]. specialize (Hlt k Hk). lia.
    + apply last_None in El. exact El.
  - destruct (asks book) as [|[p q] rest] eqn:Ea; [reflexivity|].
    pose proof (Hne _ p Hasks (or_introl eq_refl)) as H1.
    simpl (_ <$> _). split; [exact H1|].
    destruct Hasks as [Hs _]. apply SDF.sorted_cons in Hs as [_ Hlt].
    intros k [<-|Hk]; [cbn [fst]; lia|]. specialize (Hlt k Hk). lia.
Qed.

Lemma best_prices_witness :
  reachable two_sided /\
  order_books two_sided !! "BTC-USD"
    = Some {| bids := [(99, [mkResting "ORDER-X" 10])];
              asks := [(100, [mkResting "ORDER-A" 10])] |} /\
  get_best_price [(99, [mkResting "ORDER-X" 10])] [(100, [mkResting "ORDER-A" 10])]
    = (Some 99, Some 100) /\
  forall k, In k (SortedDict.keys [(99, [mkResting "ORDER-X" 10])]) -> k <= 99.
Proof.
  assert (Hr : reachable two_sided) by (apply reach_submit, reach_submit, reach_init).
  assert (Hb : order_books two_sided !! "BTC-USD"
               = Some {| bids := [(99, [mkResting "ORDER-X" 10])];
                         asks := [(100, [mkResting "ORDER-A" 10])] |})
    by (vm_compute; reflexivity).
  split; [exact Hr|]. split; [exact Hb|]. split; [reflexivity|].
  exact (proj2 (proj1 (best_prices two_sided "BTC-USD" _ (Some 99) (Some 100)
                         Hr Hb eq_refl))).
Defined.

(** ** The books of the other symbols *)

Lemma handle_remaining_other_books lc lp key :
  key <> upper (lc_symbol lc) ->
  book_at key (fst (handle_remaining lc lp)) = book_at key (lp_st lp).
Proof.
  intros Hne. unfold handle_remaining.
  destruct (lp_remaining lp >? 0); [|reflexivity].
  destruct (String.eqb (lc_typ lc) "limit"); [|reflexivity].
  destruct (match lc_price lc with Some p => Some p | None => lp_match_price lp end);
    [|reflexivity].
  cbn [fst]. rewrite book_at_db_update. apply book_at_put_book_ne. congruence.
Qed.

(** X22: a request works on the book of one symbol: a submission leaves
    the book of every symbol other than its own, upper-cased, as it is,
    and so does a cancellation for every symbol other than the one in
    the document of its order. *)
Theorem other_symbols_untouched key st :
  (forall env order user,
     key <> upper (oi_symbol order) ->
     book_at key (out_state (submit_order env order user st)) = book_at key st) /\
  (forall cancel user,
     (forall d, find_one (co_order_id cancel) (orders_collection st) = Some d ->
                key <> upper (doc_symbol d)) ->
     book_at key (out_state (cancel_order cancel user st)) = book_at key st).
Proof.
  split.
  - intros env order user Hne.
    destruct (accepted_dec order) as [Ha|Hn].
    2:{ destruct (submit_order_rejected env order user st Hn) as [detail ->]. reflexivity. }
    rewrite (submit_order_accepted _ _ _ _ Ha). cbv zeta.
    set (lc := submit_locals env order).
    set (lp0 := submit_loop env order user st).
    assert (Hk : key <> upper (lc_symbol lc)).
    { cbn [lc submit_locals lc_symbol]. rewrite upper_idemp. exact Hne. }
    destruct (run_match_loop_effects env lc lp0) as (_ & _ & Hbook).
    specialize (Hbook key Hk). cbn [lp0 submit_loop lp_st] in Hbook.
    rewrite submit_start_book_at in Hbook.
    destruct (_ && _).
    + cbn [out_state]. rewrite book_at_db_update. apply submit_start_book_at.
    + destruct (snd (run_match_loop env lc lp0)); cbn [out_state]; [exact Hbook|].
      rewrite handle_remaining_other_books by exact Hk. exact Hbook.
  - intros cancel user Hne.
    destruct (find_one (co_order_id cancel) (orders_collection st)) as [d|] eqn:Hd.
    2:{ unfold cancel_order. rewrite Hd. reflexivity. }
    destruct (existsb (String.eqb (doc_status d)) ["filled"; "cancelled"]) eqn:Hlive.
    { unfold cancel_order. rewrite Hd, Hlive. reflexivity. }
    destruct (cancel_order_live cancel user st d Hd Hlive) as (_ & _ & _ & Hother & _).
    apply Hother, Hne, eq_refl.
Qed.

(** ** The two sides of a trade *)

(** X23: in a state reached with fresh identifiers, a submission with a
    fresh identifier never trades with itself: the maker of each of its
    trades is another order than the taker, which is the order
    submitted. *)
Theorem taker_is_not_maker env order user st oid trades t :
  reachable_fresh st ->
  fresh_for env st ->
  out_result (submit_order env order user st)
    = Returned [("order_id", VStr oid); ("trades", VTrades trades)] ->
  In t trades ->
  taker_order_id t = oid /\ maker_order_id t <> oid.
Proof.
  intros Hr Hfresh Hres Hin.
  pose proof (submit_order_returned_trades _ _ _ _ _ _ Hres) as (Ha & -> & _ & ->).
  set (lc := submit_locals env order) in *.
  set (lp0 := submit_loop env order user st) in *.
  assert (Hok0 : state_ok (lp_st lp0)).
  { intros key. cbn [lp0 submit_loop lp_st]. rewrite submit_start_book_at.
    apply reachable_state_ok, reachable_fresh_reachable, Hr. }
  pose proof (indexed_submit_loop env order user st (reachable_fresh_indexed st Hr) Hfresh)
    as Hl0.
  fold lc lp0 in Hl0.
  set (ok := fun t : Trade =>
               taker_order_id t = lc_order_id lc /\ maker_order_id t <> lc_order_id lc).
  assert (HP : Forall ok (lp_trades (fst (run_match_loop env lc lp0)))).
  { apply (run_match_loop_rule
             (fun lp => state_ok (lp_st lp) /\ indexed_loop lc lp /\ Forall ok (lp_trades lp))
             (fun lp _ => Forall ok (lp_trades lp))).
    - tauto.
    - intros lp (Hok & Hidx & Htr) Hrem.
      destruct (loop_body_cases env lc lp)
        as [[Hsel ->]|[(e & lp' & -> & _ & Htr' & _)
                      |(p & m & r & lp' & Hsel & -> & Hst & _ & Htr' & _)]].
      + exact Htr.
      + rewrite Htr'. exact Htr.
      + assert (Hidx' : indexed_loop lc lp')
          by (eapply indexed_loop_after_match; eassumption).
        assert (Hok' : state_ok (lp_st lp'))
          by (rewrite Hst; apply state_ok_after_match; assumption).
        assert (Htrades : Forall ok (lp_trades lp')).
        { rewrite Htr'. apply Forall_app. split; [exact Htr|].
          constructor; [|constructor]. split; [reflexivity|].
          cbn [trade_of maker_order_id]. intros Heq.
          destruct Hidx as (_ & _ & Hno).
          assert (Hs : SortedDict.sorted
                         (opposite (lc_side lc)
                            (book_at (upper (lc_symbol lc)) (lp_st lp))) = true).
          { destruct (Hok (upper (lc_symbol lc))) as [Hb _].
            apply (book_ok_sides (lc_side lc)) in Hb as [_ [H _]]. exact H. }
          apply (Hno (upper (lc_symbol lc)) (negb (String.eqb (lc_side lc) "buy")) p).
          destruct (queue_at_after_match env lc lp p m r (upper (lc_symbol lc))
                      (negb (String.eqb (lc_side lc) "buy")) p Hs Hsel) as [H _].
          rewrite H, (proj2 (at_loc_true _ _ _ _ _ _)) by auto.
          rewrite <- Heq. simpl. auto. }
        destruct (String.eqb (lc_typ lc) "ioc"); auto.
    - split; [exact Hok0|]. split; [exact Hl0|]. constructor. }
  rewrite List.Forall_forall in HP. exact (HP t Hin).
Qed.

Lemma taker_is_not_maker_witness :
  reachable_fresh two_sided /\
  fresh_for (env_of "T") two_sided /\
  out_result (submit "T" "market" "buy" 4 None two_sided)
    = Returned [("order_id", VStr "ORDER-T"); ("trades", VTrades [trade_T 0 100 4 "ORDER-A"])] /\
  maker_order_id (trade_T 0 100 4 "ORDER-A") <> "ORDER-T".
Proof.
  assert (Hf : fresh_for (env_of "T") two_sided) by (vm_compute; reflexivity).
  assert (H : out_result (submit "T" "market" "buy" 4 None two_sided)
    = Returned [("order_id", VStr "ORDER-T"); ("trades", VTrades [trade_T 0 100 4 "ORDER-A"])])
    by (vm_compute; reflexivity).
  split; [exact reachable_fresh_two_sided|]. split; [exact Hf|]. split; [exact H|].
  exact (proj2 (taker_is_not_maker (env_of "T") (order_of "market" "buy" 4 None) alice
                  two_sided _ _ _ reachable_fresh_two_sided Hf H (or_introl eq_refl))).
Defined.

(** ** The prices of successive trades *)

Lemma sorted_levels_ordered (d : SortedDict.t deque) :
  SortedDict.sorted d = true -> levels_ordered Z.lt d.
Proof.
  induction d as [|[p q] rest IH]; [intros _; exact I|].
  intros H. apply SDF.sorted_cons in H as [Hs Hlt]. split; [|apply IH, Hs].
  intros x Hx. apply Hlt. unfold SortedDict.keys. apply in_map, Hx.
Qed.

Lemma sorted_rev_levels_ordered (l : list (Z * deque)) :
  SortedDict.sorted (rev l) = true -> levels_ordered (fun p k => k < p) l.
Proof.
  induction l as [|[p q] rest IH]; [intros _; exact I|].
  simpl. intros H. apply SDF.sorted_app_last in H as [Hs Hlt]. split; [|apply IH, Hs].
  intros x Hx. apply Hlt. unfold SortedDict.keys. apply in_map. apply in_rev in Hx. exact Hx.
Qed.

Lemma makers_ordered (R : Z -> Z -> Prop) levels :
  levels_ordered R levels ->
  forall i j pi mi pj mj,
    (i <= j)%nat ->
    makers levels !! i = Some (pi, mi) ->
    makers levels !! j = Some (pj, mj) ->
    pi = pj \/ R pi pj.
Proof.
  induction levels as [|[p q] rest IH]; intros Hord i j pi mi pj mj Hij Hi Hj.
  - discriminate.
  - destruct Hord as [Hp Hrest]. rewrite makers_cons in Hi, Hj.
    apply lookup_app_Some in Hi as [Hi|[Hli Hi]];
      apply lookup_app_Some in Hj as [Hj|[Hlj Hj]].
    + apply list_elem_of_lookup_2, list_elem_of_In, in_map_iff in Hi as (? & [= <- <-] & _).
      apply list_elem_of_lookup_2, list_elem_of_In, in_map_iff in Hj as (? & [= <- <-] & _).
      left. reflexivity.
    + apply list_elem_of_lookup_2, list_elem_of_In, in_map_iff in Hi as (? & [= <- <-] & _).
      apply list_elem_of_lookup_2, list_elem_of_In, In_makers in Hj as (q' & Hq' & _).
      right. apply (Hp _ Hq').
    + apply lookup_lt_Some in Hj. exfalso.
      exact (Nat.lt_irrefl _ (Nat.le_lt_trans _ _ _ (Nat.le_trans _ _ _ Hli Hij) Hj)).
    + eapply (IH Hrest); [|exact Hi|exact Hj]. apply Nat.sub_le_mono_r, Hij.
Qed.

(** X24: the trades of a submission go from the best price on: of two
    trades of one response, the later one is made at a price that is the
    same or worse for the taker, higher for a buy and lower for a sell. *)
Theorem trade_prices_ordered env order user st oid trades i j ti tj :
  reachable st ->
  out_result (submit_order env order user st)
    = Returned [("order_id", VStr oid); ("trades", VTrades trades)] ->
  (i <= j)%nat ->
  trades !! i = Some ti ->
  trades !! j = Some tj ->
  if String.eqb (lower (oi_side order)) "buy"
  then tr_price ti <= tr_price tj
  else tr_price tj <= tr_price ti.
Proof.
  intros Hr Hres Hij Hi Hj.
  set (side := lower (oi_side order)).
  destruct (reachable_state_ok st Hr (upper (oi_symbol order))) as [[Hbids Hasks] _].
  fold (book_for order st) in Hbids, Hasks.
  assert (Hs : SortedDict.sorted (opposite side (book_for order st)) = true).
  { unfold opposite. destruct (String.eqb side "buy"); [apply Hasks|apply Hbids]. }
  destruct (submit_order_follows _ _ _ _ _ _ Hs Hres) as [Hf _]. fold side in Hf.
  destruct (follows_lookup _ _ _ _ Hf Hi) as (mi & HFi & _).
  destruct (follows_lookup _ _ _ _ Hf Hj) as (mj & HFj & _).
  unfold priority in HFi, HFj. destruct (String.eqb side "buy").
  - destruct (makers_ordered Z.lt _ (sorted_levels_ordered _ (proj1 Hasks))
                _ _ _ _ _ _ Hij HFi HFj); lia.
  - assert (Hord : levels_ordered (fun p k => k < p) (rev (bids (book_for order st)))).
    { apply sorted_rev_levels_ordered. rewrite rev_involutive. apply Hbids. }
    destruct (makers_ordered _ _ Hord _ _ _ _ _ _ Hij HFi HFj); lia.
Qed.

Lemma trade_prices_ordered_witness :
  reachable two_levels /\
  out_result (submit "T" "market" "buy" 15 None two_levels)
    = Returned [("order_id", VStr "ORDER-T");
                ("trades", VTrades [trade_T 0 100 10 "ORDER-A"; trade_T 1 101 5 "ORDER-B"])] /\
  tr_price (trade_T 0 100 10 "ORDER-A") <= tr_price (trade_T 1 101 5 "ORDER-B").
Proof.
  assert (Hr : reachable two_levels) by (apply reach_submit, reach_submit, reach_init).
  assert (H : out_result (submit "T" "market" "buy" 15 None two_levels)
    = Returned [("order_id", VStr "ORDER-T");
                ("trades", VTrades [trade_T 0 100 10 "ORDER-A"; trade_T 1 101 5 "ORDER-B"])])
    by (vm_compute; reflexivity).
  split; [exact Hr|]. split; [exact H|].
  exact (trade_prices_ordered (env_of "T") (order_of "market" "buy" 15 None) alice
           two_levels _ _ 0%nat 1%nat _ _ Hr H (le_S _ _ (le_n _)) eq_refl eq_refl).
Defined.

(** ** The documents of the makers *)

(** With a fresh identifier, the maker of every trade of the loop is
    another order than the taker, and its document is filled or
    partial. *)
Lemma run_match_loop_makers env lc lp0 :
  let ok := fun (docs : list OrderDoc) (t : Trade) =>
    maker_order_id t <> lc_order_id lc /\
    exists d,
      find_one (maker_order_id t) docs = Some d /\
      (doc_status d = "filled" \/ doc_status d = "partial") in
  state_ok (lp_st lp0) ->
  indexed_loop lc lp0 ->
  lp_trades lp0 = [] ->
  Forall (ok (orders_collection (lp_st (fst (run_match_loop env lc lp0)))))
    (lp_trades (fst (run_match_loop env lc lp0))).
Proof.
  intros ok Hok0 Hl0 Ht0.
  apply (run_match_loop_rule
           (fun lp => state_ok (lp_st lp) /\ indexed_loop lc lp /\
                      Forall (ok (orders_collection (lp_st lp))) (lp_trades lp))
           (fun lp _ => Forall (ok (orders_collection (lp_st lp))) (lp_trades lp))).
  - tauto.
  - intros lp (Hok & Hidx & Htr) Hrem.
    destruct (loop_body_cases env lc lp)
      as [[Hsel ->]|[(e & lp' & -> & Hst & Htr' & _)
                    |(p & m & r & lp' & Hsel & -> & Hst & _ & Htr' & _)]].
    + exact Htr.
    + rewrite Hst, Htr'. exact Htr.
    + assert (Hidx' : indexed_loop lc lp')
        by (eapply indexed_loop_after_match; eassumption).
      assert (Hok' : state_ok (lp_st lp'))
        by (rewrite Hst; apply state_ok_after_match; assumption).
      assert (Htrades : Forall (ok (orders_collection (lp_st lp'))) (lp_trades lp')).
      { destruct Hidx as ((L1 & _) & _ & Hno).
        assert (Hs : SortedDict.sorted
                       (opposite (lc_side lc)
                          (book_at (upper (lc_symbol lc)) (lp_st lp))) = true).
        { destruct (Hok (upper (lc_symbol lc))) as [Hb _].
          apply (book_ok_sides (lc_side lc)) in Hb as [_ [H _]]. exact H. }
        assert (Hin : In (ro_order_id m)
                        (ids (queue_at (upper (lc_symbol lc))
                                (negb (String.eqb (lc_side lc) "buy")) p (lp_st lp)))).
        { destruct (queue_at_after_match env lc lp p m r (upper (lc_symbol lc))
                      (negb (String.eqb (lc_side lc) "buy")) p Hs Hsel) as [H _].
          rewrite H, (proj2 (at_loc_true _ _ _ _ _ _)) by auto. simpl. auto. }
        assert (Hstatus : forall d,
                  doc_status
                    (maker_update
                       (ro_quantity m - Z.min (lp_remaining lp) (ro_quantity m)) d)
                  = "filled" \/
                  doc_status
                    (maker_update
                       (ro_quantity m - Z.min (lp_remaining lp) (ro_quantity m)) d)
                  = "partial").
        { intros d. unfold maker_update. destruct (_ =? 0); cbn; auto. }
        rewrite Htr', Hst. cbn [state_after_match orders_collection].
        apply Forall_app. split.
        - eapply List.Forall_impl; [|exact Htr]. intros t [Hne (d & Hd & Hs')].
          split; [exact Hne|].
          rewrite find_one_update_one_cases by apply maker_update_id. rewrite Hd.
          destruct (String.eqb (maker_order_id t) (ro_order_id m));
            eexists; (split; [reflexivity|]); [apply Hstatus|exact Hs'].
        - constructor; [|constructor]. cbn [trade_of maker_order_id]. split.
          + intros Heq.
            apply (Hno (upper (lc_symbol lc)) (negb (String.eqb (lc_side lc) "buy")) p).
            rewrite <- Heq. exact Hin.
          + destruct (L1 _ _ _ _ Hin) as (dm & Hdm & _).
            rewrite find_one_update_one, Hdm by apply maker_update_id.
            eexists. split; [reflexivity|apply Hstatus]. }
      destruct (String.eqb (lc_typ lc) "ioc"); auto.
  - split; [exact Hok0|]. split; [exact Hl0|]. rewrite Ht0. constructor.
Qed.

(** X25: in a state reached with fresh identifiers, after a submission
    with a fresh identifier, the document of the maker of each of its
    trades is filled, and the maker rests nowhere any more, or it is
    partial, and the maker rests in the queue its document names with the
    quantity its document records. *)
Theorem maker_documents env order user st oid trades t :
  let st' := out_state (submit_order env order user st) in
  reachable_fresh st ->
  fresh_for env st ->
  out_result (submit_order env order user st)
    = Returned [("order_id", VStr oid); ("trades", VTrades trades)] ->
  In t trades ->
  exists d,
    find_one (maker_order_id t) (orders_collection st') = Some d /\
    ((doc_status d = "filled" /\
      forall key bid_side p, ~ In (maker_order_id t) (ids (queue_at key bid_side p st'))) \/
     (doc_status d = "partial" /\
      exists p o,
        doc_price d = Some p /\
        In o (queue_at (upper (doc_symbol d)) (String.eqb (doc_side d) "buy") p st') /\
        ro_order_id o = maker_order_id t /\ ro_quantity o = doc_quantity d)).
Proof.
  intros st' Hr Hfresh Hres Hin.
  assert (Hr' : reachable_fresh st') by (apply fresh_submit; assumption).
  pose proof (submit_order_returned_trades _ _ _ _ _ _ Hres) as (Ha & -> & He & ->).
  assert (Hst' : st' = fst (handle_remaining (submit_locals env order)
                              (fst (run_match_loop env (submit_locals env order)
                                      (submit_loop env order user st))))).
  { unfold st'. rewrite (submit_order_accepted _ _ _ _ Ha) in *. cbv zeta in *.
    destruct (_ && _); [discriminate|]. rewrite He. reflexivity. }
  set (lc := submit_locals env order) in *.
  set (lp0 := submit_loop env order user st) in *.
  assert (Hok0 : state_ok (lp_st lp0)).
  { intros key. cbn [lp0 submit_loop lp_st]. rewrite submit_start_book_at.
    apply reachable_state_ok, reachable_fresh_reachable, Hr. }
  pose proof (indexed_submit_loop env order user st (reachable_fresh_indexed st Hr) Hfresh)
    as Hl0.
  fold lc lp0 in Hl0.
  pose proof (run_match_loop_makers env lc lp0 Hok0 Hl0 eq_refl) as Hm.
  cbv beta zeta in Hm. rewrite List.Forall_forall in Hm.
  destruct (Hm t Hin) as (Hne & d & Hd & Hs).
  assert (Hd' : find_one (maker_order_id t) (orders_collection st') = Some d).
  { rewrite Hst'.
    destruct (handle_remaining_orders lc (fst (run_match_loop env lc lp0)))
      as (f & -> & Hf & _).
    rewrite find_one_update_one_ne; [exact Hd|apply Hf|exact Hne]. }
  exists d. split; [exact Hd'|].
  destruct Hs as [Hs|Hs]; [left|right]; (split; [exact Hs|]).
  - intros key bs p Hrest.
    destruct (reachable_fresh_indexed st' Hr') as [L1 _].
    destruct (L1 _ _ _ _ Hrest) as (d1 & Hd1 & [Hl _] & _).
    rewrite Hd' in Hd1. injection Hd1 as <-. contradiction.
  - assert (Hl : live (doc_status d)) by (rewrite Hs; apply live_partial).
    destruct (reachable_fresh_live_rest st' Hr' _ d Hd' Hl) as (p & Hp & Hrest);
      [discriminate|].
    apply in_map_iff in Hrest as (o & Ho & Hino).
    exists p, o. split; [exact Hp|]. split; [exact Hino|]. split; [exact Ho|].
    destruct (reachable_fresh_quantity_recorded st' Hr' _ _ _ _ Hino) as (d2 & Hd2 & Hq).
    rewrite Ho, Hd' in Hd2. injection Hd2 as <-. symmetry. exact Hq.
Qed.

Lemma maker_documents_witness :
  reachable_fresh two_asks /\
  fresh_for (env_of "T") two_asks /\
  out_result (submit "T" "market" "buy" 15 None two_asks)
    = Returned [("order_id", VStr "ORDER-T");
                ("trades", VTrades [trade_T 0 100 10 "ORDER-A"; trade_T 1 100 5 "ORDER-B"])] /\
  exists d,
    find_one "ORDER-B" (orders_collection (out_state (submit "T" "market" "buy" 15 None two_asks)))
      = Some d /\
    doc_status d = "partial" /\ doc_quantity d = 5.
Proof.
  assert (Hr : reachable_fresh two_asks).
  { apply (fresh_submit _ (env_of "B") (order_of "limit" "sell" 10 (Some 100)) alice).
    - apply (fresh_submit _ (env_of "A") (order_of "limit" "sell" 10 (Some 100)) alice).
      + apply fresh_init.
      + reflexivity.
    - vm_compute. reflexivity. }
  assert (Hf : fresh_for (env_of "T") two_asks) by (vm_compute; reflexivity).
  assert (H : out_result (submit "T" "market" "buy" 15 None two_asks)
    = Returned [("order_id", VStr "ORDER-T");
                ("trades", VTrades [trade_T 0 100 10 "ORDER-A"; trade_T 1 100 5 "ORDER-B"])])
    by (vm_compute; reflexivity).
  split; [exact Hr|]. split; [exact Hf|]. split; [exact H|].
  destruct (maker_documents (env_of "T") (order_of "market" "buy" 15 None) alice two_asks
              _ _ (trade_T 1 100 5 "ORDER-B") Hr Hf H (or_intror (or_introl eq_refl)))
    as (d & Hd & _).
  exists d. split; [exact Hd|].
  vm_compute in Hd. injection Hd as <-. split; reflexivity.
Defined.
